(** * StockSage: the operational control plane

    A shallow embedding of [src/lib/rate_limiting.py] and
    [src/lib/service_manager.py]: the sliding-window rate limiter, the
    adaptive limiter, the HTTP middleware, the persistent key-value store, the
    cleanup-handler and health-check runners and the graceful shutdown;
    then the scheduler manager, the decorator for rate-limited endpoints, the
    monitors of the system load and of the service health, the start of the
    service and the lifespan of the application, and the [/health] endpoint of
    [src/main.py].

    Conventions of the embedding.
    - Python floats (instants returned by [time.time()], load percentages,
      the adaptive multiplier) are exact rationals [Q]; [int(x)] on a float
      is truncation towards zero.
    - Python ints are [Z]; dicts with string keys are [gmap string _];
      [deque]s and lists are [list]s, oldest element first.
    - A method of a Python object is a computation in the monad [M S] over
      the object's state [S]: it may return a value or raise an exception
      derived from [Exception], it updates the state, and it emits log
      records. State changes made before a [raise] persist, as in Python.
    - Readings of the wall clock and outcomes of the operating system are
      explicit arguments. *)

From Stdlib Require Import Ascii QArith Qround Lqa ZArith Lia DecimalString Sorted.
From stdpp Require Import gmap strings list fin_maps.

Local Open Scope string_scope.
Local Open Scope list_scope.
Local Open Scope Z_scope.

(** ** Exceptions, log records and the state/log/exception monad *)

Inductive exn : Type := Exception (msg : string).

(** [str(e)] *)
Definition exn_str (e : exn) : string := match e with Exception msg => msg end.

Inductive level : Type := DEBUG | INFO | WARNING | ERROR.

Definition log_record : Type := level * string.

Inductive result (A : Type) : Type :=
| Ok (a : A)
| Raise (e : exn).
Arguments Ok {A} a.
Arguments Raise {A} e.

Definition M (S A : Type) : Type := S -> result A * S * list log_record.

Definition ret {S A} (a : A) : M S A := fun s => (Ok a, s, []).

Definition bind {S A B} (m : M S A) (k : A -> M S B) : M S B :=
  fun s =>
    match m s with
    | (Ok a, s1, l1) =>
        match k a s1 with
        | (r, s2, l2) => (r, s2, l1 ++ l2)
        end
    | (Raise e, s1, l1) => (Raise e, s1, l1)
    end.

Definition raise {S A} (e : exn) : M S A := fun s => (Raise e, s, []).

(** [try: body  except Exception as e: handler(e)] *)
Definition try_except {S A} (body : M S A) (handler : exn -> M S A) : M S A :=
  fun s =>
    match body s with
    | (Ok a, s1, l1) => (Ok a, s1, l1)
    | (Raise e, s1, l1) =>
        match handler e s1 with
        | (r, s2, l2) => (r, s2, l1 ++ l2)
        end
    end.

Definition get_state {S} : M S S := fun s => (Ok s, s, []).
Definition put_state {S} (s' : S) : M S unit := fun _ => (Ok tt, s', []).
Definition modify {S} (f : S -> S) : M S unit := fun s => (Ok tt, f s, []).

(** [logger.debug], [logger.info], [logger.warning], [logger.error] *)
Definition log {S} (lv : level) (msg : string) : M S unit :=
  fun s => (Ok tt, s, [(lv, msg)]).

(** Run a method of a component object held in a field of the state: [get]
    reads the field, [set] writes it back. *)
Definition zoom {S T A} (get : S -> T) (set : T -> S -> S) (m : M T A) : M S A :=
  fun s =>
    match m (get s) with
    | (r, t', l) => (r, set t' s, l)
    end.

(** [for x in xs: body(x)] *)
Fixpoint for_each {S A} (xs : list A) (body : A -> M S unit) : M S unit :=
  match xs with
  | [] => ret tt
  | x :: rest => bind (body x) (fun _ => for_each rest body)
  end.

(** The monad is used through stdpp's [x ← m; k] and [m ;; k] notations. *)
#[global] Instance M_ret {S} : MRet (M S) := fun A => @ret S A.
#[global] Instance M_bind {S} : MBind (M S) := fun A B k m => @bind S A B m k.

(** Components of a run. *)
Definition res_of {A S} (r : result A * S * list log_record) : result A := fst (fst r).
Definition state_of {A S} (r : result A * S * list log_record) : S := snd (fst r).
Definition logs_of {A S} (r : result A * S * list log_record) : list log_record := snd r.

(** [str(n)] for a Python int. *)
Definition str_int (n : Z) : string := NilZero.string_of_int (Z.to_int n).

(** [int(x)] for a Python float: truncation towards zero. *)
Definition py_int (x : Q) : Z :=
  if Qle_bool 0 x then Qfloor x else Qceiling x.

(** Strict comparison of floats, [x < y]. *)
Definition Qlt_bool (x y : Q) : bool := negb (Qle_bool y x).

(** ** [class RateLimiter] *)

Module RateLimiter.

Record t : Type := mk {
  max_requests : Z;
  window_seconds : Z;
  requests : gmap string (list Q)
}.

(** [RateLimiter(max_requests, window_seconds)] *)
Definition init (max_requests window_seconds : Z) : t :=
  mk max_requests window_seconds ∅.

Record rate_info : Type := mk_info {
  limit : Z;
  remaining : Z;
  reset : Z;
  reset_time : string
}.

(** [self.requests[identifier]] on a [defaultdict(deque)]: a missing key reads
    as the empty deque. *)
Definition deque_of (self : t) (identifier : string) : list Q :=
  default [] (requests self !! identifier).

(** [while request_times and request_times[0] <= threshold:
        request_times.popleft()] *)
Fixpoint evict (threshold : Q) (request_times : list Q) : list Q :=
  match request_times with
  | [] => []
  | t0 :: rest =>
      if Qle_bool t0 threshold then evict threshold rest else request_times
  end.

Section IsAllowed.

(** [datetime.fromtimestamp(ts).isoformat()], which depends on the local time
    zone of the process. *)
Variable fromtimestamp_isoformat : Z -> string.

Definition is_allowed (identifier : string) (now : Q) : M t (bool * rate_info) :=
  fun self =>
    let request_times :=
      evict (now - inject_Z (window_seconds self)) (deque_of self identifier) in
    let current_requests := Z.of_nat (length request_times) in
    let is_allowed := (current_requests <? max_requests self) in
    let request_times :=
      if is_allowed then request_times ++ [now] else request_times in
    let reset_time :=
      match request_times with
      | _ :: _ => py_int (now + inject_Z (window_seconds self))
      | [] => py_int now
      end in
    let remaining :=
      Z.max 0 (max_requests self - current_requests - (if is_allowed then 1 else 0)) in
    let rate_info :=
      {| limit := max_requests self;
         remaining := remaining;
         reset := reset_time;
         reset_time := fromtimestamp_isoformat reset_time |} in
    (Ok (is_allowed, rate_info),
     mk (max_requests self) (window_seconds self)
        (<[identifier := request_times]> (requests self)),
     [(DEBUG, "Rate limit check for " +:+ identifier +:+ ": "
              +:+ str_int current_requests +:+ "/" +:+ str_int (max_requests self))]).

(** A series of checks for one identifier at the given instants; the
    admission decisions are returned in order. *)
Fixpoint check_all (identifier : string) (nows : list Q) (self : t) : list bool * t :=
  match nows with
  | [] => ([], self)
  | now :: rest =>
      match is_allowed identifier now self with
      | (Ok (a, _), self1, _) =>
          let '(decisions, self2) := check_all identifier rest self1 in
          (a :: decisions, self2)
      | (Raise _, self1, _) => ([], self1)
      end
  end.

End IsAllowed.

End RateLimiter.

(** ** [class AdaptiveRateLimiter] *)

Module AdaptiveRateLimiter.

Record t : Type := mk {
  base_limit : Z;
  window_seconds : Z;
  current_multiplier : Q;
  load_samples : list Q;
  last_adjustment : Q;
  rate_limiter : RateLimiter.t
}.

(** [AdaptiveRateLimiter(base_limit, window_seconds)], constructed at instant
    [now]. *)
Definition init (base_limit window_seconds : Z) (now : Q) : t :=
  mk base_limit window_seconds 1 [] now (RateLimiter.init base_limit window_seconds).

(** [deque(maxlen=10)] *)
Definition maxlen : nat := 10.

(** [deque.append] on a bounded deque: once full, the oldest sample is
    discarded. *)
Definition deque_append (d : list Q) (x : Q) : list Q :=
  if (length d <? maxlen)%nat then d ++ [x] else tail d ++ [x].

(** [max(a, b)] and [min(a, b)] on floats. *)
Definition py_max (a b : Q) : Q := if Qlt_bool a b then b else a.
Definition py_min (a b : Q) : Q := if Qlt_bool b a then b else a.

(** [sum(xs)] *)
Definition py_sum (xs : list Q) : Q := fold_left Qplus xs 0%Q.

(** [sum(self.load_samples) / len(self.load_samples)] *)
Definition mean (xs : list Q) : Q :=
  (py_sum xs / inject_Z (Z.of_nat (length xs)))%Q.

(** The branch of [_adjust_rate_limit] on the average load. *)
Definition adjusted_multiplier (avg_load multiplier : Q) : Q :=
  if Qlt_bool 80 avg_load then py_max (1 # 2) (multiplier * (4 # 5))
  else if Qlt_bool avg_load 40 then py_min 2 (multiplier * (11 # 10))
  else multiplier.

Section Adaptive.

(** [f"{x:.<digits>f}"] *)
Variable format_float : nat -> Q -> string.

Definition _adjust_rate_limit : M t unit :=
  fun self =>
    match load_samples self with
    | [] => (Ok tt, self, [])
    | _ :: _ =>
        let avg_load := mean (load_samples self) in
        let multiplier := adjusted_multiplier avg_load (current_multiplier self) in
        let new_limit := py_int (inject_Z (base_limit self) * multiplier) in
        (Ok tt,
         mk (base_limit self) (window_seconds self) multiplier
            (load_samples self) (last_adjustment self)
            (RateLimiter.mk new_limit
               (RateLimiter.window_seconds (rate_limiter self))
               (RateLimiter.requests (rate_limiter self))),
         [(INFO, "Adjusted rate limit to " +:+ str_int new_limit
                 +:+ " (multiplier: " +:+ format_float 2 multiplier
                 +:+ ", load: " +:+ format_float 1 avg_load +:+ "%)")])
    end.

Definition append_sample (x : Q) (self : t) : t :=
  mk (base_limit self) (window_seconds self) (current_multiplier self)
     (deque_append (load_samples self) x) (last_adjustment self) (rate_limiter self).

Definition set_last_adjustment (now : Q) (self : t) : t :=
  mk (base_limit self) (window_seconds self) (current_multiplier self)
     (load_samples self) now (rate_limiter self).

(** [update_system_load(cpu_percent, memory_percent)]; [now] is the reading of
    [time.time()]. *)
Definition update_system_load (cpu_percent memory_percent now : Q) : M t unit :=
  let load_score := ((cpu_percent + memory_percent) / 2)%Q in
  modify (append_sample load_score);;
  self ← get_state;
  if Qlt_bool 30 (now - last_adjustment self)
  then _adjust_rate_limit;; modify (set_last_adjustment now)
  else ret tt.

(** A series of load reports [(cpu, memory, now)]. *)
Definition updates (inputs : list (Q * Q * Q)) : M t unit :=
  for_each inputs (fun '(cpu, mem, now) => update_system_load cpu mem now).

End Adaptive.

End AdaptiveRateLimiter.

(** ** [rate_limit_middleware] and the limiters it consults *)

Module Middleware.

Record Request : Type := mk_request {
  url_path : string;
  request_headers : gmap string string;
  client_host : option string
}.

Record Response : Type := mk_response {
  status_code : Z;
  content : string;
  headers : gmap string string
}.

(** [response.headers[name] = value] *)
Definition set_header (name value : string) (response : Response) : Response :=
  mk_response (status_code response) (content response)
              (<[name := value]> (headers response)).

(** [s.split(",")[0]] *)
Fixpoint before_comma (s : string) : string :=
  match s with
  | EmptyString => EmptyString
  | String c rest =>
      if Ascii.eqb c ","%char then EmptyString else String c (before_comma rest)
  end.

(** [c.isspace()] for a character below 256. *)
Definition isspace (c : ascii) : bool :=
  let n := nat_of_ascii c in
  ((9 <=? n) && (n <=? 13) || (28 <=? n) && (n <=? 32) || (n =? 133) || (n =? 160))%nat.

Fixpoint lstrip (s : string) : string :=
  match s with
  | EmptyString => EmptyString
  | String c rest => if isspace c then lstrip rest else s
  end.

Definition string_rev (s : string) : string :=
  String.string_of_list_ascii (rev (String.list_ascii_of_string s)).

(** [s.strip()] *)
Definition strip (s : string) : string :=
  string_rev (lstrip (string_rev (lstrip s))).

(** [IPRateLimiter.get_identifier] *)
Definition get_identifier (request : Request) : string :=
  match request_headers request !! "X-Forwarded-For" with
  | Some (String c rest) => strip (before_comma (String c rest))
  | _ => default "unknown" (client_host request)
  end.

(** The module-level limiters [ip_rate_limiter] and [twilio_rate_limiter],
    together with the state [App] of the application behind the middleware. *)
Record globals (App : Type) : Type := mk_globals {
  ip_rate_limiter : RateLimiter.t;
  twilio_rate_limiter : RateLimiter.t;
  app : App
}.
Arguments mk_globals {App} _ _ _.
Arguments ip_rate_limiter {App} _.
Arguments twilio_rate_limiter {App} _.
Arguments app {App} _.

(** [IPRateLimiter(max_requests=100, window_seconds=60)] and
    [TwilioRateLimiter(max_requests=30, window_seconds=60)] *)
Definition initial_globals {App} (a : App) : globals App :=
  mk_globals (RateLimiter.init 100 60) (RateLimiter.init 30 60) a.

Inductive limiter_name : Type := ip | twilio.

Definition limiter_of {App} (name : limiter_name) (g : globals App) : RateLimiter.t :=
  match name with
  | ip => ip_rate_limiter g
  | twilio => twilio_rate_limiter g
  end.

Definition set_limiter {App} (name : limiter_name) (l : RateLimiter.t)
    (g : globals App) : globals App :=
  match name with
  | ip => mk_globals l (twilio_rate_limiter g) (app g)
  | twilio => mk_globals (ip_rate_limiter g) l (app g)
  end.

Definition set_app {App} (a : App) (g : globals App) : globals App :=
  mk_globals (ip_rate_limiter g) (twilio_rate_limiter g) a.

(** The limiter and the identifier chosen for a request. *)
Definition select (request : Request) : limiter_name * string :=
  if String.eqb (url_path request) "/receive-message"
  then (twilio, "twilio_webhook")
  else (ip, get_identifier request).

Section Middleware.

Context {App : Type}.
Variable fromtimestamp_isoformat : Z -> string.
(** [await call_next(request)] *)
Variable call_next : Request -> M App Response.

Definition rate_limit_middleware (request : Request) (now : Q)
    : M (globals App) Response :=
  try_except
    (let '(limiter, identifier) := select request in
     '(is_allowed, rate_info) ←
        zoom (limiter_of limiter) (set_limiter limiter)
             (RateLimiter.is_allowed fromtimestamp_isoformat identifier now);
     if negb is_allowed then
       log WARNING ("Rate limit exceeded for " +:+ identifier +:+ " on "
                    +:+ url_path request);;
       g ← get_state;
       mret (mk_response 429 "Rate limit exceeded"
               (<["Retry-After" :=
                    str_int (RateLimiter.window_seconds (limiter_of limiter g))]>
                (<["X-RateLimit-Reset" := str_int (RateLimiter.reset rate_info)]>
                 (<["X-RateLimit-Remaining" :=
                      str_int (RateLimiter.remaining rate_info)]>
                  (<["X-RateLimit-Limit" := str_int (RateLimiter.limit rate_info)]>
                   ∅)))))
     else
       response ← zoom app set_app (call_next request);
       mret (set_header "X-RateLimit-Reset" (str_int (RateLimiter.reset rate_info))
              (set_header "X-RateLimit-Remaining"
                 (str_int (RateLimiter.remaining rate_info))
                 (set_header "X-RateLimit-Limit"
                    (str_int (RateLimiter.limit rate_info)) response))))
    (fun e =>
       log ERROR ("Error in rate limiting middleware: " +:+ exn_str e);;
       zoom app set_app (call_next request)).

End Middleware.

End Middleware.

(** ** [class PersistentState] *)

Module PersistentState.

Section Store.

(** The values stored under the keys (JSON-representable Python values). *)
Context {Value : Type}.

(** What a file on disk holds: a JSON object that [json.load] parses back to
    the dict that was dumped, or bytes that [json.load] rejects (a truncated
    or otherwise damaged file). *)
Inductive file_content : Type :=
| Json (m : gmap string Value)
| Garbage.

(** How [open(path, 'w')] followed by [json.dump] goes this time: the file is
    written in full; [open] raises and the path is left as it was; or the
    dump raises after the file was created, leaving a partial file. *)
Inductive write_outcome : Type :=
| WriteOk
| OpenFails (e : exn)
| DumpFails (e : exn).

(** How [open(path, 'r')] goes this time on an existing file. *)
Inductive read_outcome : Type :=
| ReadOk
| ReadFails (e : exn).

(** How [os.rename(src, dst)] goes this time on an existing source: the
    operating system performs it, or refuses it (a directory that cannot be
    written, or a platform that does not replace an existing destination). *)
Inductive rename_outcome : Type :=
| RenameOk
| RenameFails (e : exn).

(** How the operating system answers one call of [save_state]: the rename of
    the state file to the backup path, the write, and the rename of the
    backup file back to the state path. *)
Record save_outcome : Type := mk_save_outcome {
  backup_rename : rename_outcome;
  write : write_outcome;
  restore_rename : rename_outcome
}.

(** A call in which the operating system performs every rename. *)
Definition renames_ok (o : write_outcome) : save_outcome :=
  mk_save_outcome RenameOk o RenameOk.

Record t : Type := mk {
  state_file : string;
  state : gmap string Value;
  files : gmap string file_content
}.

Definition set_state (m : gmap string Value) (self : t) : t :=
  mk (state_file self) m (files self).

Definition set_files (fs : gmap string file_content) (self : t) : t :=
  mk (state_file self) (state self) fs.

(** [f"{self.state_file}.backup"] *)
Definition backup_file (self : t) : string := state_file self +:+ ".backup".

(** [os.path.exists(path)] *)
Definition os_path_exists (path : string) : M t bool :=
  fun self => (Ok (bool_decide (is_Some (files self !! path))), self, []).

(** [os.rename(src, dst)]: raises when [src] is missing or when the
    operating system refuses the rename, leaving the files as they are;
    otherwise it replaces [dst]. *)
Definition os_rename (src dst : string) (r : rename_outcome) : M t unit :=
  fun self =>
    match files self !! src, r with
    | Some c, RenameOk =>
        (Ok tt, set_files (<[dst := c]> (delete src (files self))) self, [])
    | Some _, RenameFails e => (Raise e, self, [])
    | None, _ =>
        (Raise (Exception ("[Errno 2] No such file or directory: " +:+ src)),
         self, [])
    end.

(** [with open(path, 'w') as f: json.dump(m, f, indent=2)] *)
Definition write_json (path : string) (m : gmap string Value) (o : write_outcome)
    : M t unit :=
  fun self =>
    match o with
    | WriteOk => (Ok tt, set_files (<[path := Json m]> (files self)) self, [])
    | OpenFails e => (Raise e, self, [])
    | DumpFails e => (Raise e, set_files (<[path := Garbage]> (files self)) self, [])
    end.

(** [with open(path, 'r') as f: json.load(f)] *)
Definition read_json (path : string) (o : read_outcome) : M t (gmap string Value) :=
  fun self =>
    match o, files self !! path with
    | ReadFails e, _ => (Raise e, self, [])
    | ReadOk, None =>
        (Raise (Exception ("[Errno 2] No such file or directory: " +:+ path)),
         self, [])
    | ReadOk, Some Garbage => (Raise (Exception "Expecting value"), self, [])
    | ReadOk, Some (Json m) => (Ok m, self, [])
    end.

Definition load_state (o : read_outcome) : M t unit :=
  try_except
    (self ← get_state;
     present ← os_path_exists (state_file self);
     if (present : bool) then
       m ← read_json (state_file self) o;
       modify (set_state m);;
       log INFO ("Loaded persistent state: " +:+ str_int (Z.of_nat (size m))
                 +:+ " entries")
     else
       modify (set_state ∅);;
       log INFO "No persistent state file found, starting fresh")
    (fun e =>
       log ERROR ("Failed to load persistent state: " +:+ exn_str e);;
       modify (set_state ∅)).

(** The rename in the handler is not guarded: an exception that it raises
    leaves [save_state]. *)
Definition save_state (d : save_outcome) : M t unit :=
  try_except
    (self ← get_state;
     present ← os_path_exists (state_file self);
     (if (present : bool)
      then os_rename (state_file self) (backup_file self) (backup_rename d)
      else mret tt);;
     write_json (state_file self) (state self) (write d);;
     log DEBUG "Persistent state saved")
    (fun e =>
       log ERROR ("Failed to save persistent state: " +:+ exn_str e);;
       self ← get_state;
       present ← os_path_exists (backup_file self);
       if (present : bool)
       then os_rename (backup_file self) (state_file self) (restore_rename d)
       else mret tt).

(** [PersistentState(state_file)] on a disk holding [fs]. *)
Definition init (state_file : string) (fs : gmap string file_content)
    (o : read_outcome) : result unit * t * list log_record :=
  load_state o (mk state_file ∅ fs).

Definition set (key : string) (value : Value) (d : save_outcome) : M t unit :=
  self ← get_state;
  modify (set_state (<[key := value]> (state self)));;
  save_state d.

(** [self.state.get(key, default)] *)
Definition get (key : string) (default : Value) : M t Value :=
  self ← get_state;
  mret (match state self !! key with
        | Some v => v
        | None => default
        end).

Definition delete (key : string) (d : save_outcome) : M t unit :=
  self ← get_state;
  if bool_decide (is_Some (state self !! key)) then
    modify (set_state (base.delete key (state self)));;
    save_state d
  else mret tt.

Definition clear (d : save_outcome) : M t unit :=
  modify (set_state ∅);;
  save_state d.

End Store.

Arguments file_content : clear implicits.
Arguments t : clear implicits.

End PersistentState.

(** ** [class ServiceManager] *)

Module ServiceManager.

Section Manager.

(** The rest of the process that cleanup handlers, background tasks and the
    operating system act on: open files, the scheduler, the wall clock. *)
Context {W : Type}.

(** A cleanup handler: [handler.__name__],
    [asyncio.iscoroutinefunction(handler)] and the call [handler()]. *)
Record handler : Type := mk_handler {
  handler_name : string;
  iscoroutinefunction : bool;
  handler_call : M W unit
}.

(** How [await asyncio.wait_for(task, timeout=5.0)] ends for a task whose
    cancellation was requested. *)
Inductive wait_result : Type :=
| TaskReturned
| TaskCancelled
| TaskTimeout
| TaskFailed (e : exn).

(** An [asyncio.Task]: [task.get_name()], [task.done()], [task.cancel()] and
    the bounded wait for it. *)
Record task : Type := mk_task {
  task_name : string;
  task_done : W -> bool;
  task_cancel : W -> W;
  task_wait : W -> wait_result * W
}.

Record t : Type := mk {
  shutdown_event : bool;
  cleanup_handlers : list handler;
  background_tasks : list task;
  is_shutting_down : bool;
  startup_time : option string;
  state_file : string;
  world : W
}.

(** [ServiceManager()] *)
Definition init (w : W) : t := mk false [] [] false None "service_state.json" w.

Definition set_shutdown_event (b : bool) (self : t) : t :=
  mk b (cleanup_handlers self) (background_tasks self) (is_shutting_down self)
     (startup_time self) (state_file self) (world self).

Definition set_cleanup_handlers (hs : list handler) (self : t) : t :=
  mk (shutdown_event self) hs (background_tasks self) (is_shutting_down self)
     (startup_time self) (state_file self) (world self).

Definition set_background_tasks (ts : list task) (self : t) : t :=
  mk (shutdown_event self) (cleanup_handlers self) ts (is_shutting_down self)
     (startup_time self) (state_file self) (world self).

Definition set_is_shutting_down (b : bool) (self : t) : t :=
  mk (shutdown_event self) (cleanup_handlers self) (background_tasks self) b
     (startup_time self) (state_file self) (world self).

Definition set_world (w : W) (self : t) : t :=
  mk (shutdown_event self) (cleanup_handlers self) (background_tasks self)
     (is_shutting_down self) (startup_time self) (state_file self) w.

(** The dict written to the service-state file. *)
Record state_data : Type := mk_state_data {
  sd_state : string;
  sd_timestamp : string;
  sd_startup_time : option string;
  sd_pid : Z
}.

(** [datetime.now().isoformat()] *)
Variable now_isoformat : W -> string.
(** [os.getpid()] *)
Variable getpid : Z.
(** [with open(path, 'w') as f: json.dump(data, f, indent=2)] *)
Variable write_state_file : string -> state_data -> M W unit.

Definition add_cleanup_handler (h : handler) : M t unit :=
  self ← get_state;
  modify (set_cleanup_handlers (cleanup_handlers self ++ [h]));;
  log DEBUG ("Added cleanup handler: " +:+ handler_name h).

Definition add_background_task (tk : task) : M t unit :=
  self ← get_state;
  modify (set_background_tasks (background_tasks self ++ [tk]));;
  log DEBUG ("Registered background task: " +:+ task_name tk).

Definition _save_service_state (state : string) : M t unit :=
  try_except
    (self ← get_state;
     zoom world set_world
       (write_state_file (state_file self)
          {| sd_state := state;
             sd_timestamp := now_isoformat (world self);
             sd_startup_time := startup_time self;
             sd_pid := getpid |}))
    (fun e => log ERROR ("Failed to save service state: " +:+ exn_str e)).

(** The body of the loop of [_cancel_background_tasks]. *)
Definition cancel_task (tk : task) : M t unit :=
  self ← get_state;
  if negb (task_done tk (world self)) then
    modify (set_world (task_cancel tk (world self)));;
    self ← get_state;
    let '(r, w) := task_wait tk (world self) in
    modify (set_world w);;
    match r with
    | TaskReturned => mret tt
    | TaskCancelled | TaskTimeout =>
        log DEBUG ("Task " +:+ task_name tk +:+ " cancelled")
    | TaskFailed e =>
        log ERROR ("Error cancelling task " +:+ task_name tk +:+ ": "
                   +:+ exn_str e)
    end
  else mret tt.

Definition _cancel_background_tasks : M t unit :=
  self ← get_state;
  log INFO ("Cancelling " +:+ str_int (Z.of_nat (length (background_tasks self)))
            +:+ " background tasks...");;
  for_each (background_tasks self) cancel_task.

(** The body of the loop of [_run_cleanup_handlers]. *)
Definition run_handler (h : handler) : M t unit :=
  try_except
    ((if iscoroutinefunction h
      then zoom world set_world (handler_call h)
      else zoom world set_world (handler_call h));;
     log DEBUG ("Cleanup handler " +:+ handler_name h +:+ " completed"))
    (fun e =>
       log ERROR ("Error in cleanup handler " +:+ handler_name h +:+ ": "
                  +:+ exn_str e)).

Definition _run_cleanup_handlers : M t unit :=
  self ← get_state;
  log INFO ("Running " +:+ str_int (Z.of_nat (length (cleanup_handlers self)))
            +:+ " cleanup handlers...");;
  for_each (cleanup_handlers self) run_handler.

Definition shutdown_warning : log_record := (WARNING, "Shutdown already in progress").

Definition shutdown : M t unit :=
  self ← get_state;
  if is_shutting_down self then
    log WARNING "Shutdown already in progress"
  else
    modify (set_is_shutting_down true);;
    log INFO "Starting graceful shutdown...";;
    _save_service_state "shutting_down";;
    modify (set_shutdown_event true);;
    _cancel_background_tasks;;
    _run_cleanup_handlers;;
    _save_service_state "stopped";;
    log INFO "Graceful shutdown completed".

(** [is_running()] *)
Definition is_running (self : t) : bool :=
  negb (is_shutting_down self) && negb (shutdown_event self).

(** *** Concurrent calls of [shutdown]

    Coroutines of one event loop run one at a time and give up control only
    at an [await]. A call of [shutdown] is therefore cut into atomic pieces:
    the entry, from the test of [is_shutting_down] to the first [await], and
    then one piece per awaited step, with the two loops cut at every
    iteration. *)

(** From the call to the first [await]: [true] when the call goes on with
    the shutdown sequence. *)
Definition shutdown_entry : M t bool :=
  self ← get_state;
  if is_shutting_down self then
    log WARNING "Shutdown already in progress";; mret false
  else
    modify (set_is_shutting_down true);;
    log INFO "Starting graceful shutdown...";;
    mret true.

(** The pieces that follow the entry, for a manager in state [self]. *)
Definition shutdown_pieces (self : t) : list (M t unit) :=
  [_save_service_state "shutting_down";
   modify (set_shutdown_event true);;
   log INFO ("Cancelling " +:+ str_int (Z.of_nat (length (background_tasks self)))
             +:+ " background tasks...")]
  ++ map cancel_task (background_tasks self)
  ++ [log INFO ("Running " +:+ str_int (Z.of_nat (length (cleanup_handlers self)))
                +:+ " cleanup handlers...")]
  ++ map run_handler (cleanup_handlers self)
  ++ [_save_service_state "stopped";;
      log INFO "Graceful shutdown completed"].

(** A call of [shutdown]: not yet started, suspended at an [await] with the
    pieces left to run, returned, or ended by an exception. *)
Inductive coroutine : Type :=
| Pending
| Suspended (rest : list (M t unit))
| Returned
| Failed (e : exn).

Definition finished (c : coroutine) : bool :=
  match c with
  | Returned | Failed _ => true
  | _ => false
  end.

(** The event loop: the manager shared by all calls, the log written so far
    and the calls in flight. *)
Record loop : Type := mk_loop {
  shared : t;
  written : list log_record;
  calls : list coroutine
}.

(** [n] calls of [shutdown] are created on a manager in state [self]. *)
Definition spawn (n : nat) (self : t) : loop := mk_loop self [] (replicate n Pending).

Definition after_piece (rest : list (M t unit)) : coroutine :=
  match rest with
  | [] => Returned
  | _ :: _ => Suspended rest
  end.

(** The event loop resumes call [i] and runs it to its next [await];
    [pieces] is the cut of the shutdown sequence ([shutdown_pieces] for the
    source as written). *)
Definition resume (pieces : t -> list (M t unit)) (i : nat) (l : loop) : loop :=
  match calls l !! i with
  | Some Pending =>
      match shutdown_entry (shared l) with
      | (Ok true, s, out) =>
          mk_loop s (written l ++ out) (<[i := after_piece (pieces s)]> (calls l))
      | (Ok false, s, out) =>
          mk_loop s (written l ++ out) (<[i := Returned]> (calls l))
      | (Raise e, s, out) =>
          mk_loop s (written l ++ out) (<[i := Failed e]> (calls l))
      end
  | Some (Suspended (piece :: rest)) =>
      match piece (shared l) with
      | (Ok _, s, out) =>
          mk_loop s (written l ++ out) (<[i := after_piece rest]> (calls l))
      | (Raise e, s, out) =>
          mk_loop s (written l ++ out) (<[i := Failed e]> (calls l))
      end
  | Some (Suspended []) =>
      mk_loop (shared l) (written l) (<[i := Returned]> (calls l))
  | Some Returned | Some (Failed _) | None => l
  end.

(** The event loop resumes the calls in the order of [schedule]. *)
Definition run_schedule (pieces : t -> list (M t unit)) (schedule : list nat)
    (l : loop) : loop :=
  fold_left (fun l i => resume pieces i l) schedule l.

(** The pieces run one after the other, as a call that is never interleaved
    with another runs them. *)
Definition run_pieces (ps : list (M t unit)) : M t unit :=
  for_each ps (fun p => p).

(** *** Startup *)

(** The signals for which the handler is installed. *)
Inductive signal_name : Type := SIGTERM | SIGINT | SIGHUP.

(** [os.name] *)
Variable os_name : string.
(** [signal.signal(sig, self._signal_handler)] *)
Variable signal_signal : signal_name -> M W unit.

Definition set_startup_time (d : option string) (self : t) : t :=
  mk (shutdown_event self) (cleanup_handlers self) (background_tasks self)
     (is_shutting_down self) d (state_file self) (world self).

Definition _setup_signal_handlers : M t unit :=
  zoom world set_world
    (if negb (String.eqb os_name "nt") then
       signal_signal SIGTERM;;
       signal_signal SIGINT;;
       signal_signal SIGHUP
     else
       signal_signal SIGINT;;
       signal_signal SIGTERM).

(** [str(d)] for a datetime held as its [isoformat()]: the same text with a
    space in place of the ['T']; [str(None)] otherwise. *)
Fixpoint isoformat_space (iso : string) : string :=
  match iso with
  | EmptyString => EmptyString
  | String c rest =>
      String (if Ascii.eqb c "T" then " "%char else c) (isoformat_space rest)
  end.

Definition datetime_str (d : option string) : string :=
  match d with
  | Some iso => isoformat_space iso
  | None => "None"
  end.

Definition start : M t unit :=
  self ← get_state;
  modify (set_startup_time (Some (now_isoformat (world self))));;
  _setup_signal_handlers;;
  _save_service_state "starting";;
  self ← get_state;
  log INFO ("Service started at " +:+ datetime_str (startup_time self));;
  _save_service_state "running".

End Manager.

Arguments handler : clear implicits.
Arguments task : clear implicits.
Arguments t : clear implicits.
Arguments coroutine : clear implicits.
Arguments loop : clear implicits.

End ServiceManager.

(** ** [class HealthChecker] *)

Module HealthChecker.

Section Checker.

(** The rest of the process that the health checks inspect and act on. *)
Context {W : Type}.

(** A registered check: [asyncio.iscoroutinefunction(check_func)] and the call
    [check_func()], which returns a value of the given truthiness or raises. *)
Record check : Type := mk_check {
  check_iscoroutinefunction : bool;
  check_call : M W bool
}.

(** An entry of [results]. *)
Record check_result : Type := mk_check_result {
  status : string;
  error : option string;
  timestamp : string
}.

(** The dict that [run_health_checks] returns. *)
Record report : Type := mk_report {
  overall_status : string;
  report_timestamp : string;
  checks : gmap string check_result
}.

(** [self.health_checks] is a dict, which iterates in insertion order: a list
    of pairs in that order. *)
Record t : Type := mk {
  health_checks : list (string * check);
  last_health_check : option string;
  health_status : string;
  world : W
}.

(** [HealthChecker(service_manager)] *)
Definition init (w : W) : t := mk [] None "unknown" w.

Definition set_world (w : W) (self : t) : t :=
  mk (health_checks self) (last_health_check self) (health_status self) w.

(** [d[name] = f] on an insertion-ordered dict: a key already present keeps
    its place and gets the new value, a new key goes last. *)
Fixpoint dict_set (name : string) (f : check) (d : list (string * check))
    : list (string * check) :=
  match d with
  | [] => [(name, f)]
  | (k, g) :: rest =>
      if String.eqb k name then (k, f) :: rest else (k, g) :: dict_set name f rest
  end.

Definition register_health_check (name : string) (check_func : check) : M t unit :=
  self ← get_state;
  put_state (mk (dict_set name check_func (health_checks self))
                (last_health_check self) (health_status self) (world self));;
  log DEBUG ("Registered health check: " +:+ name).

(** [datetime.now().isoformat()] *)
Variable now_isoformat : W -> string.

(** The body of the loop of [run_health_checks], on the local variables
    [results] and [overall_healthy]. *)
Definition run_check (name : string) (check_func : check)
    (acc : gmap string check_result * bool)
    : M t (gmap string check_result * bool) :=
  let '(results, overall_healthy) := acc in
  try_except
    (result ← (if check_iscoroutinefunction check_func
               then zoom world set_world (check_call check_func)
               else zoom world set_world (check_call check_func));
     self ← get_state;
     let results :=
       <[name := {| status := if (result : bool) then "healthy" else "unhealthy";
                    error := None;
                    timestamp := now_isoformat (world self) |}]> results in
     mret (results, if (result : bool) then overall_healthy else false))
    (fun e =>
       self ← get_state;
       let results :=
         <[name := {| status := "error";
                      error := Some (exn_str e);
                      timestamp := now_isoformat (world self) |}]> results in
       log ERROR ("Health check " +:+ name +:+ " failed: " +:+ exn_str e);;
       mret (results, false)).

(** [for name, check_func in self.health_checks.items(): ...] *)
Fixpoint run_checks (cs : list (string * check))
    (acc : gmap string check_result * bool)
    : M t (gmap string check_result * bool) :=
  match cs with
  | [] => mret acc
  | (name, check_func) :: rest =>
      acc' ← run_check name check_func acc;
      run_checks rest acc'
  end.

Definition run_health_checks : M t report :=
  self ← get_state;
  '(results, overall_healthy) ← run_checks (health_checks self) (∅, true);
  self ← get_state;
  let health_status := if (overall_healthy : bool) then "healthy" else "unhealthy" in
  let last_health_check := now_isoformat (world self) in
  put_state (mk (health_checks self) (Some last_health_check) health_status
                (world self));;
  mret {| overall_status := health_status;
          report_timestamp := last_health_check;
          checks := results |}.

End Checker.

Arguments check : clear implicits.
Arguments t : clear implicits.

End HealthChecker.

(** ** [class SchedulerManager] *)

Module SchedulerManager.

Section Scheduler.

(** The scheduler object of the library ([BackgroundScheduler]), the
    arguments of [add_job] and the job object that it returns. *)
Context {Sched JobSpec Job : Type}.

(** The import of the library followed by [BackgroundScheduler()]. *)
Variable BackgroundScheduler : result Sched.
(** [scheduler.start()] *)
Variable scheduler_start : M Sched unit.
(** [scheduler.shutdown(wait=True)] *)
Variable scheduler_shutdown : M Sched unit.
(** [scheduler.add_job(func, trigger, **kwargs)] *)
Variable scheduler_add_job : JobSpec -> M Sched Job.

Record t : Type := mk {
  scheduler : option Sched;
  is_running : bool
}.

(** [SchedulerManager()] *)
Definition init : t := mk None false.

Definition set_scheduler (s : option Sched) (self : t) : t := mk s (is_running self).

Definition set_is_running (b : bool) (self : t) : t := mk (scheduler self) b.

(** A method call on [self.scheduler]; on [None] the attribute lookup
    raises. *)
Definition on_scheduler {A} (method : string) (m : M Sched A) : M t A :=
  fun self =>
    match scheduler self with
    | Some s =>
        let '(r, s', out) := m s in (r, set_scheduler (Some s') self, out)
    | None =>
        (Raise (Exception ("'NoneType' object has no attribute '" +:+ method
                           +:+ "'")),
         self, [])
    end.

Definition start : M t unit :=
  self ← get_state;
  match scheduler self with
  | None =>
      match BackgroundScheduler with
      | Ok s => modify (set_scheduler (Some s))
      | Raise e => raise e
      end
  | Some _ => mret tt
  end;;
  self ← get_state;
  if negb (is_running self) then
    on_scheduler "start" scheduler_start;;
    modify (set_is_running true);;
    log INFO "Background scheduler started"
  else mret tt.

(** A scheduler object is truthy, so [self.scheduler and self.is_running]
    tests that the scheduler was created and the flag is set. *)
Definition stop : M t unit :=
  self ← get_state;
  match scheduler self with
  | Some _ =>
      if is_running self then
        on_scheduler "shutdown" scheduler_shutdown;;
        modify (set_is_running false);;
        log INFO "Background scheduler stopped"
      else mret tt
  | None => mret tt
  end.

(** [add_job] returns the job, or [None] when no scheduler was created. *)
Definition add_job (spec : JobSpec) : M t (option Job) :=
  self ← get_state;
  match scheduler self with
  | Some _ =>
      job ← on_scheduler "add_job" (scheduler_add_job spec);
      mret (Some job)
  | None =>
      log ERROR "Scheduler not initialized";;
      mret None
  end.

(** [cleanup_scheduler()], on the global [scheduler_manager]. *)
Definition cleanup_scheduler : M t unit := stop.

End Scheduler.

Arguments t : clear implicits.

End SchedulerManager.

(** ** The cleanup handler and the health check of the persistent state *)

Module StateFile.

Section StateFile.

Import PersistentState.

Context {Value : Type}.

(** A Python string as a stored value. *)
Variable str_value : string -> Value.

(** [cleanup_resources()], on the global [persistent_state]. *)
Definition cleanup_resources (d : save_outcome) : M (PersistentState.t Value) unit :=
  try_except
    (save_state d;;
     log INFO "Resources cleaned up")
    (fun e => log ERROR ("Error cleaning up resources: " +:+ exn_str e)).

(** [check_state_file_accessible()], on the global [persistent_state]:
    [now] is [datetime.now().isoformat()], and [d1] and [d2] are the answers
    of the operating system to the two saves. *)
Definition check_state_file_accessible (now : string) (d1 d2 : save_outcome)
    : M (PersistentState.t Value) bool :=
  try_except
    (let test_key := "_health_check" in
     set test_key (str_value now) d1;;
     delete test_key d2;;
     mret true)
    (fun _ => mret false).

End StateFile.

End StateFile.

(** ** [create_rate_limited_endpoint] *)

Module RateLimitedEndpoint.

(** [fastapi.HTTPException] *)
Record HTTPException : Type := mk_http_exception {
  exc_status_code : Z;
  exc_detail : string;
  exc_headers : gmap string string
}.

Section Endpoint.

(** The application that the endpoint function acts on, and what the
    function returns. *)
Context {App A : Type}.

Variable fromtimestamp_isoformat : Z -> string.

(** The decorated function, applied to the request. *)
Variable func : Middleware.Request -> M App A.

(** What a decorated endpoint acts on: the limiter held by its closure, and
    the application. *)
Record t : Type := mk {
  limiter : RateLimiter.t;
  app : App
}.

Definition set_limiter (l : RateLimiter.t) (self : t) : t := mk l (app self).

Definition set_app (a : App) (self : t) : t := mk (limiter self) a.

(** [decorator(func)]: the limiter is created once, when the endpoint is
    decorated. *)
Definition decorator (max_requests window_seconds : Z) (a : App) : t :=
  mk (RateLimiter.init max_requests window_seconds) a.

(** [wrapper(request)]: [inl] is the [HTTPException] that the wrapper itself
    raises, [inr] the value that the endpoint function returns; an exception
    of the endpoint function propagates. *)
Definition wrapper (request : Middleware.Request) (now : Q)
    : M t (HTTPException + A) :=
  let identifier :=
    match Middleware.client_host request with
    | Some host => host
    | None => "unknown"
    end in
  '(is_allowed, rate_info) ←
    zoom limiter set_limiter
      (RateLimiter.is_allowed fromtimestamp_isoformat identifier now);
  if negb (is_allowed : bool) then
    mret (inl {| exc_status_code := 429;
                 exc_detail := "Rate limit exceeded";
                 exc_headers :=
                   {[ "X-RateLimit-Limit" := str_int (RateLimiter.limit rate_info);
                      "X-RateLimit-Remaining" :=
                        str_int (RateLimiter.remaining rate_info);
                      "X-RateLimit-Reset" := str_int (RateLimiter.reset rate_info) ]}
              |})
  else
    a ← zoom app set_app (func request);
    mret (inr a).

End Endpoint.

Arguments t : clear implicits.

End RateLimitedEndpoint.

(** ** [get_system_metrics] and [monitor_system_load] *)

Module SystemLoad.

(** How the import of [psutil] and the two readings go this time: the
    module is missing, the readings are returned, or a reading raises. *)
Inductive psutil : Type :=
| NotInstalled
| Reads (cpu_percent memory_percent : Q)
| Fails (e : exn).

Section Monitor.

Variable format_float : nat -> Q -> string.

Definition get_system_metrics {S} (p : psutil) : M S (Q * Q) :=
  match p with
  | Reads cpu_percent memory_percent => mret (cpu_percent, memory_percent)
  | NotInstalled =>
      log WARNING "psutil not available, using dummy metrics";;
      mret (50%Q, 50%Q)
  | Fails e => raise e
  end.

(** The body of the loop of [monitor_system_load], on the global
    [adaptive_limiter]: it returns the number of seconds that the task then
    sleeps. *)
Definition monitor_iteration (p : psutil) (now : Q) : M AdaptiveRateLimiter.t Z :=
  try_except
    ('(cpu, memory) ← get_system_metrics p;
     AdaptiveRateLimiter.update_system_load format_float cpu memory now;;
     mret 30)
    (fun e =>
       log ERROR ("Error monitoring system load: " +:+ exn_str e);;
       mret 60).

(** The first iterations of the endless loop, one per observation: the
    pauses between them are returned in order. *)
Fixpoint monitor_system_load (observations : list (psutil * Q))
    : M AdaptiveRateLimiter.t (list Z) :=
  match observations with
  | [] => mret []
  | (p, now) :: rest =>
      pause ← monitor_iteration p now;
      pauses ← monitor_system_load rest;
      mret (pause :: pauses)
  end.

End Monitor.

End SystemLoad.

(** ** The [/health] endpoint of [src/main.py] *)

Module HealthEndpoint.

(** The [environment] entry of the response. *)
Record environment : Type := mk_environment {
  twilio_configured : bool;
  webhook_configured : bool;
  target_phone_configured : bool
}.

(** The dict that is serialised: the report of the health checker merged
    with the service information, or the error report. *)
Inductive body : Type :=
| Health (report : HealthChecker.report) (service version : string)
         (env : environment)
| Failure (overall_status error timestamp : string).

Record Response : Type := mk_response {
  content : string;
  media_type : string;
  status_code : Z
}.

Section Endpoint.

Context {W : Type}.

Variable now_isoformat : W -> string.

(** The values of the environment variables, read when the module is
    loaded. *)
Variable TWILIO_AUTH_TOKEN WEBHOOK_URL TARGET_PHONE_NUMBER : option string.

(** [json.dumps(response, indent=2)] *)
Variable json_dumps : body -> string.

(** [bool(value)] for an optional string. *)
Definition truthy (value : option string) : bool :=
  match value with
  | Some (String _ _) => true
  | _ => false
  end.

Definition health_check : M (HealthChecker.t W) Response :=
  try_except
    (health_status ← HealthChecker.run_health_checks now_isoformat;
     let service_info :=
       {| twilio_configured := truthy TWILIO_AUTH_TOKEN;
          webhook_configured := truthy WEBHOOK_URL;
          target_phone_configured := truthy TARGET_PHONE_NUMBER |} in
     let response := Health health_status "stock-tracker" "1.0.0" service_info in
     let status_code :=
       if String.eqb (HealthChecker.overall_status health_status) "healthy"
       then 200 else 503 in
     mret {| content := json_dumps response;
             media_type := "application/json";
             status_code := status_code |})
    (fun e =>
       log ERROR ("Health check failed: " +:+ exn_str e);;
       self ← get_state;
       let error_response :=
         Failure "error" (exn_str e) (now_isoformat (HealthChecker.world self)) in
       mret {| content := json_dumps error_response;
               media_type := "application/json";
               status_code := 503 |}).

End Endpoint.

End HealthEndpoint.

(** ** [monitor_service_health] *)

Module HealthMonitor.

(** How the observed part of the run of the task ends: the service was found
    not running, the task was cancelled during a pause, or the task is still
    in its loop. *)
Inductive ending : Type := Exited | Cancelled | Looping.

Section Monitor.

Context {W : Type}.

(** The module-level [health_checker], which holds the [service_manager]. *)
Definition process : Type := HealthChecker.t (ServiceManager.t W).

(** [datetime.now().isoformat()] *)
Variable now_isoformat : ServiceManager.t W -> string.

(** [await asyncio.sleep(60)]: during the pause the other coroutines act on
    the process, or the task is cancelled ([None]); [true] is returned when
    the task was cancelled. *)
Definition asyncio_sleep (pause : process -> option process) : M process bool :=
  fun p =>
    match pause p with
    | Some p' => (Ok false, p', [])
    | None => (Ok true, p, [])
    end.

(** The body of the loop. *)
Definition monitor_iteration (pause : process -> option process) : M process bool :=
  try_except
    (health_status ← HealthChecker.run_health_checks now_isoformat;
     (if String.eqb (HealthChecker.overall_status health_status) "unhealthy"
      then log WARNING "Service health check failed"
      else mret tt);;
     asyncio_sleep pause)
    (fun e =>
       log ERROR ("Error in health monitoring: " +:+ exn_str e);;
       asyncio_sleep pause).

(** The loop, observed for as many iterations as there are pauses. *)
Fixpoint monitor_service_health (pauses : list (process -> option process))
    : M process ending :=
  p ← get_state;
  if ServiceManager.is_running (HealthChecker.world p) then
    match pauses with
    | [] => mret Looping
    | pause :: rest =>
        cancelled ← monitor_iteration pause;
        if (cancelled : bool) then mret Cancelled
        else monitor_service_health rest
    end
  else mret Exited.

End Monitor.

Arguments process : clear implicits.

End HealthMonitor.

(** ** [lifespan] *)

Module Lifespan.

Section Lifespan.

(** The values of the persistent state, the scheduler of the library, and
    the operating system: the clock, the signal table, the file of the
    service state and the condition of the disk. *)
Context {Value Sched OS : Type}.

Variable BackgroundScheduler : result Sched.
Variable scheduler_start : M Sched unit.
Variable scheduler_shutdown : M Sched unit.
Variable str_value : string -> Value.
(** [datetime.now().isoformat()] *)
Variable clock : OS -> string.
Variable getpid : Z.
(** [with open(path, 'w') as f: json.dump(data, f, indent=2)] for the file of
    the service state. *)
Variable write_file : string -> ServiceManager.state_data -> M OS unit.
Variable os_name : string.
(** [signal.signal(sig, handler)] *)
Variable install : ServiceManager.signal_name -> M OS unit.
(** How the operating system answers the next save of the persistent
    state. *)
Variable next_write : OS -> PersistentState.save_outcome * OS.

(** The module-level instances [persistent_state] and [scheduler_manager],
    and the operating system. *)
Record globals : Type := mk_globals {
  persistent_state : PersistentState.t Value;
  scheduler_manager : SchedulerManager.t Sched;
  os : OS
}.

Definition set_persistent_state (p : PersistentState.t Value) (g : globals)
    : globals :=
  mk_globals p (scheduler_manager g) (os g).

Definition set_scheduler_manager (s : SchedulerManager.t Sched) (g : globals)
    : globals :=
  mk_globals (persistent_state g) s (os g).

Definition set_os (o : OS) (g : globals) : globals :=
  mk_globals (persistent_state g) (scheduler_manager g) o.

Definition on_os {A} (m : M OS A) : M globals A := zoom os set_os m.

Definition on_persistent_state {A} (m : M (PersistentState.t Value) A)
    : M globals A :=
  zoom persistent_state set_persistent_state m.

Definition on_scheduler_manager {A} (m : M (SchedulerManager.t Sched) A)
    : M globals A :=
  zoom scheduler_manager set_scheduler_manager m.

(** The answer of the operating system to the save that comes next. *)
Definition draw : M globals PersistentState.save_outcome :=
  fun g => let '(o, os') := next_write (os g) in (Ok o, set_os os' g, []).

(** The module-level [service_manager], which holds the globals as its
    world, and the module-level [health_checker], which holds the service
    manager. *)
Definition manager : Type := ServiceManager.t globals.

Definition process : Type := HealthChecker.t manager.

Definition on_globals {A} (m : M globals A) : M manager A :=
  zoom ServiceManager.world ServiceManager.set_world m.

Definition on_service_manager {A} (m : M manager A) : M process A :=
  zoom HealthChecker.world HealthChecker.set_world m.

Definition now_isoformat (g : globals) : string := clock (os g).

(** [service_manager.start()] and [service_manager.shutdown()] *)
Definition service_start : M manager unit :=
  ServiceManager.start now_isoformat getpid
    (fun path data => on_os (write_file path data))
    os_name (fun sig => on_os (install sig)).

Definition service_shutdown : M manager unit :=
  ServiceManager.shutdown now_isoformat getpid
    (fun path data => on_os (write_file path data)).

(** The two cleanup handlers, as registered. *)
Definition cleanup_scheduler : ServiceManager.handler globals :=
  ServiceManager.mk_handler "cleanup_scheduler" false
    (on_scheduler_manager (SchedulerManager.cleanup_scheduler scheduler_shutdown)).

Definition cleanup_resources : ServiceManager.handler globals :=
  ServiceManager.mk_handler "cleanup_resources" false
    (o ← draw;
     on_persistent_state (StateFile.cleanup_resources o)).

(** The two health checks, as registered: [lambda: scheduler_manager.is_running]
    and [check_state_file_accessible]. *)
Definition scheduler_check : HealthChecker.check manager :=
  HealthChecker.mk_check false
    (on_globals
       (g ← get_state;
        mret (SchedulerManager.is_running (scheduler_manager g)))).

Definition state_file_check : HealthChecker.check manager :=
  HealthChecker.mk_check false
    (on_globals
       (g ← get_state;
        o1 ← draw;
        o2 ← draw;
        on_persistent_state
          (StateFile.check_state_file_accessible str_value (now_isoformat g) o1 o2))).

(** [lifespan(app)] up to its [yield]. *)
Definition lifespan_enter : M process unit :=
  log INFO "Starting application...";;
  on_service_manager service_start;;
  on_service_manager (ServiceManager.add_cleanup_handler cleanup_scheduler);;
  on_service_manager (ServiceManager.add_cleanup_handler cleanup_resources);;
  on_service_manager
    (on_globals
       (on_scheduler_manager
          (SchedulerManager.start BackgroundScheduler scheduler_start)));;
  HealthChecker.register_health_check "scheduler" scheduler_check;;
  HealthChecker.register_health_check "state_file" state_file_check.

(** [lifespan(app)] after its [yield]. *)
Definition lifespan_exit : M process unit :=
  log INFO "Shutting down application...";;
  on_service_manager service_shutdown.

End Lifespan.

Arguments globals : clear implicits.
Arguments manager : clear implicits.
Arguments process : clear implicits.

End Lifespan.

(** * Properties *)

(** ** Comparisons and truncation on floats *)

Lemma Qlt_bool_iff (x y : Q) : Qlt_bool x y = true <-> (x < y)%Q.
Proof.
  unfold Qlt_bool. rewrite negb_true_iff. split.
  - intros H. apply Qnot_le_lt. intros Hle.
    apply Qle_bool_iff in Hle. congruence.
  - intros H. destruct (Qle_bool y x) eqn:E; [|reflexivity].
    apply Qle_bool_iff in E. exfalso. apply (Qlt_not_le _ _ H). exact E.
Qed.

Lemma Qlt_bool_false_iff (x y : Q) : Qlt_bool x y = false <-> (y <= x)%Q.
Proof.
  unfold Qlt_bool. rewrite negb_false_iff. apply Qle_bool_iff.
Qed.

Lemma Qle_bool_false_iff (x y : Q) : Qle_bool x y = false <-> (y < x)%Q.
Proof.
  rewrite <- Qlt_bool_iff. unfold Qlt_bool. now rewrite negb_true_iff.
Qed.

Lemma py_int_inject_Z (z : Z) : py_int (inject_Z z) = z.
Proof.
  unfold py_int. destruct (Qle_bool 0 (inject_Z z)).
  - apply Qfloor_Z.
  - apply Qceiling_Z.
Qed.

(** ** Running computations step by step *)

Section Runs.

Context {S A B : Type}.

Lemma run_bind_Ok (m : M S A) (k : A -> M S B) s a s1 l1 r s2 l2 :
  m s = (Ok a, s1, l1) -> k a s1 = (r, s2, l2) ->
  bind m k s = (r, s2, l1 ++ l2).
Proof. intros H1 H2. unfold bind. now rewrite H1, H2. Qed.

Lemma run_bind_Raise (m : M S A) (k : A -> M S B) s e s1 l1 :
  m s = (Raise e, s1, l1) -> bind m k s = (Raise e, s1, l1).
Proof. intros H1. unfold bind. now rewrite H1. Qed.

Lemma run_try_Ok (m : M S A) (h : exn -> M S A) s a s1 l1 :
  m s = (Ok a, s1, l1) -> try_except m h s = (Ok a, s1, l1).
Proof. intros H1. unfold try_except. now rewrite H1. Qed.

Lemma run_try_Raise (m : M S A) (h : exn -> M S A) s e s1 l1 r s2 l2 :
  m s = (Raise e, s1, l1) -> h e s1 = (r, s2, l2) ->
  try_except m h s = (r, s2, l1 ++ l2).
Proof. intros H1 H2. unfold try_except. now rewrite H1, H2. Qed.

End Runs.

(** One step of a run: the computation at the head returns, or raises. *)
Ltac run_ok := unfold mbind, M_bind; eapply run_bind_Ok.
Ltac run_raise := unfold mbind, M_bind; eapply run_bind_Raise.

Lemma map_length_seq_const {A} (l : list A) :
  map (fun _ : nat => false) (seq 0 (length l)) = map (fun _ : A => false) l.
Proof.
  generalize 0%nat. induction l as [|x l IH]; intros n; [reflexivity|].
  simpl. f_equal. apply IH.
Qed.

(** ** The sliding window of [RateLimiter] *)

Section RateLimiterFacts.

Import RateLimiter.

Variable fromtimestamp_isoformat : Z -> string.

(** Insertion order is time order. *)
Definition time_ordered (d : list Q) : Prop := StronglySorted Qle d.

(** What the loop pops is a prefix of instants at or before the threshold. *)
Lemma evict_split (threshold : Q) (d : list Q) :
  exists expired,
    d = expired ++ evict threshold d /\
    Forall (fun t => (t <= threshold)%Q) expired.
Proof.
  induction d as [|t0 rest IH]; simpl.
  - exists []. split; [reflexivity | constructor].
  - destruct (Qle_bool t0 threshold) eqn:E.
    + destruct IH as (expired & Heq & Hall).
      exists (t0 :: expired). split.
      * simpl. congruence.
      * constructor; [now apply Qle_bool_iff | exact Hall].
    + exists []. split; [reflexivity | constructor].
Qed.

(** The loop stops at an instant inside the window. *)
Lemma evict_head (threshold : Q) (d : list Q) (t0 : Q) (rest : list Q) :
  evict threshold d = t0 :: rest -> (threshold < t0)%Q.
Proof.
  induction d as [|t1 d IH]; simpl; [discriminate|].
  destruct (Qle_bool t1 threshold) eqn:E; [exact IH|].
  intros [= -> ->]. now apply Qle_bool_false_iff.
Qed.

Lemma evict_keeps_all (threshold : Q) (d : list Q) (t0 : Q) (rest : list Q) :
  d = t0 :: rest -> (threshold < t0)%Q -> evict threshold d = d.
Proof.
  intros -> H. simpl. apply Qle_bool_false_iff in H. now rewrite H.
Qed.

Lemma evict_time_ordered (threshold : Q) (d : list Q) :
  time_ordered d -> time_ordered (evict threshold d).
Proof.
  induction 1 as [|t0 rest Hs IH Hall]; simpl; [constructor|].
  destruct (Qle_bool t0 threshold); [exact IH | now constructor].
Qed.

(** In a time-ordered deque everything that is kept lies inside the window. *)
Lemma evict_kept_in_window (threshold : Q) (d : list Q) :
  time_ordered d -> Forall (fun t => (threshold < t)%Q) (evict threshold d).
Proof.
  intros Hs. apply (evict_time_ordered threshold) in Hs.
  destruct (evict threshold d) as [|t0 rest] eqn:E; [constructor|].
  apply evict_head in E.
  inversion Hs as [|? ? Hrest Hall]; subst.
  constructor; [exact E|].
  eapply Forall_impl; [exact Hall|].
  intros t Ht. simpl in Ht. eapply Qlt_le_trans; eauto.
Qed.

(** In a time-ordered deque the loop keeps exactly the instants after the
    threshold. *)
Lemma evict_filter (threshold : Q) (d : list Q) :
  time_ordered d ->
  evict threshold d = List.filter (fun t => Qlt_bool threshold t) d.
Proof.
  induction 1 as [|t0 rest Hs IH Hall]; simpl; [reflexivity|].
  unfold Qlt_bool at 1. destruct (Qle_bool t0 threshold) eqn:E; simpl.
  - exact IH.
  - f_equal. symmetry. apply forallb_filter_id.
    apply forallb_forall. intros t Hin.
    apply Qlt_bool_iff. apply Qle_bool_false_iff in E.
    rewrite Forall_forall in Hall. eapply Qlt_le_trans; [exact E|].
    apply Hall. now apply list_elem_of_In.
Qed.

(** One call, spelled out. *)
Lemma is_allowed_unfold (identifier : string) (now : Q) (self : t) :
  let kept := evict (now - inject_Z (window_seconds self)) (deque_of self identifier) in
  let count := Z.of_nat (length kept) in
  let allowed := count <? max_requests self in
  let d' := if allowed then kept ++ [now] else kept in
  exists info out,
    is_allowed fromtimestamp_isoformat identifier now self
    = (Ok (allowed, info),
       mk (max_requests self) (window_seconds self)
          (<[identifier := d']> (requests self)),
       out) /\
    limit info = max_requests self /\
    remaining info = Z.max 0 (max_requests self - count - (if allowed then 1 else 0)) /\
    reset info = match d' with
                 | [] => py_int now
                 | _ :: _ => py_int (now + inject_Z (window_seconds self))
                 end.
Proof.
  intros kept count allowed d'. unfold is_allowed.
  fold kept. fold count. fold allowed. fold d'.
  eexists _, _. split; [reflexivity|]. simpl. auto.
Qed.

Lemma decisions_all_rejected (identifier : string) (nows : list Q) :
  forall self : t,
    max_requests self <= 0 ->
    fst (check_all fromtimestamp_isoformat identifier nows self)
    = map (fun _ => false) nows.
Proof.
  induction nows as [|now rest IH]; intros self Hmax; [reflexivity|].
  cbn [check_all].
  destruct (is_allowed_unfold identifier now self) as (info & out & -> & _).
  cbn beta iota zeta.
  match goal with
  | |- context [check_all _ _ _ ?s1] =>
      specialize (IH s1 Hmax);
      destruct (check_all fromtimestamp_isoformat identifier rest s1) as [ds s2]
  end.
  simpl in *. f_equal; [|exact IH].
  apply Z.ltb_ge. lia.
Qed.

(** While the oldest retained instant stays inside the window nothing is
    evicted, and check number [i] (from 0) is admitted iff fewer than
    [max_requests] instants are retained before it. *)
Lemma decisions_unexpired (identifier : string) (nows : list Q) :
  forall (self : t) (t0 : Q) (rest : list Q),
    requests self !! identifier = Some (t0 :: rest) ->
    Forall (fun now => (now - inject_Z (window_seconds self) < t0)%Q) nows ->
    fst (check_all fromtimestamp_isoformat identifier nows self)
    = map (fun i => Z.of_nat (length (t0 :: rest) + i) <? max_requests self)
          (seq 0 (length nows)).
Proof.
  induction nows as [|now nows IH]; intros self t0 rest Hd Hall; [reflexivity|].
  inversion Hall as [|? ? Hnow Hall']; subst.
  cbn [check_all].
  destruct (is_allowed_unfold identifier now self) as (info & out & -> & _).
  unfold deque_of. rewrite Hd. cbn [default from_option id].
  rewrite (evict_keeps_all _ (t0 :: rest) t0 rest eq_refl Hnow).
  cbn beta iota zeta.
  set (allowed := Z.of_nat (length (t0 :: rest)) <? max_requests self).
  set (self1 := mk _ _ _).
  assert (Hd1 : requests self1 !! identifier
                = Some (t0 :: (if allowed then rest ++ [now] else rest))).
  { unfold self1. cbn [requests]. rewrite lookup_insert_eq.
    destruct allowed; reflexivity. }
  specialize (IH self1 t0 _ Hd1 Hall').
  destruct (check_all fromtimestamp_isoformat identifier nows self1) as [ds s2].
  cbn [fst] in *. cbn [length seq map]. f_equal.
  - unfold allowed. cbn [length]. f_equal. lia.
  - rewrite IH. rewrite <- seq_shift, map_map.
    apply map_ext. intros i. cbn [max_requests self1].
    unfold allowed. cbn [length].
    destruct (Z.ltb_spec (Z.of_nat (S (length rest))) (max_requests self)).
    + rewrite length_app. cbn [length]. f_equal. lia.
    + transitivity false; [apply Z.ltb_ge; lia | symmetry; apply Z.ltb_ge; lia].
Qed.

(** From an empty window: check number [i] (from 0) is admitted iff
    [i < max_requests], as long as the first instant has not expired. *)
Lemma decisions_from_empty (identifier : string) (nows : list Q) (self : t) :
  deque_of self identifier = [] ->
  (forall first, head nows = Some first ->
     Forall (fun now => (now - inject_Z (window_seconds self) < first)%Q) nows) ->
  fst (check_all fromtimestamp_isoformat identifier nows self)
  = map (fun i => Z.of_nat i <? max_requests self) (seq 0 (length nows)).
Proof.
  intros Hempty Hall.
  destruct (Z.le_gt_cases (max_requests self) 0) as [Hmax|Hmax].
  - rewrite decisions_all_rejected by exact Hmax.
    rewrite <- (map_length_seq_const nows).
    apply map_ext. intros i. symmetry. apply Z.ltb_ge. lia.
  - destruct nows as [|now nows]; [reflexivity|].
    specialize (Hall now eq_refl).
    inversion Hall as [|? ? Hnow Hall']; subst.
    cbn [check_all].
    destruct (is_allowed_unfold identifier now self) as (info & out & -> & _).
    rewrite Hempty. cbn [evict length]. cbn beta iota zeta.
    assert (Hlt : (Z.of_nat 0 <? max_requests self) = true)
      by (apply Z.ltb_lt; lia).
    rewrite Hlt. cbn [app].
    set (self1 := mk _ _ _).
    assert (Hd1 : requests self1 !! identifier = Some [now])
      by (unfold self1; cbn [requests]; apply lookup_insert_eq).
    pose proof (decisions_unexpired identifier nows self1 now [] Hd1 Hall') as IH.
    destruct (check_all fromtimestamp_isoformat identifier nows self1) as [ds s2].
    cbn [fst] in *. cbn [length seq map]. f_equal.
    + symmetry. exact Hlt.
    + rewrite IH. rewrite <- seq_shift, map_map.
      apply map_ext. intros i. cbn [length max_requests self1]. f_equal; lia.
Qed.

(** The reset instant as the specification words it: [now + window_seconds]. *)
Definition spec_reset (now : Q) (window_seconds : Z) : Q :=
  (now + inject_Z window_seconds)%Q.

(** Under a clock that does not go back, a call keeps the deque in time
    order. *)
Lemma is_allowed_time_ordered (identifier : string) (now : Q) (self : t) :
  time_ordered (deque_of self identifier) ->
  Forall (fun t => (t <= now)%Q) (deque_of self identifier) ->
  time_ordered
    (deque_of (state_of (is_allowed fromtimestamp_isoformat identifier now self))
              identifier).
Proof.
  intros Hs Hle.
  destruct (is_allowed_unfold identifier now self) as (info & out & -> & _).
  unfold state_of, deque_of at 1. cbn [fst snd requests].
  rewrite lookup_insert_eq. cbn [default from_option id].
  set (th := (now - inject_Z (window_seconds self))%Q).
  pose proof (evict_time_ordered th _ Hs) as Hk.
  destruct (evict_split th (deque_of self identifier)) as (expired & Heq & _).
  assert (Hkle : Forall (fun t => (t <= now)%Q) (evict th (deque_of self identifier))).
  { rewrite Heq in Hle. apply Forall_app in Hle. tauto. }
  destruct (_ <? _); [|exact Hk].
  revert Hk Hkle. generalize (evict th (deque_of self identifier)).
  induction l as [|t0 l IH]; intros Hk Hkle; simpl.
  - repeat constructor.
  - inversion Hk; subst. inversion Hkle; subst.
    constructor; [now apply IH|].
    apply Forall_app. split; [assumption | now repeat constructor].
Qed.

(** C1 (as amended). [is_allowed] pops from the front of the identifier's
    deque every instant [t <= now - window_seconds] and stops at the first
    instant inside the window, admits iff the number of retained instants is
    strictly below [max_requests], appends [now] exactly when it admits, leaves
    the other identifiers alone, and returns [limit = max_requests],
    [remaining = max(0, limit - count - (1 if admitted))] and
    [reset = int(now + window_seconds)] when the deque is not empty after the
    call (always so when [max_requests >= 1]), [int(now)] when it is empty.
    In a time-ordered deque the retained instants are exactly those after
    [now - window_seconds], so an instant at or past the end of its window no
    longer counts. From an empty window, and as long as the first instant has
    not expired, check number [i] (from 0) is admitted iff [i < max_requests]:
    the limit-th check is admitted and the next one rejected. *)
Theorem is_allowed_sliding_window
    (identifier : string) (now : Q) (self : t) (nows : list Q) :
  let window := inject_Z (window_seconds self) in
  let d := deque_of self identifier in
  let kept := evict (now - window) d in
  let count := Z.of_nat (length kept) in
  (exists allowed info self' out,
     is_allowed fromtimestamp_isoformat identifier now self
     = (Ok (allowed, info), self', out) /\
     (exists expired,
        d = expired ++ kept /\ Forall (fun t => (t <= now - window)%Q) expired) /\
     (forall t0, head kept = Some t0 -> (now - window < t0)%Q) /\
     (allowed = true <-> count < max_requests self) /\
     deque_of self' identifier = (if allowed then kept ++ [now] else kept) /\
     (forall other, other <> identifier ->
        requests self' !! other = requests self !! other) /\
     max_requests self' = max_requests self /\
     window_seconds self' = window_seconds self /\
     limit info = max_requests self /\
     remaining info
     = Z.max 0 (max_requests self - count - (if allowed then 1 else 0)) /\
     reset info = match deque_of self' identifier with
                  | [] => py_int now
                  | _ :: _ => py_int (now + window)
                  end /\
     (0 < max_requests self -> reset info = py_int (now + window))) /\
  (time_ordered d ->
     kept = List.filter (fun t => Qlt_bool (now - window) t) d) /\
  (d = [] ->
   (forall first, head nows = Some first ->
      Forall (fun t => (t - window < first)%Q) nows) ->
   fst (check_all fromtimestamp_isoformat identifier nows self)
   = map (fun i => Z.of_nat i <? max_requests self) (seq 0 (length nows))).
Proof.
  intros window d kept count. split; [|split].
  - destruct (is_allowed_unfold identifier now self)
      as (info & out & Hrun & Hlimit & Hremaining & Hreset).
    fold window d kept count in Hrun, Hremaining, Hreset.
    set (allowed := count <? max_requests self) in *.
    eexists allowed, info, _, out. split; [exact Hrun|].
    assert (Hd' : deque_of
                    (mk (max_requests self) (window_seconds self)
                        (<[identifier := if allowed then kept ++ [now] else kept]>
                           (requests self)))
                    identifier
                  = (if allowed then kept ++ [now] else kept)).
    { unfold deque_of. cbn [requests]. now rewrite lookup_insert_eq. }
    repeat split.
    + exact (evict_split (now - window) d).
    + intros t0 Hhead. destruct kept as [|t1 rest] eqn:E; [discriminate|].
      injection Hhead as ->. exact (evict_head _ _ _ _ E).
    + unfold allowed. apply Z.ltb_lt.
    + unfold allowed. apply Z.ltb_lt.
    + exact Hd'.
    + intros other Hne. cbn [requests]. now rewrite lookup_insert_ne.
    + exact Hlimit.
    + exact Hremaining.
    + rewrite Hd'. exact Hreset.
    + intros Hpos. rewrite Hreset.
      destruct allowed eqn:Ha.
      * destruct kept; reflexivity.
      * destruct kept as [|t1 rest] eqn:E; [|reflexivity].
        unfold allowed in Ha. apply Z.ltb_ge in Ha.
        unfold count in Ha. cbn [length] in Ha. lia.
  - intros Hs. exact (evict_filter _ _ Hs).
  - intros Hempty Hall. now apply decisions_from_empty.
Qed.

End RateLimiterFacts.

(** The end-to-end scenario of the specification: limit 5, window 60 s; five
    checks are admitted, the sixth is rejected. *)
Lemma is_allowed_sliding_window_witness :
  fst (RateLimiter.check_all (fun _ => "") "A" [0; 1; 2; 3; 4; 5]%Q
         (RateLimiter.init 5 60))
  = [true; true; true; true; true; false].
Proof.
  destruct (is_allowed_sliding_window (fun _ => "") "A" 0%Q
              (RateLimiter.init 5 60) [0; 1; 2; 3; 4; 5]%Q) as (_ & _ & H).
  rewrite H.
  - reflexivity.
  - reflexivity.
  - intros first [= <-]. repeat constructor.
Defined.

(** C1 (as stated) fails on the reset instant: a limiter with
    [max_requests = 0] rejects the first check of an identifier, its deque
    stays empty, and the reset returned is [int(now)], not
    [now + window_seconds]. *)
Lemma is_allowed_reset_counterexample :
  match RateLimiter.is_allowed (fun _ => "") "A" 100%Q (RateLimiter.init 0 60) with
  | (Ok (allowed, info), self', _) =>
      allowed = false /\
      RateLimiter.deque_of self' "A" = [] /\
      RateLimiter.reset info = 100 /\
      ~ (inject_Z (RateLimiter.reset info) == spec_reset 100 60)%Q
  | _ => False
  end.
Proof.
  vm_compute. repeat split. discriminate.
Qed.

(** The rest of the end-to-end scenario: the sixth check is rejected with
    [remaining = 0], and a seventh check 61 seconds later is admitted. *)
Example sixth_check_rejected :
  match RateLimiter.is_allowed (fun _ => "") "A" 5%Q
          (snd (RateLimiter.check_all (fun _ => "") "A" [0; 1; 2; 3; 4]%Q
                  (RateLimiter.init 5 60))) with
  | (Ok (allowed, info), _, _) =>
      allowed = false /\ RateLimiter.remaining info = 0 /\
      RateLimiter.reset info = 65
  | _ => False
  end.
Proof. vm_compute. repeat split. Qed.

Example seventh_check_admitted :
  fst (RateLimiter.check_all (fun _ => "") "A" [0; 1; 2; 3; 4; 5; 66]%Q
         (RateLimiter.init 5 60))
  = [true; true; true; true; true; false; true].
Proof. reflexivity. Qed.

(** ** The adaptive multiplier *)

Section AdaptiveFacts.

Import AdaptiveRateLimiter.

Variable format_float : nat -> Q -> string.

(** The interval that the specification gives for the multiplier. *)
Definition multiplier_in_range (m : Q) : Prop := ((1 # 2) <= m /\ m <= 2)%Q.

Lemma py_max_cases (a b : Q) :
  ((a < b)%Q /\ py_max a b = b) \/ ((b <= a)%Q /\ py_max a b = a).
Proof.
  unfold py_max. destruct (Qlt_bool a b) eqn:E.
  - left. split; [now apply Qlt_bool_iff | reflexivity].
  - right. split; [now apply Qlt_bool_false_iff | reflexivity].
Qed.

Lemma py_min_cases (a b : Q) :
  ((b < a)%Q /\ py_min a b = b) \/ ((a <= b)%Q /\ py_min a b = a).
Proof.
  unfold py_min. destruct (Qlt_bool b a) eqn:E.
  - left. split; [now apply Qlt_bool_iff | reflexivity].
  - right. split; [now apply Qlt_bool_false_iff | reflexivity].
Qed.

(** Either branch of the adjustment keeps the multiplier in its interval. *)
Lemma adjusted_multiplier_in_range (avg_load m : Q) :
  multiplier_in_range m -> multiplier_in_range (adjusted_multiplier avg_load m).
Proof.
  unfold multiplier_in_range, adjusted_multiplier. intros [Hlo Hhi].
  destruct (Qlt_bool 80 avg_load).
  - destruct (py_max_cases (1 # 2) (m * (4 # 5))) as [[H ->]|[H ->]]; lra.
  - destruct (Qlt_bool avg_load 40); [|lra].
    destruct (py_min_cases 2 (m * (11 # 10))) as [[H ->]|[H ->]]; lra.
Qed.

Lemma _adjust_rate_limit_unfold (self : t) :
  load_samples self <> [] ->
  exists out,
    _adjust_rate_limit format_float self
    = (Ok tt,
       mk (base_limit self) (window_seconds self)
          (adjusted_multiplier (mean (load_samples self)) (current_multiplier self))
          (load_samples self) (last_adjustment self)
          (RateLimiter.mk
             (py_int (inject_Z (base_limit self)
                      * adjusted_multiplier (mean (load_samples self))
                                            (current_multiplier self)))
             (RateLimiter.window_seconds (rate_limiter self))
             (RateLimiter.requests (rate_limiter self))),
       out).
Proof.
  intros Hne. unfold _adjust_rate_limit.
  destruct (load_samples self) as [|x xs] eqn:E; [congruence|].
  eexists. reflexivity.
Qed.

Lemma deque_append_nonempty (d : list Q) (x : Q) : deque_append d x <> [].
Proof.
  unfold deque_append. destruct (_ <? _)%nat; intros H;
    apply app_eq_nil in H; destruct H; discriminate.
Qed.

(** The history never holds more than [maxlen] samples. *)
Lemma deque_append_length (d : list Q) (x : Q) :
  (length d <= maxlen)%nat -> (length (deque_append d x) <= maxlen)%nat.
Proof.
  unfold deque_append. intros H.
  destruct (Nat.ltb_spec (length d) maxlen) as [Hlt|Hge];
    rewrite length_app; cbn [length].
  - lia.
  - destruct d; cbn [tail length] in *; [unfold maxlen in *; lia | lia].
Qed.

(** One report, spelled out. *)
Lemma update_system_load_unfold (cpu mem now : Q) (self : t) :
  let samples := deque_append (load_samples self) ((cpu + mem) / 2)%Q in
  let m := adjusted_multiplier (mean samples) (current_multiplier self) in
  exists out,
    update_system_load format_float cpu mem now self
    = (Ok tt,
       (if Qlt_bool 30 (now - last_adjustment self)
        then mk (base_limit self) (window_seconds self) m samples now
                (RateLimiter.mk
                   (py_int (inject_Z (base_limit self) * m))
                   (RateLimiter.window_seconds (rate_limiter self))
                   (RateLimiter.requests (rate_limiter self)))
        else mk (base_limit self) (window_seconds self) (current_multiplier self)
                samples (last_adjustment self) (rate_limiter self)),
       out).
Proof.
  intros samples m.
  unfold update_system_load, mbind, M_bind, bind, modify, get_state.
  cbn [append_sample last_adjustment]. fold samples.
  destruct (Qlt_bool 30 (now - last_adjustment self)) eqn:E.
  - set (self1 := append_sample _ self).
    destruct (_adjust_rate_limit_unfold self1) as (out & ->).
    { unfold self1. cbn [load_samples append_sample].
      apply deque_append_nonempty. }
    eexists. reflexivity.
  - eexists. reflexivity.
Qed.

Lemma update_system_load_in_range (cpu mem now : Q) (self : t) :
  multiplier_in_range (current_multiplier self) ->
  multiplier_in_range
    (current_multiplier
       (state_of (update_system_load format_float cpu mem now self))).
Proof.
  intros H.
  destruct (update_system_load_unfold cpu mem now self) as (out & ->).
  unfold state_of. cbn [fst snd].
  destruct (Qlt_bool 30 _); cbn [current_multiplier]; [|exact H].
  now apply adjusted_multiplier_in_range.
Qed.

Lemma updates_in_range (inputs : list (Q * Q * Q)) :
  forall self : t,
    multiplier_in_range (current_multiplier self) ->
    res_of (updates format_float inputs self) = Ok tt /\
    multiplier_in_range
      (current_multiplier (state_of (updates format_float inputs self))).
Proof.
  induction inputs as [|[[cpu mem] now] inputs IH]; intros self H.
  - split; [reflexivity | exact H].
  - unfold updates. cbn [for_each]. unfold bind.
    pose proof (update_system_load_in_range cpu mem now self H) as H1.
    destruct (update_system_load_unfold cpu mem now self) as (out & Hrun).
    rewrite Hrun in *. unfold state_of in H1. cbn [fst snd] in H1.
    specialize (IH _ H1). unfold updates in IH.
    destruct (for_each inputs _ _) as [[r s2] l2].
    exact IH.
Qed.

(** C2 (as amended). A call of [update_system_load] never raises and stores
    the averaged sample in the bounded history. When MORE THAN 30 seconds have
    elapsed since the last adjustment ([now - last_adjustment > 30]): if the
    mean of the retained samples exceeds 80 the multiplier becomes
    [max(0.5, multiplier * 0.8)], if it is below 40 it becomes
    [min(2.0, multiplier * 1.1)], otherwise it is unchanged; the instant of
    the adjustment is recorded and the limit of the inner limiter becomes
    [int(base_limit * multiplier)]. When at most 30 seconds have elapsed,
    multiplier, last adjustment and inner limiter are unchanged. Starting from
    the initial multiplier 1.0, the multiplier stays in [[0.5, 2.0]] under any
    sequence of load reports. *)
Theorem update_system_load_adjusts
    (cpu mem now : Q) (self : t) (inputs : list (Q * Q * Q)) :
  let samples := deque_append (load_samples self) ((cpu + mem) / 2)%Q in
  let avg := mean samples in
  let run := update_system_load format_float cpu mem now self in
  let self' := state_of run in
  res_of run = Ok tt /\
  load_samples self' = samples /\
  ((30 < now - last_adjustment self)%Q ->
     ((80 < avg)%Q ->
        current_multiplier self'
        = py_max (1 # 2) (current_multiplier self * (4 # 5))) /\
     ((avg < 40)%Q ->
        current_multiplier self'
        = py_min 2 (current_multiplier self * (11 # 10))) /\
     ((40 <= avg)%Q -> (avg <= 80)%Q ->
        current_multiplier self' = current_multiplier self) /\
     last_adjustment self' = now /\
     RateLimiter.max_requests (rate_limiter self')
     = py_int (inject_Z (base_limit self) * current_multiplier self')) /\
  ((now - last_adjustment self <= 30)%Q ->
     current_multiplier self' = current_multiplier self /\
     last_adjustment self' = last_adjustment self /\
     rate_limiter self' = rate_limiter self) /\
  (forall base_limit window_seconds t0,
     multiplier_in_range
       (current_multiplier
          (state_of (updates format_float inputs
                       (init base_limit window_seconds t0))))).
Proof.
  intros samples avg run self'.
  destruct (update_system_load_unfold cpu mem now self) as (out & Hrun).
  fold samples avg run in Hrun.
  unfold self'. rewrite Hrun. unfold res_of, state_of. cbn [fst snd].
  split; [reflexivity|]. split; [destruct (Qlt_bool 30 _); reflexivity|].
  split; [|split].
  - intros Helapsed. apply Qlt_bool_iff in Helapsed. rewrite Helapsed.
    cbn [current_multiplier last_adjustment rate_limiter RateLimiter.max_requests].
    unfold adjusted_multiplier. repeat split.
    + intros H. apply Qlt_bool_iff in H. now rewrite H.
    + intros H.
      assert (H80 : Qlt_bool 80 avg = false) by (apply Qlt_bool_false_iff; lra).
      apply Qlt_bool_iff in H. now rewrite H80, H.
    + intros Hlo Hhi.
      apply Qlt_bool_false_iff in Hhi. apply Qlt_bool_false_iff in Hlo.
      now rewrite Hhi, Hlo.
  - intros Helapsed. apply Qlt_bool_false_iff in Helapsed. rewrite Helapsed.
    repeat split.
  - intros base_limit window_seconds t0.
    apply updates_in_range. unfold multiplier_in_range. cbn [init current_multiplier].
    lra.
Qed.

End AdaptiveFacts.

(** A report of load 90 arriving 31 seconds after the last adjustment tightens
    the initial multiplier to [max(0.5, 1.0 * 0.8)]. *)
Lemma update_system_load_adjusts_witness :
  AdaptiveRateLimiter.current_multiplier
    (state_of (AdaptiveRateLimiter.update_system_load (fun _ _ => "") 90 90 31
                 (AdaptiveRateLimiter.init 200 60 0)))
  = AdaptiveRateLimiter.py_max (1 # 2) (1 * (4 # 5)).
Proof.
  destruct (update_system_load_adjusts (fun _ _ => "") 90 90 31
              (AdaptiveRateLimiter.init 200 60 0) []) as (_ & _ & H & _).
  destruct H as (H80 & _).
  - vm_compute. reflexivity.
  - apply H80. vm_compute. reflexivity.
Defined.

(** C2 (as stated) fails at the boundary: a report of load 90 arriving
    exactly 30 seconds after the last adjustment (so at least 30 seconds have
    elapsed, and the mean exceeds 80) leaves the multiplier at 1.0 instead of
    [max(0.5, 1.0 * 0.8)]. *)
Lemma update_system_load_counterexample :
  (30 <= 30 - AdaptiveRateLimiter.last_adjustment
                (AdaptiveRateLimiter.init 200 60 0))%Q /\
  (80 < AdaptiveRateLimiter.mean
          (AdaptiveRateLimiter.load_samples
             (state_of (AdaptiveRateLimiter.update_system_load (fun _ _ => "")
                          90 90 30 (AdaptiveRateLimiter.init 200 60 0)))))%Q /\
  AdaptiveRateLimiter.current_multiplier
    (state_of (AdaptiveRateLimiter.update_system_load (fun _ _ => "")
                 90 90 30 (AdaptiveRateLimiter.init 200 60 0)))
  = 1%Q /\
  ~ (1 == AdaptiveRateLimiter.py_max (1 # 2) (1 * (4 # 5)))%Q.
Proof.
  vm_compute. repeat split; discriminate.
Qed.

(** Three reports of load 90, each more than 30 seconds after the last
    adjustment, tighten the multiplier to [0.8^3] and the limit to
    [int(200 * 0.512)]; three reports of load 10 relax it to [1.1^3]. *)
Example sustained_high_load :
  (AdaptiveRateLimiter.current_multiplier
     (state_of (AdaptiveRateLimiter.updates (fun _ _ => "")
                  [(90, 90, 31); (90, 90, 62); (90, 90, 93)]%Q
                  (AdaptiveRateLimiter.init 200 60 0)))
   == 64 # 125)%Q /\
  RateLimiter.max_requests
    (AdaptiveRateLimiter.rate_limiter
       (state_of (AdaptiveRateLimiter.updates (fun _ _ => "")
                    [(90, 90, 31); (90, 90, 62); (90, 90, 93)]%Q
                    (AdaptiveRateLimiter.init 200 60 0))))
  = 102.
Proof. vm_compute. split; reflexivity. Qed.

Example sustained_low_load :
  (AdaptiveRateLimiter.current_multiplier
     (state_of (AdaptiveRateLimiter.updates (fun _ _ => "")
                  [(10, 10, 31); (10, 10, 62); (10, 10, 93)]%Q
                  (AdaptiveRateLimiter.init 200 60 0)))
   == 1331 # 1000)%Q.
Proof. vm_compute. reflexivity. Qed.

(** ** The middleware *)

Section MiddlewareFacts.

Import Middleware.

Context {App : Type}.
Variable fromtimestamp_isoformat : Z -> string.
Variable call_next : Request -> M App Response.

Lemma app_set_limiter (name : limiter_name) (l : RateLimiter.t) (g : globals App) :
  app (set_limiter name l g) = app g.
Proof. destruct name; reflexivity. Qed.

Lemma limiter_of_set_limiter (name : limiter_name) (l : RateLimiter.t) (g : globals App) :
  limiter_of name (set_limiter name l g) = l.
Proof. destruct name; reflexivity. Qed.

(** C7. For every request, the consulted limiter returns its decision without
    raising. When it rejects, the middleware does not raise and does not call
    the application: it returns a response with status 429 whose headers
    [X-RateLimit-Limit], [X-RateLimit-Remaining] and [X-RateLimit-Reset] carry
    the decision and whose [Retry-After] is the window length of the limiter.
    When it admits and the application returns a response, the middleware
    returns that response with the same three [X-RateLimit-*] headers set and
    everything else as the application produced it. *)
Theorem rate_limit_middleware_headers
    (request : Request) (now : Q) (g : globals App) :
  let limiter := fst (select request) in
  let identifier := snd (select request) in
  let run := rate_limit_middleware fromtimestamp_isoformat call_next request now g in
  exists allowed info limiter' out,
    RateLimiter.is_allowed fromtimestamp_isoformat identifier now (limiter_of limiter g)
    = (Ok (allowed, info), limiter', out) /\
    (allowed = false ->
     exists response,
       res_of run = Ok response /\
       status_code response = 429 /\
       headers response !! "X-RateLimit-Limit"
       = Some (str_int (RateLimiter.limit info)) /\
       headers response !! "X-RateLimit-Remaining"
       = Some (str_int (RateLimiter.remaining info)) /\
       headers response !! "X-RateLimit-Reset"
       = Some (str_int (RateLimiter.reset info)) /\
       headers response !! "Retry-After"
       = Some (str_int (RateLimiter.window_seconds (limiter_of limiter g))) /\
       app (state_of run) = app g) /\
    (allowed = true ->
     forall response app' out',
       call_next request (app g) = (Ok response, app', out') ->
       exists response',
         res_of run = Ok response' /\
         status_code response' = status_code response /\
         content response' = content response /\
         headers response' !! "X-RateLimit-Limit"
         = Some (str_int (RateLimiter.limit info)) /\
         headers response' !! "X-RateLimit-Remaining"
         = Some (str_int (RateLimiter.remaining info)) /\
         headers response' !! "X-RateLimit-Reset"
         = Some (str_int (RateLimiter.reset info)) /\
         (forall name,
            name <> "X-RateLimit-Limit" ->
            name <> "X-RateLimit-Remaining" ->
            name <> "X-RateLimit-Reset" ->
            headers response' !! name = headers response !! name) /\
         app (state_of run) = app').
Proof.
  intros limiter identifier run.
  destruct (is_allowed_unfold fromtimestamp_isoformat identifier now
              (limiter_of limiter g)) as (info & out & Hrun & _).
  eexists _, info, _, out. split; [exact Hrun|].
  unfold run, rate_limit_middleware, try_except.
  destruct (select request) as [lim ident] eqn:Hsel.
  cbn [fst snd] in limiter, identifier. subst limiter identifier.
  unfold mbind, M_bind, bind, zoom. rewrite Hrun.
  split.
  - intros Hrej. rewrite Hrej. cbn [negb].
    unfold log, get_state, mret, M_ret, ret. cbn.
    eexists. split; [reflexivity|].
    cbn [status_code headers].
    repeat split; destruct lim; reflexivity.
  - intros Hadm response app' out' Hcall. rewrite Hadm. cbn [negb].
    rewrite app_set_limiter, Hcall.
    unfold mret, M_ret, ret. cbn.
    eexists. split; [reflexivity|].
    unfold set_header. cbn [status_code content headers].
    repeat split; try (destruct lim; reflexivity).
    + now rewrite !lookup_insert_ne by discriminate; rewrite lookup_insert_eq.
    + now rewrite lookup_insert_ne by discriminate; rewrite lookup_insert_eq.
    + now rewrite lookup_insert_eq.
    + intros name H1 H2 H3. now rewrite !lookup_insert_ne by congruence.
Qed.

End MiddlewareFacts.

(** A webhook request that meets a limiter with no capacity left is answered
    with status 429 and [Retry-After: 60]. *)
Lemma rate_limit_middleware_headers_witness :
  exists response,
    res_of (Middleware.rate_limit_middleware (fun _ => "")
              (fun _ => ret (Middleware.mk_response 200 "ok" ∅))
              (Middleware.mk_request "/receive-message" ∅ None) 0%Q
              (Middleware.mk_globals (RateLimiter.init 100 60)
                 (RateLimiter.init 0 60) tt))
    = Ok response /\
    Middleware.status_code response = 429 /\
    Middleware.headers response !! "Retry-After" = Some "60".
Proof.
  destruct (rate_limit_middleware_headers (App := unit) (fun _ => "")
              (fun _ => ret (Middleware.mk_response 200 "ok" ∅))
              (Middleware.mk_request "/receive-message" ∅ None) 0%Q
              (Middleware.mk_globals (RateLimiter.init 100 60)
                 (RateLimiter.init 0 60) tt))
    as (allowed & info & limiter' & out & Hrun & Hrej & _).
  assert (Ha : allowed = false).
  { vm_compute in Hrun. congruence. }
  destruct (Hrej Ha) as (response & Hres & Hst & _ & _ & _ & Hretry & _).
  exists response. repeat split; assumption.
Defined.

(** ** The persistent store *)

Section PersistentStateFacts.

Import PersistentState.

Context {Value : Type}.

Abbreviation store := (PersistentState.t Value).

(** The primary file and its backup, as found on disk. *)
Definition primary (self : store) : option (file_content Value) :=
  files self !! state_file self.

Definition backup (self : store) : option (file_content Value) :=
  files self !! backup_file self.

Lemma backup_file_ne (self : store) : state_file self <> backup_file self.
Proof.
  unfold backup_file. generalize (state_file self).
  induction s as [|c s IH]; simpl; [discriminate|].
  intros [= H]. exact (IH H).
Qed.

Lemma os_path_exists_Some (path : string) (c : file_content Value) (self : store) :
  files self !! path = Some c -> os_path_exists path self = (Ok true, self, []).
Proof.
  intros H. unfold os_path_exists.
  rewrite bool_decide_eq_true_2; [reflexivity|]. rewrite H. eauto.
Qed.

Lemma os_path_exists_None (path : string) (self : store) :
  files self !! path = None -> os_path_exists path self = (Ok false, self, []).
Proof.
  intros H. unfold os_path_exists.
  rewrite bool_decide_eq_false_2; [reflexivity|]. rewrite H.
  intros [c Hc]. discriminate.
Qed.

(** The files left by [save_state], case by case. *)
Definition files_after_save (o : write_outcome) (self : store)
    : gmap string (file_content Value) :=
  let p := state_file self in
  let b := backup_file self in
  let renamed :=
    match primary self with
    | Some c => <[b := c]> (base.delete p (files self))
    | None => files self
    end in
  let restored (fs : gmap string (file_content Value)) :=
    match fs !! b with
    | Some c => <[p := c]> (base.delete b fs)
    | None => fs
    end in
  match o with
  | WriteOk => <[p := Json (state self)]> renamed
  | OpenFails _ => restored renamed
  | DumpFails _ => restored (<[p := Garbage]> renamed)
  end.

Lemma os_rename_Some (src dst : string) (c : file_content Value) (self : store) :
  files self !! src = Some c ->
  os_rename src dst RenameOk self
  = (Ok tt, set_files (<[dst := c]> (base.delete src (files self))) self, []).
Proof. intros H. unfold os_rename. now rewrite H. Qed.

(** The body of [save_state]: the exception that reaches the handler, if
    any, and the files at that point. *)
Definition save_attempt (d : save_outcome) (self : store)
    : option exn * gmap string (file_content Value) :=
  let p := state_file self in
  let b := backup_file self in
  match files self !! p, backup_rename d with
  | Some _, RenameFails e => (Some e, files self)
  | found, _ =>
      let renamed :=
        match found with
        | Some c => <[b := c]> (base.delete p (files self))
        | None => files self
        end in
      match write d with
      | WriteOk => (None, <[p := Json (state self)]> renamed)
      | OpenFails e => (Some e, renamed)
      | DumpFails e => (Some e, <[p := Garbage]> renamed)
      end
  end.

(** What a call of [save_state] gives: its result, the files that it leaves
    and what it logs. *)
Definition save_spec (d : save_outcome) (self : store)
    : result unit * gmap string (file_content Value) * list log_record :=
  let p := state_file self in
  let b := backup_file self in
  match save_attempt d self with
  | (None, fs) => (Ok tt, fs, [(DEBUG, "Persistent state saved")])
  | (Some e, fs) =>
      let out := [(ERROR, "Failed to save persistent state: " +:+ exn_str e)] in
      match fs !! b, restore_rename d with
      | Some c, RenameOk => (Ok tt, <[p := c]> (base.delete b fs), out)
      | Some _, RenameFails e' => (Raise e', fs, out)
      | None, _ => (Ok tt, fs, out)
      end
  end.

(** The files that [save_state] leaves. *)
Definition saved_files (d : save_outcome) (self : store)
    : gmap string (file_content Value) :=
  snd (fst (save_spec d self)).

Lemma set_files_same (self : store) : set_files (files self) self = self.
Proof. now destruct self. Qed.

Lemma save_state_spec (d : save_outcome) (self : store) :
  save_state d self
  = (res_of (save_spec d self), set_files (saved_files d self) self,
     logs_of (save_spec d self)).
Proof.
  unfold save_state, saved_files, save_spec, save_attempt, res_of, logs_of,
    try_except, mbind, M_bind, bind, get_state, os_path_exists, os_rename,
    write_json, log, mret, M_ret, ret.
  destruct d as [rb w rr]. cbn [backup_rename write restore_rename].
  unfold backup_file. cbn [state_file set_files files state].
  destruct (files self !! state_file self) as [c|] eqn:Hp;
    destruct rb, w, rr; cbn [fst snd state_file set_files files state];
    repeat (case_match; cbn [fst snd state_file set_files files state] in *;
            simplify_eq);
    rewrite ?set_files_same; try reflexivity; try congruence.
Qed.

(** What [save_state] logs when every rename is performed. *)
Definition save_records (o : write_outcome) : list log_record :=
  match o with
  | WriteOk => [(DEBUG, "Persistent state saved")]
  | OpenFails e | DumpFails e =>
      [(ERROR, "Failed to save persistent state: " +:+ exn_str e)]
  end.

Lemma save_spec_renames_ok (o : write_outcome) (self : store) :
  save_spec (renames_ok o) self = (Ok tt, files_after_save o self, save_records o).
Proof.
  unfold save_spec, save_attempt, files_after_save, primary, renames_ok.
  cbn [backup_rename write restore_rename].
  destruct (files self !! state_file self) as [c|]; destruct o;
    cbn [save_records]; try reflexivity;
    match goal with
    | |- context [match ?fs !! backup_file self with _ => _ end] =>
        destruct (fs !! backup_file self)
    end; reflexivity.
Qed.

(** A save that writes does not depend on the restoring rename. *)
Lemma save_spec_written (d : save_outcome) (self : store) :
  backup_rename d = RenameOk -> write d = WriteOk ->
  save_spec d self = save_spec (renames_ok WriteOk) self.
Proof.
  destruct d as [rb w rr]. cbn [backup_rename write]. intros -> ->.
  unfold save_spec, save_attempt, renames_ok. cbn [backup_rename write].
  now destruct (files self !! state_file self).
Qed.

(** With neither file on disk no rename is attempted. *)
Lemma save_spec_first (d : save_outcome) (self : store) :
  primary self = None -> backup self = None ->
  save_spec d self = save_spec (renames_ok (write d)) self.
Proof.
  pose proof (backup_file_ne self) as Hne.
  unfold primary, backup. intros Hp Hb.
  unfold save_spec, save_attempt, renames_ok.
  cbn [backup_rename write restore_rename]. rewrite Hp.
  destruct (write d); [reflexivity| |].
  - now rewrite Hb.
  - rewrite lookup_insert_ne by exact Hne. now rewrite Hb.
Qed.

Lemma save_spec_both (d : save_outcome) :
  backup_rename d = RenameOk -> restore_rename d = RenameOk ->
  d = renames_ok (write d).
Proof. destruct d as [rb w rr]. cbn. now intros -> ->. Qed.

(** [save_state] raises only from the restoring rename. *)
Lemma save_spec_returns (d : save_outcome) (self : store) :
  restore_rename d = RenameOk -> res_of (save_spec d self) = Ok tt.
Proof.
  intros Hrr. unfold save_spec. rewrite Hrr.
  destruct (save_attempt d self) as [[e|] fs]; [|reflexivity].
  now destruct (fs !! backup_file self).
Qed.

Lemma save_spec_raises (d : save_outcome) (self : store) (e : exn) :
  res_of (save_spec d self) = Raise e ->
  restore_rename d = RenameFails e /\
  (exists e0, fst (save_attempt d self) = Some e0) /\
  saved_files d self = snd (save_attempt d self) /\
  is_Some (saved_files d self !! backup_file self).
Proof.
  unfold saved_files, save_spec.
  destruct (save_attempt d self) as [[e0|] fs]; [|discriminate].
  destruct (fs !! backup_file self) as [c|] eqn:Hb; [|discriminate].
  destruct (restore_rename d) as [|e']; [discriminate|].
  unfold res_of. cbn [fst snd]. intros [= ->].
  repeat split; eauto.
Qed.

Lemma saved_files_frame (d : save_outcome) (self : store) (path : string) :
  path <> state_file self -> path <> backup_file self ->
  saved_files d self !! path = files self !! path.
Proof.
  intros H1 H2. unfold saved_files, save_spec, save_attempt.
  destruct (files self !! state_file self) as [c|], (backup_rename d), (write d);
    cbn [fst snd];
    repeat match goal with
      | |- context [match ?x with _ => _ end] => destruct x
      end;
    cbn [fst snd];
    repeat first [ rewrite lookup_insert_ne by congruence
                 | rewrite lookup_delete_ne by congruence ];
    reflexivity.
Qed.

Lemma save_state_unfold (o : write_outcome) (self : store) :
  exists out,
    save_state (renames_ok o) self
    = (Ok tt, set_files (files_after_save o self) self, out).
Proof.
  eexists. rewrite save_state_spec. unfold saved_files.
  rewrite save_spec_renames_ok. reflexivity.
Qed.

(** The map that [load_state] installs. *)
Definition state_after_load (o : read_outcome) (self : store) : gmap string Value :=
  match o, primary self with
  | ReadOk, Some (Json m) => m
  | _, _ => ∅
  end.

(** [load_state] logs an error exactly when the file exists and cannot be
    read or parsed. *)
Definition load_fails (o : read_outcome) (self : store) : Prop :=
  primary self = Some Garbage \/
  (exists e, o = ReadFails e) /\ primary self <> None.

Lemma load_state_unfold (o : read_outcome) (self : store) :
  exists out,
    load_state o self = (Ok tt, set_state (state_after_load o self) self, out) /\
    (load_fails o self -> exists msg, (ERROR, msg) ∈ out).
Proof.
  unfold load_state, state_after_load, load_fails, primary.
  destruct (files self !! state_file self) as [c|] eqn:Hp.
  - destruct o as [|e].
    + destruct c as [m|].
      * eexists. split.
        -- eapply run_try_Ok.
           run_ok; [reflexivity|].
           run_ok; [apply (os_path_exists_Some _ (Json m)); exact Hp|].
           cbn iota.
           run_ok; [unfold read_json; rewrite Hp; reflexivity|].
           run_ok; reflexivity.
        -- intros [H|[[e He] _]]; discriminate.
      * eexists. split.
        -- eapply run_try_Raise.
           ++ run_ok; [reflexivity|].
              run_ok; [apply (os_path_exists_Some _ Garbage); exact Hp|].
              cbn iota.
              run_raise. unfold read_json. rewrite Hp. reflexivity.
           ++ run_ok; reflexivity.
        -- intros _. eexists. cbn. apply list_elem_of_here.
    + eexists. split.
      * eapply run_try_Raise.
        -- run_ok; [reflexivity|].
           run_ok; [apply (os_path_exists_Some _ c); exact Hp|].
           cbn iota. run_raise. reflexivity.
        -- run_ok; reflexivity.
      * intros _. eexists. cbn. apply list_elem_of_here.
  - eexists. split.
    + eapply run_try_Ok.
      run_ok; [reflexivity|].
      run_ok; [apply os_path_exists_None; exact Hp|].
      cbn iota. run_ok; [reflexivity|]. destruct o; reflexivity.
    + intros [H|[_ H]]; [discriminate | congruence].
Qed.

Lemma files_after_save_ok (self : store) :
  files_after_save WriteOk self !! state_file self = Some (Json (state self)) /\
  files_after_save WriteOk self !! backup_file self
  = match primary self with
    | Some c => Some c
    | None => backup self
    end.
Proof.
  pose proof (backup_file_ne self) as Hne.
  unfold files_after_save, backup. destruct (primary self) as [c|];
    rewrite lookup_insert_eq, lookup_insert_ne by exact Hne;
    rewrite ?lookup_insert_eq; split; reflexivity.
Qed.

Lemma files_after_save_restored (o : write_outcome) (self : store)
    (c : file_content Value) :
  o <> WriteOk ->
  primary self = Some c \/ (primary self = None /\ backup self = Some c) ->
  files_after_save o self !! state_file self = Some c /\
  files_after_save o self !! backup_file self = None.
Proof.
  pose proof (backup_file_ne self) as Hne.
  assert (Hne' : backup_file self <> state_file self) by congruence.
  intros Ho H. unfold files_after_save, backup in *.
  destruct H as [H|[H Hb]]; rewrite H.
  - destruct o; [congruence| |];
      rewrite ?(lookup_insert_ne _ (state_file self)) by exact Hne;
      rewrite lookup_insert_eq;
      rewrite lookup_insert_eq, lookup_insert_ne by exact Hne;
      rewrite lookup_delete_eq; split; reflexivity.
  - destruct o; [congruence| |];
      rewrite ?(lookup_insert_ne _ (state_file self)) by exact Hne;
      rewrite Hb;
      rewrite lookup_insert_eq, lookup_insert_ne by exact Hne;
      rewrite lookup_delete_eq; split; reflexivity.
Qed.

Lemma files_after_save_unprotected (o : write_outcome) (self : store) :
  o <> WriteOk -> primary self = None -> backup self = None ->
  files_after_save o self !! state_file self
  = match o with
    | DumpFails _ => Some Garbage
    | _ => None
    end /\
  files_after_save o self !! backup_file self = None.
Proof.
  pose proof (backup_file_ne self) as Hne.
  intros Ho Hp Hb. unfold files_after_save, primary, backup in *. rewrite Hp.
  destruct o; [congruence| |].
  - rewrite Hb. split; assumption.
  - rewrite lookup_insert_ne by exact Hne. rewrite Hb.
    rewrite lookup_insert_eq, lookup_insert_ne by exact Hne.
    split; [reflexivity | assumption].
Qed.

Lemma files_after_save_frame (o : write_outcome) (self : store) (path : string) :
  path <> state_file self -> path <> backup_file self ->
  files_after_save o self !! path = files self !! path.
Proof.
  pose proof (backup_file_ne self) as Hne.
  intros H1 H2. unfold files_after_save.
  destruct (primary self) as [c|], o;
    rewrite ?lookup_insert_eq, ?(lookup_insert_ne _ (state_file self)) by exact Hne;
    rewrite ?lookup_insert_eq;
    repeat match goal with
      | |- context [match ?x with Some _ => _ | None => _ end] => destruct x
      end;
    repeat first [ rewrite lookup_insert_ne by congruence
                 | rewrite lookup_delete_ne by congruence ];
    reflexivity.
Qed.

(** C4 (as amended). [save_state] leaves the in-memory map alone and
    touches no file but the state file and its backup. When the operating
    system performs the renames: [save_state] returns; it renames an
    existing primary file to the backup path and then writes the new content
    to the primary path; when the write fails and a backup file then exists
    (always so when the primary file existed before the call), the backup is
    renamed back to the primary path, so the primary file holds the
    backed-up content and no backup remains. When the write fails and
    neither file existed, no rename is attempted and nothing is restored:
    the primary path is left missing if the file could not be opened,
    partially written if the dump failed. [load_state] never raises and
    leaves the disk alone: a missing file gives the empty map, a file that
    cannot be read or parsed gives the empty map and an error record in the
    log, a well-formed file gives its content; so a read after a failed save
    finds the prior content when the primary file existed and the renames
    were performed, and the empty map when neither file existed. *)
Theorem save_state_load_state_protocol
    (d : save_outcome) (r : read_outcome) (self : store) :
  let saved := save_state d self in
  let loaded := load_state r self in
  (state (state_of saved) = state self /\
   state_file (state_of saved) = state_file self /\
   (forall path, path <> state_file self -> path <> backup_file self ->
      files (state_of saved) !! path = files self !! path)) /\
  (restore_rename d = RenameOk -> res_of saved = Ok tt) /\
  (backup_rename d = RenameOk -> write d = WriteOk ->
     res_of saved = Ok tt /\
     primary (state_of saved) = Some (Json (state self)) /\
     backup (state_of saved) = match primary self with
                               | Some c => Some c
                               | None => backup self
                               end) /\
  (backup_rename d = RenameOk -> restore_rename d = RenameOk ->
   write d <> WriteOk ->
   forall c, primary self = Some c \/ (primary self = None /\ backup self = Some c) ->
     primary (state_of saved) = Some c /\ backup (state_of saved) = None) /\
  (write d <> WriteOk -> primary self = None -> backup self = None ->
     res_of saved = Ok tt /\
     primary (state_of saved) = match write d with
                                | DumpFails _ => Some Garbage
                                | _ => None
                                end /\
     backup (state_of saved) = None) /\
  (res_of loaded = Ok tt /\
   files (state_of loaded) = files self /\
   state_file (state_of loaded) = state_file self) /\
  (primary self = None -> state (state_of loaded) = ∅) /\
  (load_fails r self ->
     state (state_of loaded) = ∅ /\ exists msg, (ERROR, msg) ∈ logs_of loaded) /\
  (forall m, r = ReadOk -> primary self = Some (Json m) ->
     state (state_of loaded) = m) /\
  (backup_rename d = RenameOk -> restore_rename d = RenameOk ->
   write d <> WriteOk ->
   forall m, primary self = Some (Json m) ->
     state (state_of (load_state ReadOk (state_of saved))) = m) /\
  (write d <> WriteOk -> primary self = None -> backup self = None ->
     state (state_of (load_state ReadOk (state_of saved))) = ∅).
Proof.
  intros saved loaded.
  destruct (load_state_unfold r self) as (out' & Hload & Herr).
  assert (Hreload :
            state (state_of (load_state ReadOk (state_of saved)))
            = state_after_load ReadOk (state_of saved)).
  { destruct (load_state_unfold ReadOk (state_of saved)) as (? & -> & _).
    reflexivity. }
  assert (Hsaved : saved = (res_of (save_spec d self),
                            set_files (saved_files d self) self,
                            logs_of (save_spec d self)))
    by apply save_state_spec.
  assert (Hok : forall o, d = renames_ok o ->
            res_of (save_spec d self) = Ok tt /\
            saved_files d self = files_after_save o self).
  { intros o ->. unfold saved_files. now rewrite save_spec_renames_ok. }
  assert (Hwritten : backup_rename d = RenameOk -> write d = WriteOk ->
            res_of (save_spec d self) = Ok tt /\
            saved_files d self = files_after_save WriteOk self).
  { intros Hb Hw. unfold saved_files.
    now rewrite (save_spec_written d self Hb Hw), save_spec_renames_ok. }
  assert (Hfirst : primary self = None -> backup self = None ->
            res_of (save_spec d self) = Ok tt /\
            saved_files d self = files_after_save (write d) self).
  { intros Hp Hb. unfold saved_files.
    now rewrite (save_spec_first d self Hp Hb), save_spec_renames_ok. }
  unfold primary, backup, loaded in *. rewrite Hsaved, Hload in *.
  unfold res_of, state_of, logs_of, backup_file in *.
  cbn [fst snd] in *.
  cbn [state state_file files set_files set_state] in *.
  change (state_file self +:+ ".backup") with (backup_file self) in *.
  repeat apply conj; try reflexivity.
  - apply saved_files_frame.
  - apply save_spec_returns.
  - intros Hb Hw. destruct (Hwritten Hb Hw) as [Hres ->].
    split; [exact Hres | apply files_after_save_ok].
  - intros Hb Hr Hw c Hc.
    destruct (Hok _ (save_spec_both d Hb Hr)) as [_ ->].
    now apply files_after_save_restored.
  - intros Hw Hp Hb. destruct (Hfirst Hp Hb) as [Hres ->].
    split; [exact Hres | now apply files_after_save_unprotected].
  - intros Hp. unfold state_after_load, primary. rewrite Hp. now destruct r.
  - intros Hf. split; [|now apply Herr].
    unfold state_after_load. destruct Hf as [->|[[e ->] _]]; [now destruct r | reflexivity].
  - intros m -> Hp. unfold state_after_load, primary. now rewrite Hp.
  - intros Hb Hr Hw m Hp. rewrite Hreload. unfold state_after_load, primary.
    cbn [state state_file files set_files].
    destruct (Hok _ (save_spec_both d Hb Hr)) as [_ ->].
    destruct (files_after_save_restored (write d) self (Json m) Hw (or_introl Hp))
      as [-> _].
    reflexivity.
  - intros Hw Hp Hb. rewrite Hreload. unfold state_after_load, primary.
    cbn [state state_file files set_files].
    destruct (Hfirst Hp Hb) as [_ ->].
    destruct (files_after_save_unprotected (write d) self Hw Hp Hb) as [-> _].
    now destruct (write d).
Qed.

(** [set] and [clear] are an update of the map followed by [save_state]; so
    is [delete] of a key that is held. *)
Lemma set_as_save (key : string) (value : Value) (d : save_outcome) (self : store) :
  set key value d self
  = save_state d (set_state (<[key := value]> (state self)) self).
Proof.
  unfold set, mbind, M_bind, bind, get_state, modify. cbv beta iota zeta.
  now destruct (save_state d _) as [[r s1] out].
Qed.

Lemma clear_as_save (d : save_outcome) (self : store) :
  clear d self = save_state d (set_state ∅ self).
Proof.
  unfold clear, mbind, M_bind, bind, modify. cbv beta iota zeta.
  now destruct (save_state d _) as [[r s1] out].
Qed.

Lemma delete_as_save (key : string) (d : save_outcome) (self : store) :
  is_Some (state self !! key) ->
  delete key d self
  = save_state d (set_state (base.delete key (state self)) self).
Proof.
  intros Hk. unfold delete, mbind, M_bind, bind, get_state, modify.
  cbv beta iota zeta. rewrite bool_decide_eq_true_2 by exact Hk.
  cbv beta iota zeta.
  now destruct (save_state d _) as [[r s1] out].
Qed.


(** C9. [delete(key)] for a key that the map does not hold changes nothing:
    the map and every file on disk are as before, [save_state] is not run
    and nothing is logged. *)
Theorem delete_absent_key (key : string) (d : save_outcome) (self : store) :
  state self !! key = None ->
  delete key d self = (Ok tt, self, []).
Proof.
  intros Hk. unfold delete, mbind, M_bind, bind, get_state.
  rewrite bool_decide_eq_false_2; [reflexivity|].
  rewrite Hk. intros [v Hv]. discriminate.
Qed.

End PersistentStateFacts.

(** A failed dump over an existing state file, with the renames performed:
    the prior content is back at the primary path and no backup remains. *)
Lemma save_state_load_state_protocol_witness :
  primary (state_of
             (PersistentState.save_state
                (PersistentState.renames_ok
                   (PersistentState.DumpFails (Exception "No space left on device")))
                (PersistentState.mk "persistent_state.json" {["k" := 2]}
                   {["persistent_state.json" := PersistentState.Json {["k" := 1]}]})))
  = Some (PersistentState.Json {["k" := 1]}) /\
  backup (state_of
            (PersistentState.save_state
               (PersistentState.renames_ok
                  (PersistentState.DumpFails (Exception "No space left on device")))
               (PersistentState.mk "persistent_state.json" {["k" := 2]}
                  {["persistent_state.json" := PersistentState.Json {["k" := 1]}]})))
  = None.
Proof.
  destruct (save_state_load_state_protocol (Value := Z)
              (PersistentState.renames_ok
                 (PersistentState.DumpFails (Exception "No space left on device")))
              PersistentState.ReadOk
              (PersistentState.mk "persistent_state.json" {["k" := 2]}
                 {["persistent_state.json" := PersistentState.Json {["k" := 1]}]}))
    as (_ & _ & _ & H & _).
  apply H.
  - reflexivity.
  - reflexivity.
  - discriminate.
  - left. reflexivity.
Defined.

(** C4 (as stated) fails on the first save: with no state file and no backup
    on disk, a dump that fails half-way leaves the partial file at the primary
    path, and there is no backup to put in its place. No rename is attempted
    in this call. *)
Lemma save_state_counterexample :
  primary (PersistentState.mk "persistent_state.json" {["k" := 1]} ∅) = None /\
  backup (PersistentState.mk "persistent_state.json" {["k" := 1]} ∅) = None /\
  primary (state_of
             (PersistentState.save_state
                (PersistentState.renames_ok
                   (PersistentState.DumpFails (Exception "No space left on device")))
                (PersistentState.mk "persistent_state.json" {["k" := 1]} ∅)))
  = Some PersistentState.Garbage /\
  backup (state_of
            (PersistentState.save_state
               (PersistentState.renames_ok
                  (PersistentState.DumpFails (Exception "No space left on device")))
               (PersistentState.mk "persistent_state.json" {["k" := 1]} ∅)))
  = None.
Proof.
  repeat split.
Qed.

(** The rename that restores the backup is not guarded: when the write fails
    over an existing state file and the operating system refuses that
    rename, [save_state] raises, the state file is missing and the backup
    holds its prior content. *)
Example save_state_restore_refused :
  let saved :=
    PersistentState.save_state
      (PersistentState.mk_save_outcome PersistentState.RenameOk
         (PersistentState.OpenFails (Exception "Permission denied"))
         (PersistentState.RenameFails (Exception "Permission denied")))
      (PersistentState.mk "persistent_state.json" {["k" := 2]}
         {["persistent_state.json" := PersistentState.Json {["k" := 1]}]}) in
  res_of saved = Raise (Exception "Permission denied") /\
  primary (state_of saved) = None /\
  backup (state_of saved) = Some (PersistentState.Json {["k" := 1]}).
Proof. repeat split. Qed.

(** Deleting a key that was never set, on a store with a state file. *)
Lemma delete_absent_key_witness :
  PersistentState.delete "absent" (PersistentState.renames_ok PersistentState.WriteOk)
    (PersistentState.mk "persistent_state.json" {["k" := 1]}
       {["persistent_state.json" := PersistentState.Json {["k" := 1]}]})
  = (Ok tt,
     PersistentState.mk "persistent_state.json" {["k" := 1]}
       {["persistent_state.json" := PersistentState.Json {["k" := 1]}]},
     []).
Proof.
  apply delete_absent_key. reflexivity.
Defined.

(** ** Cleanup handlers *)

Section CleanupFacts.

Import ServiceManager.

Context {W : Type}.

Abbreviation manager := (ServiceManager.t W).

(** The world after the handlers [hs] have been called one after the other,
    each on the world left by the one before, whether it returned or raised. *)
Definition run_in_order (hs : list (handler W)) (w : W) : W :=
  fold_left (fun w h => state_of (handler_call h w)) hs w.

(** What the call of one handler adds to the log: the records of the handler
    itself, then the record of how the call ended. *)
Definition handler_records (h : handler W) (w : W) : list log_record :=
  logs_of (handler_call h w)
  ++ [match res_of (handler_call h w) with
      | Ok _ => (DEBUG, "Cleanup handler " +:+ handler_name h +:+ " completed")
      | Raise e =>
          (ERROR, "Error in cleanup handler " +:+ handler_name h +:+ ": "
                  +:+ exn_str e)
      end].

Fixpoint cleanup_records (hs : list (handler W)) (w : W) : list log_record :=
  match hs with
  | [] => []
  | h :: rest =>
      handler_records h w ++ cleanup_records rest (state_of (handler_call h w))
  end.

Lemma run_handler_unfold (h : handler W) (self : manager) :
  run_handler h self
  = (Ok tt, set_world (state_of (handler_call h (world self))) self,
     handler_records h (world self)).
Proof.
  unfold run_handler, try_except, mbind, M_bind, bind, zoom, log,
    handler_records, state_of, res_of, logs_of.
  destruct (iscoroutinefunction h);
    destruct (handler_call h (world self)) as [[[u|e] w'] out]; cbn;
    rewrite ?app_nil_r; reflexivity.
Qed.

Lemma for_each_run_handler (hs : list (handler W)) :
  forall self : manager,
    for_each hs run_handler self
    = (Ok tt, set_world (run_in_order hs (world self)) self,
       cleanup_records hs (world self)).
Proof.
  induction hs as [|h hs IH]; intros self.
  - cbn. destruct self; reflexivity.
  - cbn [for_each]. erewrite run_bind_Ok;
      [|apply run_handler_unfold|apply IH].
    reflexivity.
Qed.

Lemma run_in_order_app (pre post : list (handler W)) (w : W) :
  run_in_order (pre ++ post) w = run_in_order post (run_in_order pre w).
Proof. apply fold_left_app. Qed.

Lemma cleanup_records_app (pre post : list (handler W)) (w : W) :
  cleanup_records (pre ++ post) w
  = cleanup_records pre w ++ cleanup_records post (run_in_order pre w).
Proof.
  revert w. induction pre as [|h pre IH]; intros w; [reflexivity|].
  cbn [app cleanup_records]. rewrite IH, <- app_assoc. reflexivity.
Qed.

(** C5. [_run_cleanup_handlers] never raises. It calls every registered
    handler once, in registration order, each on the world left by the handler
    before it, whether that one returned or raised; the manager's own fields
    are untouched. So for a handler [h] registered after [pre] and before
    [post]: however the call of [h] ends, the handlers of [post] are called
    after it; a failure of [h] is logged as an error and a return as a
    completion. *)
Theorem cleanup_handlers_all_run
    (self : manager) (pre post : list (handler W)) (h : handler W) :
  let run := _run_cleanup_handlers self in
  res_of run = Ok tt /\
  state_of run = set_world (run_in_order (cleanup_handlers self) (world self)) self /\
  (cleanup_handlers self = pre ++ h :: post ->
   let w := run_in_order pre (world self) in
   world (state_of run) = run_in_order post (state_of (handler_call h w)) /\
   (forall e, res_of (handler_call h w) = Raise e ->
      (ERROR, "Error in cleanup handler " +:+ handler_name h +:+ ": "
              +:+ exn_str e) ∈ logs_of run) /\
   (forall u, res_of (handler_call h w) = Ok u ->
      (DEBUG, "Cleanup handler " +:+ handler_name h +:+ " completed")
      ∈ logs_of run)).
Proof.
  intros run.
  assert (Hrun : exists info,
             run = (Ok tt,
                    set_world (run_in_order (cleanup_handlers self) (world self)) self,
                    info :: cleanup_records (cleanup_handlers self) (world self))).
  { eexists. unfold run, _run_cleanup_handlers, mbind, M_bind, bind, get_state, log.
    rewrite for_each_run_handler. reflexivity. }
  destruct Hrun as (info & ->).
  unfold res_of, state_of, logs_of. cbn [fst snd].
  split; [reflexivity|]. split; [reflexivity|].
  intros Hsplit. rewrite Hsplit. cbn [world set_world].
  rewrite run_in_order_app, cleanup_records_app.
  cbn [cleanup_records].
  split; [reflexivity|].
  unfold handler_records, res_of.
  split.
  - intros e He. rewrite He.
    apply list_elem_of_further, elem_of_app. right.
    apply elem_of_app. left. apply elem_of_app. right.
    apply list_elem_of_here.
  - intros u Hu. rewrite Hu.
    apply list_elem_of_further, elem_of_app. right.
    apply elem_of_app. left. apply elem_of_app. right.
    apply list_elem_of_here.
Qed.

End CleanupFacts.

(** A handler that records its name in the world (a list of names, newest
    last) and then returns or raises. *)
Definition recording_handler (name : string) (fails : bool)
    : ServiceManager.handler (list string) :=
  ServiceManager.mk_handler name false
    (fun w => (if fails then Raise (Exception "boom") else Ok tt, w ++ [name], [])).

(** Three handlers, the second of which raises: all three are called, in
    order, and the failure is logged. *)
Lemma cleanup_handlers_all_run_witness :
  ServiceManager.world
    (state_of
       (ServiceManager._run_cleanup_handlers
          (ServiceManager.mk false
             [recording_handler "a" false; recording_handler "b" true;
              recording_handler "c" false]
             [] false None "service_state.json" [])))
  = ["a"; "b"; "c"] /\
  (ERROR, "Error in cleanup handler b: boom")
  ∈ logs_of
      (ServiceManager._run_cleanup_handlers
         (ServiceManager.mk false
            [recording_handler "a" false; recording_handler "b" true;
             recording_handler "c" false]
            [] false None "service_state.json" [])).
Proof.
  destruct (cleanup_handlers_all_run
              (ServiceManager.mk false
                 [recording_handler "a" false; recording_handler "b" true;
                  recording_handler "c" false]
                 [] false None "service_state.json" [])
              [recording_handler "a" false] [recording_handler "c" false]
              (recording_handler "b" true)) as (_ & _ & H).
  destruct H as (Hworld & Herror & _); [reflexivity|].
  split.
  - exact Hworld.
  - apply (Herror (Exception "boom")). reflexivity.
Defined.

(** ** Health checks *)

Section HealthFacts.

Import HealthChecker.

Context {W : Type}.
Variable now_isoformat : W -> string.

Abbreviation checker := (HealthChecker.t W).

(** The world after the checks [cs] have been called one after the other. *)
Definition world_after (cs : list (string * check W)) (w : W) : W :=
  fold_left (fun w nc => state_of (check_call (snd nc) w)) cs w.

(** The entry recorded for a check called on the world [w]. *)
Definition check_entry (c : check W) (w : W) : check_result :=
  match res_of (check_call c w) with
  | Ok b =>
      {| status := if b then "healthy" else "unhealthy";
         error := None;
         timestamp := now_isoformat (state_of (check_call c w)) |}
  | Raise e =>
      {| status := "error";
         error := Some (exn_str e);
         timestamp := now_isoformat (state_of (check_call c w)) |}
  end.

(** The check returned a truthy value. *)
Definition passes (c : check W) (w : W) : bool :=
  match res_of (check_call c w) with
  | Ok true => true
  | _ => false
  end.

Fixpoint all_pass (cs : list (string * check W)) (w : W) : bool :=
  match cs with
  | [] => true
  | (_, c) :: rest => passes c w && all_pass rest (state_of (check_call c w))
  end.

Fixpoint results_of (cs : list (string * check W)) (w : W)
    (acc : gmap string check_result) : gmap string check_result :=
  match cs with
  | [] => acc
  | (name, c) :: rest =>
      results_of rest (state_of (check_call c w)) (<[name := check_entry c w]> acc)
  end.

Lemma run_check_unfold (name : string) (c : check W)
    (results : gmap string check_result) (healthy : bool) (self : checker) :
  exists out,
    run_check now_isoformat name c (results, healthy) self
    = (Ok (<[name := check_entry c (world self)]> results,
           healthy && passes c (world self)),
       set_world (state_of (check_call c (world self))) self, out).
Proof.
  unfold run_check, try_except, mbind, M_bind, bind, zoom, get_state, log,
    mret, M_ret, ret, check_entry, passes, res_of, state_of.
  destruct (check_iscoroutinefunction c);
    destruct (check_call c (world self)) as [[[[|]|e] w'] out];
    cbn; eexists; rewrite ?andb_true_r, ?andb_false_r; reflexivity.
Qed.

Lemma run_checks_unfold (cs : list (string * check W)) :
  forall (results : gmap string check_result) (healthy : bool) (self : checker),
  exists out,
    run_checks now_isoformat cs (results, healthy) self
    = (Ok (results_of cs (world self) results,
           healthy && all_pass cs (world self)),
       set_world (world_after cs (world self)) self, out).
Proof.
  induction cs as [|[name c] cs IH]; intros results healthy self.
  - eexists. cbn. rewrite andb_true_r. destruct self; reflexivity.
  - destruct (run_check_unfold name c results healthy self) as (out1 & H1).
    destruct (IH (<[name := check_entry c (world self)]> results)
                 (healthy && passes c (world self))
                 (set_world (state_of (check_call c (world self))) self))
      as (out2 & H2).
    eexists. cbn [run_checks]. run_ok; [exact H1|].
    rewrite H2. cbn [world set_world all_pass results_of world_after fold_left snd].
    rewrite andb_assoc. reflexivity.
Qed.

(** Registration keeps the names of the registry distinct, as the keys of a
    dict are. *)
Lemma dict_set_names (name : string) (f : check W) (d : list (string * check W)) :
  (dict_set name f d).*1
  = if bool_decide (name ∈ d.*1) then d.*1 else d.*1 ++ [name].
Proof.
  induction d as [|[k g] d IH]; [reflexivity|].
  cbn [dict_set fmap list_fmap fst].
  destruct (String.eqb_spec k name) as [->|Hne].
  - rewrite bool_decide_eq_true_2 by apply list_elem_of_here. reflexivity.
  - cbn [fmap list_fmap fst]. change (list_fmap _ _ fst ?l) with (l.*1). rewrite IH.
    destruct (bool_decide (name ∈ d.*1)) eqn:E.
    + apply bool_decide_eq_true_1 in E.
      rewrite bool_decide_eq_true_2 by (now apply list_elem_of_further).
      reflexivity.
    + apply bool_decide_eq_false_1 in E.
      rewrite bool_decide_eq_false_2; [reflexivity|].
      intros H. apply elem_of_cons in H as [H|H]; congruence.
Qed.

Lemma dict_set_NoDup (name : string) (f : check W) (d : list (string * check W)) :
  NoDup d.*1 -> NoDup (dict_set name f d).*1.
Proof.
  intros Hd. rewrite dict_set_names. case_bool_decide as Hin; [exact Hd|].
  apply NoDup_app. repeat split; [exact Hd | | apply NoDup_singleton].
  intros x Hx Hx'. apply list_elem_of_singleton in Hx'. congruence.
Qed.

Lemma results_of_app (pre post : list (string * check W)) :
  forall (w : W) (acc : gmap string check_result),
    results_of (pre ++ post) w acc
    = results_of post (world_after pre w) (results_of pre w acc).
Proof.
  induction pre as [|[name c] pre IH]; intros w acc; [reflexivity|].
  cbn [app results_of]. rewrite IH. reflexivity.
Qed.

Lemma results_of_other (cs : list (string * check W)) (name : string) :
  forall (w : W) (acc : gmap string check_result),
    name ∉ cs.*1 -> results_of cs w acc !! name = acc !! name.
Proof.
  induction cs as [|[name' c] cs IH]; intros w acc Hnot; [reflexivity|].
  cbn [results_of]. cbn in Hnot. apply not_elem_of_cons in Hnot as [Hne Hnot].
  rewrite IH by exact Hnot. now rewrite lookup_insert_ne.
Qed.

Lemma results_of_dom (cs : list (string * check W)) (name : string) :
  forall (w : W) (acc : gmap string check_result),
    is_Some (results_of cs w acc !! name)
    <-> name ∈ cs.*1 \/ is_Some (acc !! name).
Proof.
  induction cs as [|[name' c] cs IH]; intros w acc; cbn [results_of].
  - cbn. split; [tauto|]. intros [H|H]; [|exact H]. now apply elem_of_nil in H.
  - rewrite IH. cbn [fmap list_fmap fst]. rewrite elem_of_cons.
    destruct (decide (name' = name)) as [->|Hne].
    + rewrite lookup_insert_eq. split; [intros _; left; left; reflexivity|].
      intros _. right. eauto.
    + rewrite lookup_insert_ne by exact Hne. split.
      * intros [H|H]; [left; right; exact H | right; exact H].
      * intros [[H|H]|H]; [congruence | left; exact H | right; exact H].
Qed.

Lemma all_pass_iff (cs : list (string * check W)) :
  forall w : W,
    all_pass cs w = true
    <-> (forall pre name c post,
           cs = pre ++ (name, c) :: post ->
           res_of (check_call c (world_after pre w)) = Ok true).
Proof.
  induction cs as [|[name c] cs IH]; intros w; cbn [all_pass].
  - split; [|reflexivity]. intros _ pre name c post H.
    destruct pre; discriminate.
  - rewrite andb_true_iff, IH. split.
    + intros [Hc Hrest] pre name' c' post Heq.
      destruct pre as [|[n0 c0] pre]; cbn in Heq.
      * injection Heq as <- <- <-. cbn.
        unfold passes in Hc.
        destruct (res_of (check_call c w)) as [[|]|]; congruence.
      * injection Heq as <- <- ->. cbn [world_after fold_left snd].
        eapply Hrest. reflexivity.
    + intros H. split.
      * pose proof (H [] name c cs eq_refl) as H0.
        unfold world_after in H0. cbn [fold_left] in H0.
        unfold passes. now rewrite H0.
      * intros pre name' c' post ->.
        apply (H ((name, c) :: pre) name' c' post eq_refl).
Qed.

Lemma run_health_checks_unfold (self : checker) :
  let healthy := all_pass (health_checks self) (world self) in
  let w := world_after (health_checks self) (world self) in
  let overall := if healthy then "healthy" else "unhealthy" in
  exists out,
    run_health_checks now_isoformat self
    = (Ok {| overall_status := overall;
             report_timestamp := now_isoformat w;
             checks := results_of (health_checks self) (world self) ∅ |},
       mk (health_checks self) (Some (now_isoformat w)) overall w,
       out).
Proof.
  intros healthy w overall.
  destruct (run_checks_unfold (health_checks self) ∅ true self) as (out & Hrun).
  eexists. unfold run_health_checks.
  run_ok; [reflexivity|]. run_ok; [exact Hrun|].
  cbn [andb]. fold healthy. fold w.
  run_ok; [reflexivity|]. run_ok; reflexivity.
Qed.

(** C6. [run_health_checks] never raises and returns a report with an entry
    for every registered check and for nothing else. The overall status is
    ["healthy"] when every check, called in its turn, returned a truthy value,
    and ["unhealthy"] otherwise. The entry of a check says ["healthy"] when the
    check returned a truthy value, ["unhealthy"] when it returned a falsy one,
    and ["error"] together with the message of the exception when it raised;
    any check that returned a falsy value or raised makes the overall status
    ["unhealthy"]. *)
Theorem run_health_checks_aggregate
    (self : checker) (pre post : list (string * check W))
    (name : string) (c : check W) :
  let run := run_health_checks now_isoformat self in
  exists rep,
    res_of run = Ok rep /\
    health_status (state_of run) = overall_status rep /\
    (forall n, is_Some (checks rep !! n) <-> n ∈ (health_checks self).*1) /\
    (overall_status rep = "healthy" \/ overall_status rep = "unhealthy") /\
    (overall_status rep = "healthy"
     <-> (forall pre name c post,
            health_checks self = pre ++ (name, c) :: post ->
            res_of (check_call c (world_after pre (world self))) = Ok true)) /\
    (health_checks self = pre ++ (name, c) :: post ->
     name ∉ post.*1 ->
     let called := check_call c (world_after pre (world self)) in
     exists entry,
       checks rep !! name = Some entry /\
       (res_of called = Ok true ->
          status entry = "healthy" /\ error entry = None) /\
       (res_of called = Ok false ->
          status entry = "unhealthy" /\ error entry = None /\
          overall_status rep = "unhealthy") /\
       (forall e, res_of called = Raise e ->
          status entry = "error" /\ error entry = Some (exn_str e) /\
          overall_status rep = "unhealthy")).
Proof.
  intros run.
  destruct (run_health_checks_unfold self) as (out & Hrun).
  unfold run. rewrite Hrun. unfold res_of, state_of. cbn [fst snd].
  eexists. split; [reflexivity|].
  cbn [health_status overall_status checks].
  assert (Hiff : (if all_pass (health_checks self) (world self)
                  then "healthy" else "unhealthy") = "healthy"
                 <-> all_pass (health_checks self) (world self) = true).
  { destruct (all_pass _ _); split; congruence. }
  split; [reflexivity|]. split; [|split; [|split]].
  - intros n. rewrite results_of_dom. split; [|tauto].
    intros [H|[x H]]; [exact H|]. rewrite lookup_empty in H. discriminate.
  - destruct (all_pass _ _); [left | right]; reflexivity.
  - rewrite Hiff. apply all_pass_iff.
  - intros Hsplit Hnot.
    set (called := check_call c (world_after pre (world self))).
    exists (check_entry c (world_after pre (world self))).
    assert (Hfail : res_of called <> Ok true ->
                    (if all_pass (health_checks self) (world self)
                     then "healthy" else "unhealthy") = "unhealthy").
    { intros Hne. destruct (all_pass _ _) eqn:Hall; [|reflexivity].
      exfalso. apply Hne.
      apply (proj1 (all_pass_iff _ _) Hall pre name c post Hsplit). }
    split.
    + rewrite Hsplit, results_of_app. cbn [results_of].
      rewrite results_of_other by exact Hnot. apply lookup_insert_eq.
    + unfold check_entry, res_of, state_of. fold called.
      split; [|split].
      * intros H. rewrite H. split; reflexivity.
      * intros H. rewrite H. repeat split.
        apply Hfail. unfold res_of. rewrite H. discriminate.
      * intros e H. rewrite H. repeat split.
        apply Hfail. unfold res_of. rewrite H. discriminate.
Qed.

(** C10. With no health check registered, [run_health_checks] returns the
    overall status ["healthy"] and an empty map of results. *)
Theorem run_health_checks_no_checks
    (last_health_check : option string) (health_status : string) (w : W) :
  exists rep,
    res_of (run_health_checks now_isoformat
              (mk [] last_health_check health_status w)) = Ok rep /\
    overall_status rep = "healthy" /\
    checks rep = ∅.
Proof.
  destruct (run_health_checks_unfold (mk [] last_health_check health_status w))
    as (out & ->).
  eexists. split; [reflexivity|]. split; reflexivity.
Qed.

End HealthFacts.

(** Two checks, the second of which raises: both get an entry, the failure
    is captured in the entry and the aggregate is unhealthy. *)
Lemma run_health_checks_aggregate_witness :
  exists rep entry,
    res_of (HealthChecker.run_health_checks (fun _ : unit => "2025-01-01T00:00:00")
              (HealthChecker.mk
                 [("scheduler", HealthChecker.mk_check false (ret true));
                  ("state_file",
                   HealthChecker.mk_check false (raise (Exception "disk")))]
                 None "unknown" tt))
    = Ok rep /\
    HealthChecker.checks rep !! "state_file" = Some entry /\
    HealthChecker.status entry = "error" /\
    HealthChecker.error entry = Some "disk" /\
    HealthChecker.overall_status rep = "unhealthy".
Proof.
  destruct (run_health_checks_aggregate (fun _ : unit => "2025-01-01T00:00:00")
              (HealthChecker.mk
                 [("scheduler", HealthChecker.mk_check false (ret true));
                  ("state_file",
                   HealthChecker.mk_check false (raise (Exception "disk")))]
                 None "unknown" tt)
              [("scheduler", HealthChecker.mk_check false (ret true))] []
              "state_file"
              (HealthChecker.mk_check false (raise (Exception "disk"))))
    as (rep & Hres & _ & _ & _ & _ & H).
  destruct H as (entry & Hentry & _ & _ & Hraise).
  - reflexivity.
  - apply not_elem_of_nil.
  - destruct (Hraise (Exception "disk") eq_refl) as (Hstatus & Herror & Hoverall).
    exists rep, entry. repeat split; assumption.
Defined.

(** ** Graceful shutdown *)

Section ShutdownFacts.

Import ServiceManager.

Context {W : Type}.
Variable now_isoformat : W -> string.
Variable getpid : Z.
Variable write_state_file : string -> state_data -> M W unit.

Abbreviation manager := (ServiceManager.t W).
Abbreviation _save_service_state :=
  (ServiceManager._save_service_state now_isoformat getpid write_state_file).
Abbreviation shutdown :=
  (ServiceManager.shutdown now_isoformat getpid write_state_file).
Abbreviation shutdown_pieces :=
  (ServiceManager.shutdown_pieces now_isoformat getpid write_state_file).

(** A step of the shutdown sequence returns, and only acts on the world and
    on the shutdown event. *)
Definition steady (p : M manager unit) : Prop :=
  forall s, exists w ev out,
    p s = (Ok tt, set_world w (set_shutdown_event ev s), out).

Lemma set_world_id (s : manager) :
  set_world (world s) (set_shutdown_event (shutdown_event s) s) = s.
Proof. destruct s; reflexivity. Qed.

Lemma steady_save (state : string) : steady (_save_service_state state).
Proof.
  intros s. unfold ServiceManager._save_service_state, try_except, mbind, M_bind,
    bind, get_state, zoom, log.
  destruct (write_state_file _ _ (world s)) as [[[[]|e] w] out];
    exists w, (shutdown_event s); eexists; destruct s; reflexivity.
Qed.

Lemma steady_cancel_task (tk : task W) : steady (cancel_task tk).
Proof.
  intros s. unfold cancel_task, mbind, M_bind, bind, get_state, modify, log,
    mret, M_ret, ret.
  destruct (task_done tk (world s)); cbn [negb].
  - exists (world s), (shutdown_event s); eexists. now rewrite set_world_id.
  - cbn [world set_world].
    destruct (task_wait tk (task_cancel tk (world s))) as [r w].
    exists w, (shutdown_event s).
    destruct r; eexists; destruct s; reflexivity.
Qed.

Lemma steady_run_handler (h : handler W) : steady (run_handler h).
Proof.
  intros s. rewrite run_handler_unfold.
  eexists _, (shutdown_event s); eexists. destruct s; reflexivity.
Qed.

Lemma steady_log (lv : level) (msg : string) : steady (log lv msg).
Proof.
  intros s. exists (world s), (shutdown_event s); eexists.
  unfold log. now rewrite set_world_id.
Qed.

Lemma steady_bind (p q : M manager unit) :
  steady p -> steady q -> steady (bind p (fun _ => q)).
Proof.
  intros Hp Hq s.
  destruct (Hp s) as (w1 & ev1 & out1 & H1).
  destruct (Hq (set_world w1 (set_shutdown_event ev1 s))) as (w2 & ev2 & out2 & H2).
  exists w2, ev2; eexists. erewrite run_bind_Ok; [|exact H1|exact H2].
  reflexivity.
Qed.

Lemma steady_set_event (b : bool) : steady (modify (set_shutdown_event b)).
Proof.
  intros s. exists (world s), b; eexists. unfold modify. destruct s; reflexivity.
Qed.

Lemma shutdown_pieces_steady (self : manager) (p : M manager unit) :
  p ∈ shutdown_pieces self -> steady p.
Proof.
  unfold ServiceManager.shutdown_pieces. intros Hin.
  repeat (apply elem_of_app in Hin as [Hin|Hin] || apply elem_of_cons in Hin as [->|Hin]).
  - apply steady_save.
  - apply steady_bind; [apply steady_set_event | apply steady_log].
  - now apply elem_of_nil in Hin.
  - apply list_elem_of_fmap in Hin as (tk & -> & _). apply steady_cancel_task.
  - apply steady_log.
  - now apply elem_of_nil in Hin.
  - apply list_elem_of_fmap in Hin as (h & -> & _). apply steady_run_handler.
  - apply steady_bind; [apply steady_save | apply steady_log].
  - now apply elem_of_nil in Hin.
Qed.

Lemma run_pieces_app (ps qs : list (M manager unit)) :
  forall s,
    run_pieces (ps ++ qs) s = bind (run_pieces ps) (fun _ => run_pieces qs) s.
Proof.
  induction ps as [|p ps IH]; intros s.
  - change (run_pieces ([] ++ qs) s) with (run_pieces qs s). unfold bind.
    change (run_pieces [] s) with (Ok tt, s, @nil log_record). cbv beta iota.
    now destruct (run_pieces qs s) as [[r s'] out].
  - change (run_pieces ((p :: ps) ++ qs) s)
      with (bind p (fun _ => run_pieces (ps ++ qs)) s).
    change (run_pieces (p :: ps)) with (bind p (fun _ => run_pieces ps)).
    unfold bind. destruct (p s) as [[[u|e] s1] l1]; [|reflexivity].
    rewrite IH. unfold bind.
    destruct (run_pieces ps s1) as [[[u'|e] s2] l2]; [|reflexivity].
    destruct (run_pieces qs s2) as [[r s3] l3]. now rewrite app_assoc.
Qed.

Lemma for_each_pieces {A} (xs : list A) (body : A -> M manager unit) :
  forall s, for_each xs body s = run_pieces (map body xs) s.
Proof.
  induction xs as [|x xs IH]; intros s; [reflexivity|].
  change (run_pieces (map body (x :: xs)) s)
    with (bind (body x) (fun _ => run_pieces (map body xs)) s).
  cbn [for_each]. unfold bind.
  destruct (body x s) as [[[u|e] s1] l1]; [|reflexivity].
  now rewrite IH.
Qed.

(** Steady pieces run to the end and keep the manager's own fields. *)
Lemma run_pieces_steady (ps : list (M manager unit)) :
  Forall steady ps ->
  forall s, exists s' out,
    run_pieces ps s = (Ok tt, s', out) /\
    is_shutting_down s' = is_shutting_down s /\
    cleanup_handlers s' = cleanup_handlers s /\
    background_tasks s' = background_tasks s.
Proof.
  induction 1 as [|p ps Hp Hps IH]; intros s.
  - exists s, []. repeat split.
  - destruct (Hp s) as (w & ev & out1 & H1).
    destruct (IH (set_world w (set_shutdown_event ev s)))
      as (s' & out2 & H2 & Hflag & Hhs & Hts).
    exists s'; eexists. split.
    + cbn [run_pieces for_each]. erewrite run_bind_Ok; [|exact H1|exact H2].
      reflexivity.
    + repeat split; assumption.
Qed.

(** *** The guard at the entry of [shutdown] *)

Lemma shutdown_entry_guarded (s : manager) :
  is_shutting_down s = true ->
  shutdown_entry s = (Ok false, s, [shutdown_warning]).
Proof.
  intros H. unfold shutdown_entry, mbind, M_bind, bind, get_state. now rewrite H.
Qed.

Lemma shutdown_entry_fresh (s : manager) :
  is_shutting_down s = false ->
  shutdown_entry s
  = (Ok true, set_is_shutting_down true s,
     [(INFO, "Starting graceful shutdown...")]).
Proof.
  intros H. unfold shutdown_entry, mbind, M_bind, bind, get_state. now rewrite H.
Qed.

(** A call that is never interleaved with another: the entry, then the
    pieces one after the other. *)
Definition alone (pieces : manager -> list (M manager unit)) : M manager unit :=
  go_on ← shutdown_entry;
  if (go_on : bool) then s ← get_state; run_pieces (pieces s) else mret tt.

(** The number of calls that have been resumed at least once. *)
Definition started (cs : list (coroutine W)) : nat :=
  length (List.filter (fun c => match c with Pending => false | _ => true end) cs).

Lemma started_app (cs ds : list (coroutine W)) :
  started (cs ++ ds) = (started cs + started ds)%nat.
Proof. unfold started. now rewrite List.filter_app, length_app. Qed.

Lemma started_one (c : coroutine W) :
  started [c] = match c with Pending => 0%nat | _ => 1%nat end.
Proof. now destruct c. Qed.

Lemma started_insert (cs : list (coroutine W)) (i : nat) (c c' : coroutine W) :
  cs !! i = Some c ->
  (started (<[i := c']> cs) + started [c] = started cs + started [c'])%nat.
Proof.
  intros Hi.
  rewrite insert_take_drop by (eapply lookup_lt_Some; exact Hi).
  pose proof (f_equal started (take_drop_middle cs i c Hi)) as Hcs.
  change (c' :: drop (S i) cs) with ([c'] ++ drop (S i) cs).
  change (c :: drop (S i) cs) with ([c] ++ drop (S i) cs) in Hcs.
  rewrite !started_app in *. lia.
Qed.

Lemma started_insert_pending (cs : list (coroutine W)) (i : nat) (c : coroutine W) :
  cs !! i = Some Pending -> c <> Pending ->
  started (<[i := c]> cs) = S (started cs).
Proof.
  intros Hi Hc. pose proof (started_insert cs i Pending c Hi) as H.
  rewrite !started_one in H. destruct c; [congruence | | |]; lia.
Qed.

Lemma started_insert_other (cs : list (coroutine W)) (i : nat) (c c' : coroutine W) :
  cs !! i = Some c -> c <> Pending -> c' <> Pending ->
  started (<[i := c']> cs) = started cs.
Proof.
  intros Hi Hc Hc'. pose proof (started_insert cs i c c' Hi) as H.
  rewrite !started_one in H.
  destruct c; [congruence | | |]; (destruct c'; [congruence | | |]); lia.
Qed.

Lemma started_pos (cs : list (coroutine W)) (i : nat) (c : coroutine W) :
  cs !! i = Some c -> c <> Pending -> (0 < started cs)%nat.
Proof.
  intros Hi Hc.
  pose proof (f_equal started (take_drop_middle cs i c Hi)) as Hcs.
  change (c :: drop (S i) cs) with ([c] ++ drop (S i) cs) in Hcs.
  rewrite !started_app, started_one in Hcs. destruct c; [congruence | | |]; lia.
Qed.

Lemma started_all (cs : list (coroutine W)) :
  Forall (fun c => c <> Pending) cs -> started cs = length cs.
Proof.
  induction 1 as [|c cs Hc Hcs IH]; [reflexivity|].
  unfold started in *. cbn [List.filter].
  destruct c; [congruence | | |]; cbn [length]; now rewrite IH.
Qed.

Lemma started_none (n : nat) : started (replicate n Pending) = 0%nat.
Proof. induction n as [|n IH]; [reflexivity | exact IH]. Qed.

Lemma after_piece_not_pending (rest : list (M manager unit)) :
  after_piece rest <> Pending.
Proof. destruct rest; discriminate. Qed.

(** *** Any interleaving of [n] calls on a manager that is not shutting down *)

Section Guard.

(** The cut of the shutdown sequence into atomic pieces. The argument below
    uses only that every piece is steady, so it holds for [shutdown_pieces]
    and for any finer cut of the same sequence. *)
Variable pieces : manager -> list (M manager unit).
Hypothesis pieces_steady : forall s p, p ∈ pieces s -> steady p.

Variable self0 : manager.
Hypothesis fresh : is_shutting_down self0 = false.
Variable n : nat.

Definition entered : manager := set_is_shutting_down true self0.
Definition entry_log : list log_record := [(INFO, "Starting graceful shutdown...")].

(** The call that passed the guard has run its first [k] pieces. *)
Definition progress (k : nat) : result unit * manager * list log_record :=
  run_pieces (take k (pieces entered)) entered.

Lemma progress_steady (k : nat) :
  exists s out,
    progress k = (Ok tt, s, out) /\ is_shutting_down s = true.
Proof.
  destruct (run_pieces_steady (take k (pieces entered))) with (s := entered)
    as (s & out & H & Hflag & _).
  - apply Forall_take, Forall_forall. intros p Hp.
    apply (pieces_steady entered). exact Hp.
  - exists s, out. split; [exact H|]. rewrite Hflag. reflexivity.
Qed.

Lemma progress_S (k : nat) (p : M manager unit) :
  pieces entered !! k = Some p ->
  exists s out,
    p (state_of (progress k)) = (Ok tt, s, out) /\
    progress (S k) = (Ok tt, s, logs_of (progress k) ++ out).
Proof.
  intros Hk.
  destruct (progress_steady k) as (sk & outk & Hprog & _).
  destruct (pieces_steady entered p) with (s := sk) as (w & ev & out & Hp).
  { eapply list_elem_of_lookup_2; exact Hk. }
  unfold progress in *. rewrite (take_S_r _ _ _ Hk), run_pieces_app.
  rewrite Hprog. unfold state_of, logs_of. cbn [fst snd].
  eexists _, out. split; [exact Hp|].
  erewrite run_bind_Ok; [reflexivity | exact Hprog |].
  change (run_pieces [p]) with (bind p (fun _ => ret tt)).
  erewrite run_bind_Ok; [|exact Hp|reflexivity]. now rewrite app_nil_r.
Qed.

(** Either no call has started, or exactly one call has passed the guard and
    has run some prefix of the pieces, and every other call that has started
    returned at the guard with a warning. *)
Definition guard_invariant (l : loop W) : Prop :=
  length (calls l) = n /\
  ((Forall (fun c => c = Pending) (calls l) /\ shared l = self0 /\ written l = [])
   \/
   (exists j k,
      calls l !! j = Some (after_piece (drop k (pieces entered))) /\
      (forall i c, i <> j -> calls l !! i = Some c -> c = Pending \/ c = Returned) /\
      shared l = state_of (progress k) /\
      (entry_log ++ logs_of (progress k)) `sublist_of` written l /\
      written l ≡ₚ (entry_log ++ logs_of (progress k))
                   ++ replicate (started (calls l) - 1) shutdown_warning)).

Lemma guard_invariant_spawn : guard_invariant (spawn n self0).
Proof.
  split; [apply length_replicate|]. left. cbn. repeat split.
  apply Forall_forall. intros c Hc. now apply elem_of_replicate in Hc.
Qed.

Lemma guard_invariant_resume (i : nat) (l : loop W) :
  guard_invariant l -> guard_invariant (resume pieces i l).
Proof.
  intros [Hlen Hinv]. unfold resume.
  destruct (calls l !! i) as [c|] eqn:Hi; [|split; assumption].
  destruct Hinv as [(Hall & Hshared & Hwritten) | (j & k & Hj & Hothers & Hshared & Hsub & Hperm)].
  - (* the first call to run passes the guard *)
    assert (c = Pending) as ->.
    { rewrite Forall_forall in Hall. apply Hall. eapply list_elem_of_lookup_2; eauto. }
    rewrite Hshared, (shutdown_entry_fresh self0 fresh).
    split; [cbn [calls]; now rewrite length_insert|].
    right. exists i, 0%nat. cbn [calls shared written].
    rewrite Hwritten. cbn [drop app].
    assert (Hp0 : progress 0 = (Ok tt, entered, [])) by reflexivity.
    rewrite Hp0. unfold state_of, logs_of. cbn [fst snd].
    repeat split.
    + apply list_lookup_insert_eq. eapply lookup_lt_Some; exact Hi.
    + intros i' c' Hne Hc'. rewrite list_lookup_insert_ne in Hc' by congruence.
      left. rewrite Forall_forall in Hall. apply Hall.
      eapply list_elem_of_lookup_2; eauto.
    + reflexivity.
    + rewrite (started_insert_pending _ _ _ Hi (after_piece_not_pending _)).
      assert (Hzero : started (calls l) = 0%nat).
      { clear -Hall. induction Hall as [|c cs -> _ IH]; [reflexivity | exact IH]. }
      rewrite Hzero. cbn. rewrite ?app_nil_r. reflexivity.
  - destruct (progress_steady k) as (sk & outk & Hprog & Hflag).
    rewrite Hprog in Hshared, Hsub, Hperm.
    unfold state_of, logs_of in Hshared, Hsub, Hperm. cbn [fst snd] in *.
    destruct (decide (i = j)) as [->|Hne].
    + (* the call that passed the guard runs its next piece *)
      rewrite Hi in Hj. injection Hj as ->.
      destruct (drop k (pieces entered)) as [|p rest] eqn:Hdrop; cbn [after_piece].
      { split; [assumption|]. right. exists j, k.
        rewrite Hdrop, Hprog. cbn [after_piece].
        unfold state_of, logs_of. cbn [fst snd]. repeat split; assumption. }
      assert (Hk : pieces entered !! k = Some p).
      { rewrite <- (Nat.add_0_r k), <- lookup_drop, Hdrop. reflexivity. }
      destruct (progress_S k p Hk) as (s' & out & Hp & HprogS).
      rewrite Hprog in Hp, HprogS. unfold state_of, logs_of in Hp, HprogS.
      cbn [fst snd] in Hp, HprogS. rewrite Hshared, Hp.
      assert (Hrest : rest = drop (S k) (pieces entered)).
      { rewrite (drop_S _ _ _ Hk) in Hdrop. congruence. }
      split; [cbn [calls]; now rewrite length_insert|].
      right. exists j, (S k). cbn [calls shared written].
      rewrite HprogS. unfold state_of, logs_of. cbn [fst snd].
      repeat split.
      * rewrite <- Hrest. apply list_lookup_insert_eq. eapply lookup_lt_Some; exact Hi.
      * intros i' c' Hne Hc'. rewrite list_lookup_insert_ne in Hc' by congruence.
        eapply Hothers; eauto.
      * rewrite app_assoc. apply sublist_app; [exact Hsub | reflexivity].
      * rewrite (started_insert_other _ _ (Suspended (p :: rest)) _ Hi)
          by (discriminate || apply after_piece_not_pending).
        rewrite Hperm. rewrite (app_assoc entry_log).
        rewrite <- !app_assoc. do 2 apply Permutation_app_head.
        apply Permutation_app_comm.
    + (* another call arrives at the guard *)
      destruct (Hothers i c Hne Hi) as [-> | ->]; [|split; [assumption|]].
      * rewrite Hshared, (shutdown_entry_guarded sk Hflag).
        split; [cbn [calls]; now rewrite length_insert|].
        right. exists j, k. cbn [calls shared written].
        rewrite Hprog. unfold state_of, logs_of. cbn [fst snd].
        repeat split.
        -- rewrite list_lookup_insert_ne by congruence. exact Hj.
        -- intros i' c' Hne' Hc'.
           destruct (decide (i' = i)) as [->|Hne''].
           ++ rewrite list_lookup_insert_eq in Hc'
                by (eapply lookup_lt_Some; exact Hi).
              right. congruence.
           ++ rewrite list_lookup_insert_ne in Hc' by congruence.
              eapply Hothers; eauto.
        -- now apply sublist_inserts_r.
        -- rewrite (started_insert_pending _ _ _ Hi) by discriminate.
           pose proof (started_pos _ _ _ Hj (after_piece_not_pending _)) as Hpos.
           rewrite Hperm.
           replace (S (started (calls l)) - 1)%nat
             with (S (started (calls l) - 1)) by lia.
           cbn [replicate]. rewrite <- !app_assoc.
           do 2 apply Permutation_app_head.
           symmetry. apply Permutation_cons_append.
      * right. exists j, k. rewrite Hprog.
        unfold state_of, logs_of. cbn [fst snd]. repeat split; assumption.
Qed.

Lemma guard_invariant_run (schedule : list nat) :
  forall l, guard_invariant l -> guard_invariant (run_schedule pieces schedule l).
Proof.
  induction schedule as [|i schedule IH]; intros l Hl; [exact Hl|].
  cbn. apply IH. now apply guard_invariant_resume.
Qed.

Lemma alone_fresh :
  alone pieces self0
  = (Ok tt, state_of (progress (length (pieces entered))),
     entry_log ++ logs_of (progress (length (pieces entered)))).
Proof.
  destruct (progress_steady (length (pieces entered))) as (s & out & Hprog & _).
  rewrite Hprog. unfold progress in Hprog. rewrite firstn_all in Hprog.
  eassert (H : alone pieces self0 = _).
  { unfold alone. run_ok; [apply shutdown_entry_fresh; exact fresh|].
    cbn iota. run_ok; [reflexivity | exact Hprog]. }
  rewrite H. reflexivity.
Qed.

(** At every point of every schedule the manager is untouched, or in the state
    that one call reaches after the entry and some of its pieces, and the log
    holds the records of that one call and warnings. *)
Lemma guard_invariant_prefix (l : loop W) :
  guard_invariant l ->
  (shared l = self0 /\ written l = []) \/
  (exists k warnings,
     shared l = state_of (progress k) /\
     written l ≡ₚ (entry_log ++ logs_of (progress k))
                  ++ replicate warnings shutdown_warning).
Proof.
  intros [_ [(_ & H & Hw) | (j & k & _ & _ & H & _ & Hperm)]].
  - left. split; assumption.
  - right. exists k, (started (calls l) - 1)%nat. split; assumption.
Qed.

(** Once every call has finished, the sequence has run exactly once. *)
Lemma guard_invariant_finished (l : loop W) :
  guard_invariant l ->
  (0 < n)%nat ->
  Forall (fun c => finished c = true) (calls l) ->
  Forall (fun c => c = Returned) (calls l) /\
  shared l = state_of (alone pieces self0) /\
  logs_of (alone pieces self0) `sublist_of` written l /\
  written l ≡ₚ logs_of (alone pieces self0) ++ replicate (n - 1) shutdown_warning.
Proof.
  intros [Hlen Hinv] Hn Hfin. rewrite Forall_forall in Hfin.
  destruct Hinv as [(Hall & _) | (j & k & Hj & Hothers & Hshared & Hsub & Hperm)].
  - exfalso. destruct (calls l) as [|c cs]; [cbn in Hlen; lia|].
    inversion Hall as [|? ? Hc _]; subst.
    specialize (Hfin Pending (list_elem_of_here _ _)). discriminate.
  - assert (Hdrop : drop k (pieces entered) = []).
    { destruct (drop k (pieces entered)) as [|p rest] eqn:E; [reflexivity|].
      specialize (Hfin _ (list_elem_of_lookup_2 _ _ _ Hj)). discriminate. }
    assert (Hk : progress k = progress (length (pieces entered))).
    { unfold progress. rewrite firstn_all.
      rewrite <- (take_drop k (pieces entered)) at 2.
      now rewrite Hdrop, app_nil_r. }
    rewrite Hdrop in Hj. cbn [after_piece] in Hj.
    assert (Hreturned : Forall (fun c => c = Returned) (calls l)).
    { apply Forall_forall. intros c Hc.
      apply list_elem_of_lookup_1 in Hc as [i Hi].
      destruct (decide (i = j)) as [->|Hne]; [congruence|].
      destruct (Hothers i c Hne Hi) as [-> | ->]; [|reflexivity].
      specialize (Hfin _ (list_elem_of_lookup_2 _ _ _ Hi)). discriminate. }
    assert (Hstarted : started (calls l) = n).
    { rewrite <- Hlen. apply started_all.
      eapply Forall_impl; [exact Hreturned|]. intros c ->. discriminate. }
    rewrite alone_fresh. unfold logs_of at 1 3, state_of at 1. cbn [fst snd].
    rewrite <- Hk, <- Hstarted. repeat split; assumption.
Qed.

End Guard.

(** *** [shutdown] and its cut into pieces *)

(** A call that finds a shutdown in progress, or completed, changes nothing
    and logs the warning. *)
Lemma shutdown_guarded (self : manager) :
  is_shutting_down self = true ->
  shutdown self = (Ok tt, self, [shutdown_warning]).
Proof.
  intros H. unfold ServiceManager.shutdown, mbind, M_bind, bind, get_state.
  now rewrite H.
Qed.

(** Run without interleaving, the pieces are the source's [shutdown]. *)
Lemma shutdown_alone (self : manager) :
  shutdown self = alone shutdown_pieces self.
Proof.
  destruct (is_shutting_down self) eqn:Hflag.
  - rewrite (shutdown_guarded self Hflag).
    eassert (H : alone shutdown_pieces self = _).
    { unfold alone. run_ok; [apply shutdown_entry_guarded; exact Hflag|].
      reflexivity. }
    rewrite H. reflexivity.
  - set (s1 := set_is_shutting_down true self).
    destruct (steady_save "shutting_down" s1) as (w2 & ev2 & l2 & H2).
    set (s3 := set_shutdown_event true (set_world w2 (set_shutdown_event ev2 s1))).
    destruct (run_pieces_steady (map cancel_task (background_tasks self)))
      with (s := s3) as (s4 & l4 & H4 & _ & Hh4 & _).
    { apply Forall_forall. intros p Hp.
      apply list_elem_of_fmap in Hp as (tk & -> & _). apply steady_cancel_task. }
    destruct (run_pieces_steady (map run_handler (cleanup_handlers self)))
      with (s := s4) as (s5 & l5 & H5 & _).
    { apply Forall_forall. intros p Hp.
      apply list_elem_of_fmap in Hp as (h & -> & _). apply steady_run_handler. }
    destruct (steady_save "stopped" s5) as (w6 & ev6 & l6 & H6).
    eassert (HL : shutdown self = (Ok tt, _, _)).
    { unfold ServiceManager.shutdown.
      run_ok; [reflexivity|]. rewrite Hflag.
      run_ok; [reflexivity|]. run_ok; [reflexivity|].
      run_ok; [exact H2|]. run_ok; [reflexivity|].
      run_ok.
      { unfold _cancel_background_tasks.
        run_ok; [reflexivity|]. run_ok; [reflexivity|].
        rewrite for_each_pieces. exact H4. }
      run_ok.
      { unfold _run_cleanup_handlers.
        run_ok; [reflexivity|]. rewrite Hh4.
        run_ok; [reflexivity|].
        rewrite for_each_pieces. exact H5. }
      run_ok; [exact H6|]. reflexivity. }
    eassert (HR : alone shutdown_pieces self = (Ok tt, _, _)).
    { unfold alone.
      run_ok; [apply shutdown_entry_fresh; exact Hflag|]. cbn iota.
      run_ok; [reflexivity|].
      unfold ServiceManager.shutdown_pieces. rewrite run_pieces_app.
      run_ok.
      { change (run_pieces [?a; ?b]) with (bind a (fun _ => bind b (fun _ => ret tt))).
        run_ok; [exact H2|]. run_ok; [|reflexivity].
        run_ok; reflexivity. }
      rewrite run_pieces_app. run_ok; [exact H4|].
      rewrite run_pieces_app. run_ok.
      { change (run_pieces [?a]) with (bind a (fun _ => ret tt)).
        run_ok; reflexivity. }
      rewrite run_pieces_app. run_ok; [exact H5|].
      change (run_pieces [?a]) with (bind a (fun _ => ret tt)).
      run_ok; [|reflexivity]. run_ok; [exact H6|reflexivity]. }
    rewrite HL, HR. f_equal.
    cbn [app]. rewrite ?app_nil_r, <- ?app_assoc. cbn [app].
    reflexivity.
Qed.

(** [shutdown] never raises and leaves the guard set. *)
Lemma shutdown_returns (self : manager) :
  exists s out,
    shutdown self = (Ok tt, s, out) /\ is_shutting_down s = true.
Proof.
  destruct (is_shutting_down self) eqn:Hflag.
  - exists self; eexists. split; [now apply shutdown_guarded | exact Hflag].
  - rewrite shutdown_alone.
    rewrite (alone_fresh shutdown_pieces shutdown_pieces_steady self Hflag).
    destruct (progress_steady shutdown_pieces shutdown_pieces_steady self
                (length (shutdown_pieces (entered self))))
      as (s & out & -> & Hs).
    exists s; eexists. split; [reflexivity | exact Hs].
Qed.

(** Calls made one after the other on a manager whose shutdown has started
    change nothing and log one warning each. *)
Lemma shutdown_repeated (m : nat) (self : manager) :
  is_shutting_down self = true ->
  for_each (replicate m tt) (fun _ => shutdown) self
  = (Ok tt, self, replicate m shutdown_warning).
Proof.
  intros Hflag. induction m as [|m IH]; [reflexivity|].
  cbn [replicate for_each].
  erewrite run_bind_Ok; [|apply shutdown_guarded; exact Hflag|exact IH].
  reflexivity.
Qed.

(** C3. [shutdown] never raises and leaves [is_shutting_down] set. A call
    made while a shutdown is in progress or completed returns at once: it
    changes nothing and logs the warning; so any number of further calls after
    a first one leave the state of that first call and log one warning each.
    For [n] calls of [shutdown] created on a manager that is not shutting down
    and resumed by the event loop in any order: at every point the manager is
    either untouched or in the state that a single call reaches after the
    entry and some prefix of the sequence (persist shutting_down, set the
    event, cancel the tasks, run the handlers, persist stopped), and the log
    holds the records of that single prefix and warnings; and once all
    calls have finished, every call has returned, the manager is in the state
    that one call of [shutdown] leaves, and the log is the log of that one call
    with [n - 1] warnings interleaved: the sequence ran exactly once. *)
Theorem shutdown_runs_once (self : manager) (n m : nat) (schedule : list nat) :
  let l := run_schedule shutdown_pieces schedule (spawn n self) in
  let first := shutdown self in
  (res_of first = Ok tt /\ is_shutting_down (state_of first) = true) /\
  (is_shutting_down self = true ->
     shutdown self = (Ok tt, self, [shutdown_warning])) /\
  for_each (replicate m tt) (fun _ => shutdown) (state_of first)
  = (Ok tt, state_of first, replicate m shutdown_warning) /\
  (is_shutting_down self = false ->
     (shared l = self /\ written l = []) \/
     (exists k warnings,
        let prefix :=
          run_pieces (take k (shutdown_pieces (set_is_shutting_down true self)))
                     (set_is_shutting_down true self) in
        shared l = state_of prefix /\
        written l ≡ₚ ((INFO, "Starting graceful shutdown...") :: logs_of prefix)
                     ++ replicate warnings shutdown_warning)) /\
  (is_shutting_down self = false ->
   (0 < n)%nat ->
   Forall (fun c => finished c = true) (calls l) ->
     Forall (fun c => c = Returned) (calls l) /\
     shared l = state_of first /\
     logs_of first `sublist_of` written l /\
     written l ≡ₚ logs_of first ++ replicate (n - 1) shutdown_warning).
Proof.
  intros l first.
  destruct (shutdown_returns self) as (s & out & Hfirst & Hflag).
  split; [|split; [|split; [|split]]].
  - unfold first. rewrite Hfirst. split; [reflexivity | exact Hflag].
  - apply shutdown_guarded.
  - unfold first. rewrite Hfirst. unfold state_of. cbn [fst snd].
    now apply shutdown_repeated.
  - intros Hfresh.
    apply (guard_invariant_prefix shutdown_pieces self n).
    apply (guard_invariant_run shutdown_pieces shutdown_pieces_steady self Hfresh).
    apply guard_invariant_spawn.
  - intros Hfresh Hn Hfin. unfold first. rewrite shutdown_alone.
    apply (guard_invariant_finished shutdown_pieces shutdown_pieces_steady
             self Hfresh n); [|exact Hn|exact Hfin].
    apply (guard_invariant_run shutdown_pieces shutdown_pieces_steady self Hfresh).
    apply guard_invariant_spawn.
Qed.

End ShutdownFacts.

(** Three calls of [shutdown] on a manager with two cleanup handlers, resumed
    in the order 1, 0, 1, 1, 2, 1, 1, 1, 1: call 1 passes the guard and runs
    the sequence, calls 0 and 2 find the guard set. *)
Lemma shutdown_runs_once_witness :
  ServiceManager.shared
    (ServiceManager.run_schedule
       (ServiceManager.shutdown_pieces (fun _ => "2025-01-01T00:00:00") 1
          (fun _ _ => ret tt))
       [1; 0; 1; 1; 2; 1; 1; 1; 1]%nat
       (ServiceManager.spawn 3
          (ServiceManager.mk false
             [recording_handler "a" false; recording_handler "b" true]
             [] false None "service_state.json" [])))
  = state_of
      (ServiceManager.shutdown (fun _ => "2025-01-01T00:00:00") 1
         (fun _ _ => ret tt)
         (ServiceManager.mk false
            [recording_handler "a" false; recording_handler "b" true]
            [] false None "service_state.json" [])).
Proof.
  destruct (shutdown_runs_once (fun _ => "2025-01-01T00:00:00") 1
              (fun _ _ => ret tt)
              (ServiceManager.mk false
                 [recording_handler "a" false; recording_handler "b" true]
                 [] false None "service_state.json" [])
              3 0 [1; 0; 1; 1; 2; 1; 1; 1; 1]%nat) as (_ & _ & _ & _ & H).
  destruct H as (_ & Hshared & _).
  - reflexivity.
  - lia.
  - vm_compute. repeat constructor.
  - exact Hshared.
Defined.

(** * Further properties of the code *)

(** ** The window of [RateLimiter] over time *)

Section RateLimiterWindow.

Import RateLimiter.

Variable fromtimestamp_isoformat : Z -> string.

Lemma evict_length (threshold : Q) (d : list Q) :
  (length (evict threshold d) <= length d)%nat.
Proof.
  destruct (evict_split threshold d) as (expired & Heq & _).
  rewrite Heq at 2. rewrite length_app. lia.
Qed.

(** With a positive window and a clock that has not gone back: after a call
    the identifier's deque is in time order and every instant it holds lies in
    the window [(now - window_seconds, now]]. *)
Theorem is_allowed_window_invariant (identifier : string) (now : Q) (self : t) :
  0 < window_seconds self ->
  time_ordered (deque_of self identifier) ->
  Forall (fun t => (t <= now)%Q) (deque_of self identifier) ->
  let d' :=
    deque_of (state_of (is_allowed fromtimestamp_isoformat identifier now self))
             identifier in
  time_ordered d' /\
  Forall (fun t => (now - inject_Z (window_seconds self) < t /\ t <= now)%Q) d'.
Proof.
  intros Hw Hs Hle d'. split.
  - now apply is_allowed_time_ordered.
  - subst d'.
    destruct (is_allowed_unfold fromtimestamp_isoformat identifier now self)
      as (info & out & -> & _).
    unfold state_of, deque_of at 1. cbn [fst snd requests].
    rewrite lookup_insert_eq. cbn [default from_option id].
    set (th := (now - inject_Z (window_seconds self))%Q).
    pose proof (evict_kept_in_window th _ Hs) as Hin.
    destruct (evict_split th (deque_of self identifier)) as (expired & Heq & _).
    assert (Hkle : Forall (fun t => (t <= now)%Q) (evict th (deque_of self identifier))).
    { rewrite Heq in Hle. apply Forall_app in Hle. tauto. }
    assert (Hkept : Forall (fun t => (th < t /\ t <= now)%Q)
                      (evict th (deque_of self identifier))).
    { rewrite Forall_forall in *. intros t Ht. split; auto. }
    destruct (_ <? _); [|exact Hkept].
    apply Forall_app. split; [exact Hkept|].
    constructor; [|constructor]. split; [|apply Qle_refl].
    unfold th. assert (0 < inject_Z (window_seconds self))%Q.
    { change 0%Q with (inject_Z 0). rewrite <- Zlt_Qlt. exact Hw. }
    lra.
Qed.

(** Whatever the instants of a series of checks, the identifier's deque never
    grows beyond the larger of its length before the series and
    [max_requests]: a limiter that starts empty never holds more than
    [max_requests] instants per identifier. *)
Theorem check_all_deque_bounded (identifier : string) (nows : list Q) :
  forall self : t,
    Z.of_nat (length (deque_of (snd (check_all fromtimestamp_isoformat
                                       identifier nows self)) identifier))
    <= Z.max (Z.of_nat (length (deque_of self identifier))) (max_requests self).
Proof.
  induction nows as [|now nows IH]; intros self; [cbn; lia|].
  cbn [check_all].
  destruct (is_allowed_unfold fromtimestamp_isoformat identifier now self)
    as (info & out & -> & _).
  cbn beta iota zeta.
  set (kept := evict _ (deque_of self identifier)).
  set (self1 := mk _ _ _).
  specialize (IH self1).
  destruct (check_all fromtimestamp_isoformat identifier nows self1) as [ds s2].
  cbn [snd] in *.
  assert (H1 : Z.of_nat (length (deque_of self1 identifier))
               <= Z.max (Z.of_nat (length (deque_of self identifier)))
                        (max_requests self)).
  { unfold self1, deque_of at 1. cbn [requests]. rewrite lookup_insert_eq.
    cbn [default from_option id].
    pose proof (evict_length (now - inject_Z (window_seconds self))
                  (deque_of self identifier)) as Hk. fold kept in Hk.
    destruct (Z.ltb_spec (Z.of_nat (length kept)) (max_requests self)).
    - rewrite length_app. cbn [length]. lia.
    - lia. }
  cbn [max_requests self1] in IH. lia.
Qed.

(** The [remaining] that a call reports is the free capacity of the window
    after the call: [max(0, limit - len(deque))]; a rejected call reports 0 and
    leaves the deque as the eviction left it. *)
Theorem is_allowed_remaining_capacity (identifier : string) (now : Q) (self : t) :
  exists allowed info self' out,
    is_allowed fromtimestamp_isoformat identifier now self
    = (Ok (allowed, info), self', out) /\
    remaining info
    = Z.max 0 (max_requests self - Z.of_nat (length (deque_of self' identifier))) /\
    0 <= remaining info /\
    (if allowed then remaining info < max_requests self
     else remaining info = 0 /\
          deque_of self' identifier
          = evict (now - inject_Z (window_seconds self))
                  (deque_of self identifier)).
Proof.
  destruct (is_allowed_unfold fromtimestamp_isoformat identifier now self)
    as (info & out & Hrun & _ & Hrem & _).
  eexists _, info, _, out. split; [exact Hrun|].
  set (kept := evict _ (deque_of self identifier)) in *.
  assert (Hd' : forall m w (x : list Q),
            deque_of (mk m w (<[identifier := x]> (requests self))) identifier = x).
  { intros m w x. unfold deque_of. cbn [requests]. now rewrite lookup_insert_eq. }
  rewrite !Hd', Hrem.
  destruct (Z.ltb_spec (Z.of_nat (length kept)) (max_requests self)).
  - rewrite length_app. cbn [length]. repeat split; lia.
  - repeat split; lia.
Qed.

End RateLimiterWindow.

(** A deque holding the instants 0 and 1, checked at instant 61 with a window
    of 60 seconds: the instants 0 and 1 are evicted and 61 is retained. *)
Lemma is_allowed_window_invariant_witness :
  time_ordered
    (RateLimiter.deque_of
       (state_of (RateLimiter.is_allowed (fun _ => "") "A" 61%Q
                    (RateLimiter.mk 5 60 {["A" := [0; 1]%Q]}))) "A") /\
  Forall (fun t => (61 - inject_Z 60 < t /\ t <= 61)%Q)
    (RateLimiter.deque_of
       (state_of (RateLimiter.is_allowed (fun _ => "") "A" 61%Q
                    (RateLimiter.mk 5 60 {["A" := [0; 1]%Q]}))) "A").
Proof.
  apply (is_allowed_window_invariant (fun _ => "") "A" 61%Q
           (RateLimiter.mk 5 60 {["A" := [0; 1]%Q]})).
  - reflexivity.
  - repeat constructor; discriminate.
  - repeat constructor; discriminate.
Defined.

(** ** The history and the limit of [AdaptiveRateLimiter] *)

Section AdaptiveHistory.

Import AdaptiveRateLimiter.

Variable format_float : nat -> Q -> string.

(** The last [maxlen] elements of a list. *)
Definition most_recent (xs : list Q) : list Q := drop (length xs - maxlen) xs.

(** The load scores of a series of reports, oldest first. *)
Definition load_scores (inputs : list (Q * Q * Q)) : list Q :=
  map (fun '(cpu, mem, _) => ((cpu + mem) / 2)%Q) inputs.

Lemma most_recent_short (xs : list Q) :
  (length xs <= maxlen)%nat -> most_recent xs = xs.
Proof.
  intros H. unfold most_recent.
  replace (length xs - maxlen)%nat with 0%nat by lia. reflexivity.
Qed.

Lemma most_recent_length (xs : list Q) : (length (most_recent xs) <= maxlen)%nat.
Proof. unfold most_recent. rewrite length_drop. lia. Qed.

Lemma deque_append_most_recent (xs : list Q) (x : Q) :
  deque_append (most_recent xs) x = most_recent (xs ++ [x]).
Proof.
  unfold deque_append.
  destruct (Nat.ltb_spec (length (most_recent xs)) maxlen) as [Hlt|Hge].
  - unfold most_recent in *. rewrite length_drop in Hlt.
    rewrite length_app. cbn [length].
    replace (length xs - maxlen)%nat with 0%nat by lia.
    replace (length xs + 1 - maxlen)%nat with 0%nat by lia.
    reflexivity.
  - unfold most_recent in *. rewrite length_drop in Hge.
    rewrite length_app. cbn [length]. unfold maxlen in *.
    replace (length xs + 1 - 10)%nat with (length xs - 10 + 1)%nat by lia.
    rewrite drop_app_le by lia.
    f_equal. rewrite <- drop_drop.
    now destruct (drop (length xs - 10) xs).
Qed.

Lemma updates_load_samples (inputs : list (Q * Q * Q)) :
  forall (self : t) (earlier : list Q),
    load_samples self = most_recent earlier ->
    load_samples (state_of (updates format_float inputs self))
    = most_recent (earlier ++ load_scores inputs).
Proof.
  induction inputs as [|[[cpu mem] now] inputs IH]; intros self earlier Hs.
  - cbn. now rewrite app_nil_r.
  - unfold updates. cbn [for_each]. unfold bind.
    destruct (update_system_load_unfold format_float cpu mem now self)
      as (out & ->).
    set (self1 := if Qlt_bool 30 _ then _ else _).
    assert (H1 : load_samples self1
                 = most_recent (earlier ++ [((cpu + mem) / 2)%Q])).
    { unfold self1. rewrite <- deque_append_most_recent, <- Hs.
      now destruct (Qlt_bool 30 _). }
    specialize (IH self1 _ H1). unfold updates, state_of in IH.
    destruct (for_each inputs _ self1) as [[r s2] l2].
    unfold state_of. cbn [fst snd] in *. rewrite IH.
    cbn [load_scores map]. now rewrite <- app_assoc.
Qed.

(** After any series of load reports to a new limiter, the history holds the
    load scores of the ten most recent reports, oldest first, and of all of
    them when there were fewer than ten. *)
Theorem load_samples_are_most_recent
    (base_limit window_seconds : Z) (t0 : Q) (inputs : list (Q * Q * Q)) :
  load_samples
    (state_of (updates format_float inputs (init base_limit window_seconds t0)))
  = drop (length inputs - 10) (load_scores inputs) /\
  (length (load_samples
             (state_of (updates format_float inputs
                          (init base_limit window_seconds t0)))) <= 10)%nat.
Proof.
  pose proof (updates_load_samples inputs (init base_limit window_seconds t0) []
                eq_refl) as H.
  cbn [app] in H. rewrite H. split.
  - unfold most_recent, load_scores, maxlen. now rewrite length_map.
  - apply most_recent_length.
Qed.

Lemma py_int_comp (x y : Q) : (x == y)%Q -> py_int x = py_int y.
Proof.
  intros H. unfold py_int.
  rewrite (Qleb_comp 0%Q 0%Q (Qeq_refl 0%Q) x y H).
  now rewrite (Qfloor_comp x y H), (Qceiling_comp x y H).
Qed.

(** The limit of the inner limiter follows the multiplier, and an adjustment
    leaves the admission records of the inner limiter alone. *)
Definition limit_tracks_multiplier (self : t) : Prop :=
  RateLimiter.max_requests (rate_limiter self)
  = py_int (inject_Z (base_limit self) * current_multiplier self).

Lemma updates_inner_limiter (inputs : list (Q * Q * Q)) :
  forall self : t,
    limit_tracks_multiplier self ->
    let final := state_of (updates format_float inputs self) in
    limit_tracks_multiplier final /\
    base_limit final = base_limit self /\
    RateLimiter.requests (rate_limiter final)
    = RateLimiter.requests (rate_limiter self) /\
    RateLimiter.window_seconds (rate_limiter final)
    = RateLimiter.window_seconds (rate_limiter self).
Proof.
  induction inputs as [|[[cpu mem] now] inputs IH]; intros self H.
  - cbn. repeat split. exact H.
  - unfold updates. cbn [for_each]. unfold bind.
    destruct (update_system_load_unfold format_float cpu mem now self)
      as (out & ->).
    set (self1 := if Qlt_bool 30 _ then _ else _).
    assert (H1 : limit_tracks_multiplier self1 /\
                 base_limit self1 = base_limit self /\
                 RateLimiter.requests (rate_limiter self1)
                 = RateLimiter.requests (rate_limiter self) /\
                 RateLimiter.window_seconds (rate_limiter self1)
                 = RateLimiter.window_seconds (rate_limiter self)).
    { unfold self1, limit_tracks_multiplier.
      destruct (Qlt_bool 30 _); cbn; repeat split. exact H. }
    destruct H1 as (Ht & Hb & Hr & Hw).
    specialize (IH self1 Ht). unfold updates, state_of in IH.
    destruct (for_each inputs _ self1) as [[r s2] l2].
    unfold state_of. cbn [fst snd] in *.
    destruct IH as (IH1 & IH2 & IH3 & IH4).
    repeat split; congruence.
Qed.

(** For a limiter created with a base limit that is not negative, after any
    series of load reports: the effective limit is
    [int(base_limit * multiplier)] and lies between half the base limit
    (rounded down) and twice the base limit; the admission records and the
    window of the inner limiter are as they were created. *)
Theorem adaptive_limit_bounds
    (base_limit window_seconds : Z) (t0 : Q) (inputs : list (Q * Q * Q)) :
  0 <= base_limit ->
  let final :=
    state_of (updates format_float inputs (init base_limit window_seconds t0)) in
  RateLimiter.max_requests (rate_limiter final)
  = py_int (inject_Z base_limit * current_multiplier final) /\
  base_limit / 2 <= RateLimiter.max_requests (rate_limiter final) <= 2 * base_limit /\
  RateLimiter.requests (rate_limiter final) = ∅ /\
  RateLimiter.window_seconds (rate_limiter final) = window_seconds.
Proof.
  intros Hbase final.
  assert (Hinit : limit_tracks_multiplier (init base_limit window_seconds t0)).
  { unfold limit_tracks_multiplier. cbn.
    rewrite (py_int_comp _ (inject_Z base_limit)) by apply Qmult_1_r.
    now rewrite py_int_inject_Z. }
  destruct (updates_inner_limiter inputs _ Hinit) as (Ht & Hb & Hr & Hw).
  fold final in Ht, Hb, Hr, Hw. cbn in Hb, Hr, Hw.
  unfold limit_tracks_multiplier in Ht. rewrite Hb in Ht.
  split; [exact Ht|]. split; [|split; assumption].
  rewrite Ht.
  destruct (updates_in_range format_float inputs (init base_limit window_seconds t0))
    as (_ & Hlo & Hhi).
  { unfold multiplier_in_range. cbn. lra. }
  fold final in Hlo, Hhi.
  set (m := current_multiplier final) in *.
  assert (Hb0 : (0 <= inject_Z base_limit)%Q).
  { change 0%Q with (inject_Z 0). now rewrite <- Zle_Qle. }
  assert (Hx : (0 <= inject_Z base_limit * m)%Q) by nra.
  unfold py_int. apply Qle_bool_iff in Hx. rewrite Hx. split.
  - rewrite Zdiv_Qdiv. apply Qfloor_resp_le.
    unfold Qdiv. change (/ inject_Z 2)%Q with (1 # 2)%Q. nra.
  - rewrite <- (Qfloor_Z (2 * base_limit)). apply Qfloor_resp_le.
    rewrite inject_Z_mult. change (inject_Z 2) with 2%Q. nra.
Qed.

End AdaptiveHistory.

(** Base limit 200 under three reports of load 90: the limit is 102, between
    100 and 400. *)
Lemma adaptive_limit_bounds_witness :
  200 / 2
  <= RateLimiter.max_requests
       (AdaptiveRateLimiter.rate_limiter
          (state_of (AdaptiveRateLimiter.updates (fun _ _ => "")
                       [(90, 90, 31); (90, 90, 62); (90, 90, 93)]%Q
                       (AdaptiveRateLimiter.init 200 60 0))))
  <= 2 * 200.
Proof.
  apply (adaptive_limit_bounds (fun _ _ => "") 200 60 0%Q
           [(90, 90, 31); (90, 90, 62); (90, 90, 93)]%Q).
  lia.
Defined.

(** ** The middleware beyond the normal path *)

Section MiddlewarePaths.

Import Middleware.

Context {App : Type}.
Variable fromtimestamp_isoformat : Z -> string.
Variable call_next : Request -> M App Response.

(** When the application raises on an admitted request, the middleware logs
    the error and calls the application a second time, on the state the first
    call left: what that second call returns or raises is what the middleware
    returns or raises, with no rate-limit header added; the admission stays
    recorded in the limiter. *)
Theorem rate_limit_middleware_fallback
    (request : Request) (now : Q) (g : globals App)
    (info : RateLimiter.rate_info) (limiter' : RateLimiter.t)
    (out out1 : list log_record) (e : exn) (app1 : App) :
  RateLimiter.is_allowed fromtimestamp_isoformat (snd (select request)) now
    (limiter_of (fst (select request)) g)
  = (Ok (true, info), limiter', out) ->
  call_next request (app g) = (Raise e, app1, out1) ->
  let run := rate_limit_middleware fromtimestamp_isoformat call_next request now g in
  let second := call_next request app1 in
  res_of run = res_of second /\
  app (state_of run) = state_of second /\
  limiter_of (fst (select request)) (state_of run) = limiter' /\
  (ERROR, "Error in rate limiting middleware: " +:+ exn_str e) ∈ logs_of run.
Proof.
  intros Hallowed Hcall run second.
  unfold run, rate_limit_middleware, try_except.
  destruct (select request) as [lim ident]. cbn [fst snd] in *.
  unfold mbind, M_bind, bind, zoom. rewrite Hallowed. cbn [negb].
  rewrite app_set_limiter, Hcall.
  unfold log. cbn [app set_app].
  fold second. destruct second as [[r2 app2] out2].
  unfold res_of, state_of, logs_of. cbn [fst snd].
  repeat split.
  - destruct lim; reflexivity.
  - rewrite !elem_of_app. right. left. apply list_elem_of_here.
Qed.

(** A request changes only the limiter chosen for it, and in that limiter
    only the deque of its own identifier, whether it is admitted or rejected
    and whatever the application does. *)
Theorem rate_limit_middleware_frame
    (request : Request) (now : Q) (g : globals App) (identifier' : string) :
  let run := rate_limit_middleware fromtimestamp_isoformat call_next request now g in
  match fst (select request) with
  | ip => twilio_rate_limiter (state_of run) = twilio_rate_limiter g
  | twilio => ip_rate_limiter (state_of run) = ip_rate_limiter g
  end /\
  (identifier' = snd (select request) \/
   RateLimiter.requests (limiter_of (fst (select request)) (state_of run))
     !! identifier'
   = RateLimiter.requests (limiter_of (fst (select request)) g) !! identifier').
Proof.
  intros run.
  destruct (is_allowed_unfold fromtimestamp_isoformat (snd (select request)) now
              (limiter_of (fst (select request)) g)) as (info & out & Hrun & _).
  assert (Hstate : exists a,
             state_of run
             = set_app a
                 (set_limiter (fst (select request))
                    (state_of (RateLimiter.is_allowed fromtimestamp_isoformat
                                 (snd (select request)) now
                                 (limiter_of (fst (select request)) g)))
                    g)).
  { unfold run, rate_limit_middleware, try_except.
    destruct (select request) as [lim ident]. cbn [fst snd] in *.
    unfold mbind, M_bind, bind, zoom. rewrite Hrun. unfold state_of. cbn [fst snd].
    destruct (_ <? _); cbn [negb].
    - rewrite app_set_limiter.
      destruct (call_next request (app g)) as [[[r|e] a1] o1]; cbn.
      + eexists. reflexivity.
      + destruct (call_next request a1) as [[r2 a2] o2]. cbn. eexists. reflexivity.
    - cbn. exists (app g). destruct lim, g; reflexivity. }
  destruct Hstate as (a & ->). rewrite Hrun. unfold state_of. cbn [fst snd].
  split.
  - destruct (fst (select request)); reflexivity.
  - destruct (decide (identifier' = snd (select request))) as [Heq|Hne];
      [left; exact Heq | right].
    assert (Hl : forall l, limiter_of (fst (select request))
                             (set_app a (set_limiter (fst (select request)) l g)) = l)
      by (intros l; destruct (fst (select request)); reflexivity).
    rewrite Hl. cbn [RateLimiter.requests].
    now rewrite lookup_insert_ne by congruence.
Qed.

End MiddlewarePaths.

(** An application that fails on its first call and answers on its second:
    the answer of the second call comes back, without rate-limit headers. *)
Lemma rate_limit_middleware_fallback_witness :
  res_of (Middleware.rate_limit_middleware (fun _ => "")
            (fun _ (calls : nat) =>
               match calls with
               | O => (Raise (Exception "busy"), S calls, [])
               | S _ => (Ok (Middleware.mk_response 200 "ok" ∅), S calls, [])
               end)
            (Middleware.mk_request "/health" ∅ None) 0%Q
            (Middleware.initial_globals 0%nat))
  = Ok (Middleware.mk_response 200 "ok" ∅).
Proof.
  edestruct (rate_limit_middleware_fallback (fun _ => "")
               (fun _ (calls : nat) =>
                  match calls with
                  | O => (Raise (Exception "busy"), S calls, [])
                  | S _ => (Ok (Middleware.mk_response 200 "ok" ∅), S calls, [])
                  end)
               (Middleware.mk_request "/health" ∅ None) 0%Q
               (Middleware.initial_globals 0%nat)) as (H & _).
  - reflexivity.
  - reflexivity.
  - exact H.
Defined.

(** ** The identifier of a request *)

Section Identifier.

Import Middleware.

(** The characters of a string. *)
Definition chars (s : string) : list ascii := String.list_ascii_of_string s.

Definition comma : ascii := ","%char.

Definition whitespace (cs : list ascii) : Prop := Forall (fun c => isspace c = true) cs.

Definition not_space (oc : option ascii) : Prop :=
  match oc with
  | Some c => isspace c = false
  | None => True
  end.

(** [lstrip] on the characters. *)
Fixpoint lstrip_chars (cs : list ascii) : list ascii :=
  match cs with
  | [] => []
  | c :: rest => if isspace c then lstrip_chars rest else cs
  end.

Lemma chars_lstrip (s : string) : chars (lstrip s) = lstrip_chars (chars s).
Proof.
  induction s as [|c s IH]; [reflexivity|].
  cbn. destruct (isspace c); [exact IH | reflexivity].
Qed.

Lemma chars_string_rev (s : string) : chars (string_rev s) = rev (chars s).
Proof. unfold chars, string_rev. apply String.list_ascii_of_string_of_list_ascii. Qed.

Lemma chars_strip (s : string) :
  chars (strip s) = rev (lstrip_chars (rev (lstrip_chars (chars s)))).
Proof.
  unfold strip. now rewrite chars_string_rev, chars_lstrip, chars_string_rev, chars_lstrip.
Qed.

Lemma lstrip_chars_split (cs : list ascii) :
  exists pre, cs = pre ++ lstrip_chars cs /\ whitespace pre.
Proof.
  induction cs as [|c cs IH]; cbn.
  - exists []. split; [reflexivity | constructor].
  - destruct (isspace c) eqn:E.
    + destruct IH as (pre & Heq & Hpre). exists (c :: pre). split.
      * cbn. congruence.
      * constructor; assumption.
    + exists []. split; [reflexivity | constructor].
Qed.

Lemma lstrip_chars_head (cs : list ascii) : not_space (head (lstrip_chars cs)).
Proof.
  induction cs as [|c cs IH]; cbn; [exact I|].
  destruct (isspace c) eqn:E; [exact IH | exact E].
Qed.

Lemma lstrip_chars_keeps (cs : list ascii) :
  not_space (head cs) -> lstrip_chars cs = cs.
Proof.
  destruct cs as [|c cs]; cbn; [reflexivity|]. now intros ->.
Qed.

Lemma whitespace_rev (cs : list ascii) : whitespace cs -> whitespace (rev cs).
Proof. unfold whitespace. apply List.Forall_rev. Qed.

Lemma last_rev_head (cs : list ascii) : last (rev cs) = head cs.
Proof. destruct cs as [|c cs]; [reflexivity|]. cbn [rev head]. apply last_snoc. Qed.

(** [strip] removes whitespace at both ends and nothing else. *)
Lemma strip_chars_spec (s : string) :
  exists pre post,
    chars s = pre ++ chars (strip s) ++ post /\
    whitespace pre /\ whitespace post /\
    not_space (head (chars (strip s))) /\
    not_space (last (chars (strip s))).
Proof.
  rewrite chars_strip.
  destruct (lstrip_chars_split (chars s)) as (pre & Hs & Hpre).
  set (u := lstrip_chars (chars s)) in *.
  destruct (lstrip_chars_split (rev u)) as (pre2 & Hu & Hpre2).
  set (w := lstrip_chars (rev u)) in *.
  pose proof (lstrip_chars_head (chars s)) as Hhu. fold u in Hhu.
  pose proof (lstrip_chars_head (rev u)) as Hhw. fold w in Hhw.
  assert (Hu' : u = rev w ++ rev pre2).
  { rewrite <- (rev_involutive u), Hu, rev_app_distr. reflexivity. }
  exists pre, (rev pre2). repeat split.
  - rewrite Hs at 1. now rewrite Hu' at 1.
  - exact Hpre.
  - now apply whitespace_rev.
  - (* the first character is the first character kept by the first [lstrip] *)
    destruct w as [|c w'] eqn:Ew; [exact I|].
    destruct (rev (c :: w')) as [|c0 r0] eqn:Er.
    { apply (f_equal (@length ascii)) in Er. rewrite length_rev in Er. discriminate. }
    cbn. rewrite Hu' in Hhu. cbn in Hhu. exact Hhu.
  - rewrite last_rev_head. exact Hhw.
Qed.

Lemma before_comma_spec (s : string) :
  (comma ∉ chars (before_comma s)) /\
  (chars s = chars (before_comma s) \/
   exists rest, chars s = chars (before_comma s) ++ comma :: rest).
Proof.
  induction s as [|c s (IH1 & IH2)]; cbn.
  - split; [apply not_elem_of_nil | left; reflexivity].
  - destruct (Ascii.eqb_spec c ","%char) as [->|Hne]; cbn.
    + split; [apply not_elem_of_nil|]. right. exists (chars s). reflexivity.
    + split.
      * apply not_elem_of_cons. split; [unfold comma; congruence | exact IH1].
      * destruct IH2 as [IH2 | (rest & IH2)].
        -- left. f_equal. exact IH2.
        -- right. exists rest. f_equal. exact IH2.
Qed.

(** The identifier that the IP limiter uses. Without a forwarded-for header,
    or with an empty one, it is the host of the client, or ["unknown"] when the
    request has no client. With a non-empty header it is taken from the header
    alone, whoever the client is: the text before the first comma, without the
    whitespace around it; it holds no comma and neither starts nor ends with
    whitespace. *)
Theorem get_identifier_shape (request : Request) :
  match request_headers request !! "X-Forwarded-For" with
  | None | Some EmptyString =>
      get_identifier request = default "unknown" (client_host request)
  | Some forwarded_for =>
      exists first pre post,
        (chars forwarded_for = first \/
         exists rest, chars forwarded_for = first ++ comma :: rest) /\
        (comma ∉ first) /\
        first = pre ++ chars (get_identifier request) ++ post /\
        whitespace pre /\ whitespace post /\
        (comma ∉ chars (get_identifier request)) /\
        not_space (head (chars (get_identifier request))) /\
        not_space (last (chars (get_identifier request)))
  end.
Proof.
  unfold get_identifier.
  destruct (request_headers request !! "X-Forwarded-For") as [[|c v]|];
    [reflexivity | | reflexivity].
  destruct (before_comma_spec (String c v)) as (Hno & Hprefix).
  destruct (strip_chars_spec (before_comma (String c v)))
    as (pre & post & Heq & Hpre & Hpost & Hhead & Hlast).
  exists (chars (before_comma (String c v))), pre, post.
  repeat split; try assumption.
  rewrite Heq in Hno. intros Hin. apply Hno.
  apply elem_of_app. right. apply elem_of_app. left. exact Hin.
Qed.

(** A header that starts with a comma gives the empty identifier, not the
    host of the client. *)
Example get_identifier_leading_comma :
  get_identifier
    (mk_request "/health" {["X-Forwarded-For" := ", 10.0.0.2"]} (Some "10.0.0.1"))
  = "".
Proof. reflexivity. Qed.

End Identifier.

(** ** Registration, cancellation and the state left by a shutdown *)

Section LifecycleFacts.

Import ServiceManager.

Context {W : Type}.
Variable now_isoformat : W -> string.
Variable getpid : Z.
Variable write_state_file : string -> state_data -> M W unit.

Abbreviation manager := (ServiceManager.t W).
Abbreviation _save_service_state :=
  (ServiceManager._save_service_state now_isoformat getpid write_state_file).
Abbreviation shutdown :=
  (ServiceManager.shutdown now_isoformat getpid write_state_file).

(** The world after one task has been handled: a task that is done is left
    alone; any other is cancelled and then awaited. *)
Definition cancel_one (w : W) (tk : task W) : W :=
  if task_done tk w then w else snd (task_wait tk (task_cancel tk w)).

Definition cancel_in_order (ts : list (task W)) (w : W) : W :=
  fold_left cancel_one ts w.

(** What the handling of one task adds to the log. *)
Definition cancel_one_records (tk : task W) (w : W) : list log_record :=
  if task_done tk w then []
  else match fst (task_wait tk (task_cancel tk w)) with
       | TaskReturned => []
       | TaskCancelled | TaskTimeout =>
           [(DEBUG, "Task " +:+ task_name tk +:+ " cancelled")]
       | TaskFailed e =>
           [(ERROR, "Error cancelling task " +:+ task_name tk +:+ ": "
                    +:+ exn_str e)]
       end.

Fixpoint cancel_records (ts : list (task W)) (w : W) : list log_record :=
  match ts with
  | [] => []
  | tk :: rest => cancel_one_records tk w ++ cancel_records rest (cancel_one w tk)
  end.

Lemma set_world_same (s : manager) : set_world (world s) s = s.
Proof. destruct s; reflexivity. Qed.

Lemma set_world_twice (w w' : W) (s : manager) :
  set_world w' (set_world w s) = set_world w' s.
Proof. reflexivity. Qed.

Lemma cancel_task_unfold (tk : task W) (self : manager) :
  cancel_task tk self
  = (Ok tt, set_world (cancel_one (world self) tk) self,
     cancel_one_records tk (world self)).
Proof.
  unfold cancel_task, cancel_one, cancel_one_records, mbind, M_bind, bind,
    get_state, modify, log, mret, M_ret, ret.
  destruct (task_done tk (world self)); cbn [negb].
  - now rewrite set_world_same.
  - cbn [world set_world].
    destruct (task_wait tk (task_cancel tk (world self))) as [r w].
    destruct r; reflexivity.
Qed.

Lemma for_each_cancel_task (ts : list (task W)) :
  forall self : manager,
    for_each ts cancel_task self
    = (Ok tt, set_world (cancel_in_order ts (world self)) self,
       cancel_records ts (world self)).
Proof.
  induction ts as [|tk ts IH]; intros self.
  - cbn. now rewrite set_world_same.
  - cbn [for_each]. erewrite run_bind_Ok;
      [|apply cancel_task_unfold|apply IH].
    reflexivity.
Qed.

Lemma cancel_in_order_done (ts : list (task W)) (w : W) :
  Forall (fun tk => task_done tk w = true) ts ->
  cancel_in_order ts w = w /\ cancel_records ts w = [].
Proof.
  induction 1 as [|tk ts Hd _ IH]; [split; reflexivity|].
  unfold cancel_in_order in *. cbn [fold_left cancel_records].
  unfold cancel_one at 2 3, cancel_one_records. rewrite Hd.
  destruct IH as (IH1 & IH2). split; [exact IH1 | exact IH2].
Qed.

Lemma cancel_in_order_app (pre post : list (task W)) (w : W) :
  cancel_in_order (pre ++ post) w = cancel_in_order post (cancel_in_order pre w).
Proof. apply fold_left_app. Qed.

(** [_cancel_background_tasks] never raises, however the awaited tasks end:
    returned, cancelled, timed out or failed with an exception. The tasks
    are handled in registration order, each on the world left by the one
    before; a task that is already done is neither cancelled nor awaited, so
    when all of them are done nothing changes and only the count is logged.
    The list of tasks itself is never emptied: the manager's own fields are
    untouched. A task between [pre] and [post] whose wait fails is logged as
    an error, and the tasks of [post] are still handled after it. *)
Theorem cancel_background_tasks_all_handled
    (self : manager) (pre post : list (task W)) (tk : task W) :
  let run := _cancel_background_tasks self in
  res_of run = Ok tt /\
  state_of run
  = set_world (cancel_in_order (background_tasks self) (world self)) self /\
  (Forall (fun tk => task_done tk (world self) = true) (background_tasks self) ->
   state_of run = self /\ length (logs_of run) = 1%nat) /\
  (background_tasks self = pre ++ tk :: post ->
   let w := cancel_in_order pre (world self) in
   world (state_of run) = cancel_in_order post (cancel_one w tk) /\
   (forall e, task_done tk w = false ->
      fst (task_wait tk (task_cancel tk w)) = TaskFailed e ->
      (ERROR, "Error cancelling task " +:+ task_name tk +:+ ": " +:+ exn_str e)
      ∈ logs_of run)).
Proof.
  intros run.
  assert (Hrun : exists info,
             run = (Ok tt,
                    set_world (cancel_in_order (background_tasks self) (world self)) self,
                    info :: cancel_records (background_tasks self) (world self))).
  { eexists. unfold run, _cancel_background_tasks, mbind, M_bind, bind,
      get_state, log.
    rewrite for_each_cancel_task. reflexivity. }
  destruct Hrun as (info & ->).
  unfold res_of, state_of, logs_of. cbn [fst snd].
  split; [reflexivity|]. split; [reflexivity|]. split.
  - intros Hdone. apply cancel_in_order_done in Hdone as (-> & ->).
    split; [apply set_world_same | reflexivity].
  - intros Hsplit. rewrite Hsplit. cbn [world set_world].
    split.
    + now rewrite cancel_in_order_app.
    + intros e Hd Hw.
      apply list_elem_of_further.
      assert (Happ : forall ps qs w0,
                 cancel_records (ps ++ qs) w0
                 = cancel_records ps w0 ++ cancel_records qs (cancel_in_order ps w0)).
      { clear. induction ps as [|p ps IH]; intros qs w0; [reflexivity|].
        cbn [app cancel_records]. rewrite IH, <- app_assoc. reflexivity. }
      rewrite Happ. apply elem_of_app. right.
      cbn [cancel_records]. apply elem_of_app. left.
      unfold cancel_one_records. rewrite Hd, Hw. apply list_elem_of_here.
Qed.

(** *** Registration *)

Lemma add_cleanup_handler_unfold (h : handler W) (self : manager) :
  add_cleanup_handler h self
  = (Ok tt, set_cleanup_handlers (cleanup_handlers self ++ [h]) self,
     [(DEBUG, "Added cleanup handler: " +:+ handler_name h)]).
Proof. reflexivity. Qed.

Lemma for_each_add_cleanup_handler (hs : list (handler W)) :
  forall self : manager,
    for_each hs add_cleanup_handler self
    = (Ok tt, set_cleanup_handlers (cleanup_handlers self ++ hs) self,
       map (fun h => (DEBUG, "Added cleanup handler: " +:+ handler_name h)) hs).
Proof.
  induction hs as [|h hs IH]; intros self.
  - cbn. rewrite app_nil_r. destruct self; reflexivity.
  - cbn [for_each]. erewrite run_bind_Ok;
      [|apply add_cleanup_handler_unfold|apply IH].
    cbn [cleanup_handlers set_cleanup_handlers]. rewrite <- app_assoc.
    reflexivity.
Qed.

(** Handlers are kept in the order of their registration, after those already
    registered, and nothing is removed or merged: a handler registered twice
    is held twice. Run after the registrations, [_run_cleanup_handlers] calls
    the earlier handlers first and then the new ones in the order they were
    added, a handler as many times as it was registered. *)
Theorem cleanup_handlers_registration_order
    (self : manager) (hs : list (handler W)) :
  let registered := for_each hs add_cleanup_handler self in
  let run := _run_cleanup_handlers (state_of registered) in
  res_of registered = Ok tt /\
  cleanup_handlers (state_of registered) = cleanup_handlers self ++ hs /\
  world (state_of registered) = world self /\
  res_of run = Ok tt /\
  world (state_of run)
  = run_in_order hs (run_in_order (cleanup_handlers self) (world self)) /\
  cleanup_handlers (state_of run) = cleanup_handlers self ++ hs.
Proof.
  intros registered run. unfold run, registered.
  rewrite for_each_add_cleanup_handler.
  unfold res_of, state_of. cbn [fst snd].
  split; [reflexivity|]. split; [reflexivity|]. split; [reflexivity|].
  unfold _run_cleanup_handlers, mbind, M_bind, bind, get_state, log.
  rewrite for_each_run_handler. cbn [fst snd].
  cbn [cleanup_handlers set_cleanup_handlers world set_world].
  rewrite run_in_order_app. repeat split.
Qed.

(** *** What a shutdown leaves *)

(** A step that returns and only acts on the world. *)
Definition quiet (p : M manager unit) : Prop :=
  forall s, exists w out, p s = (Ok tt, set_world w s, out).

Lemma quiet_save (state : string) : quiet (_save_service_state state).
Proof.
  intros s. unfold ServiceManager._save_service_state, try_except, mbind, M_bind,
    bind, get_state, zoom, log.
  destruct (write_state_file _ _ (world s)) as [[[[]|e] w] out];
    exists w; eexists; reflexivity.
Qed.

Lemma quiet_cancel : quiet _cancel_background_tasks.
Proof.
  intros s. eexists; eexists.
  unfold _cancel_background_tasks, mbind, M_bind, bind, get_state, log.
  rewrite for_each_cancel_task. reflexivity.
Qed.

Lemma quiet_cleanup : quiet _run_cleanup_handlers.
Proof.
  intros s. eexists; eexists.
  unfold _run_cleanup_handlers, mbind, M_bind, bind, get_state, log.
  rewrite for_each_run_handler. reflexivity.
Qed.

(** A call of [shutdown] on a manager that is not shutting down sets the
    flag and the event and, apart from the world, changes nothing else: the
    handlers and the tasks stay registered and the startup time and the path
    of the state file are kept. A call on a manager that is shutting down
    changes nothing at all. In both cases [is_running] is false afterwards. *)
Theorem shutdown_leaves (self : manager) :
  exists w out,
    shutdown self
    = (Ok tt,
       (if is_shutting_down self then self
        else set_world w (set_shutdown_event true (set_is_shutting_down true self))),
       out) /\
    is_running (state_of (shutdown self)) = false.
Proof.
  destruct (is_shutting_down self) eqn:Hflag.
  - exists (world self); eexists.
    assert (H : shutdown self = (Ok tt, self, [shutdown_warning])).
    { unfold ServiceManager.shutdown, mbind, M_bind, bind, get_state.
      now rewrite Hflag. }
    rewrite H. split; [reflexivity|].
    unfold state_of, is_running. cbn [fst snd]. now rewrite Hflag.
  - set (s1 := set_is_shutting_down true self).
    destruct (quiet_save "shutting_down" s1) as (w2 & l2 & H2).
    set (s3 := set_shutdown_event true (set_world w2 s1)).
    destruct (quiet_cancel s3) as (w4 & l4 & H4).
    destruct (quiet_cleanup (set_world w4 s3)) as (w5 & l5 & H5).
    destruct (quiet_save "stopped" (set_world w5 (set_world w4 s3)))
      as (w6 & l6 & H6).
    eassert (HL : shutdown self = (Ok tt, _, _)).
    { unfold ServiceManager.shutdown.
      run_ok; [reflexivity|]. rewrite Hflag.
      run_ok; [reflexivity|]. run_ok; [reflexivity|].
      run_ok; [exact H2|]. run_ok; [reflexivity|].
      run_ok; [exact H4|]. run_ok; [exact H5|].
      run_ok; [exact H6|]. reflexivity. }
    exists w6; eexists. rewrite HL. split; [reflexivity|].
    reflexivity.
Qed.

End LifecycleFacts.

(** ** The persistent state across restarts, and reads from memory *)

Section PersistentStateRestart.

Import PersistentState.

Context {Value : Type}.

Abbreviation store := (PersistentState.t Value).

Lemma save_state_run (o : write_outcome) (self : store) :
  save_state (renames_ok o) self
  = (Ok tt, set_files (files_after_save o self) self, save_records o).
Proof.
  rewrite save_state_spec. unfold saved_files.
  now rewrite save_spec_renames_ok.
Qed.

(** A save that writes, whatever the restoring rename would do. *)
Lemma save_state_written (d : save_outcome) (self : store) :
  backup_rename d = RenameOk -> write d = WriteOk ->
  save_state d self
  = (Ok tt, set_files (files_after_save WriteOk self) self, save_records WriteOk).
Proof.
  intros Hb Hw. rewrite save_state_spec. unfold saved_files.
  now rewrite (save_spec_written d self Hb Hw), save_spec_renames_ok.
Qed.

(** A write that fails over an existing state file, followed by a refused
    restoring rename: [save_state] raises, the state file is missing or
    partial, and the backup holds the prior content. *)
Lemma save_state_refused (d : save_outcome) (self : store)
    (c : file_content Value) (e : exn) :
  backup_rename d = RenameOk -> write d <> WriteOk ->
  restore_rename d = RenameFails e -> primary self = Some c ->
  res_of (save_state d self) = Raise e /\
  primary (state_of (save_state d self))
  = match write d with
    | DumpFails _ => Some Garbage
    | _ => None
    end /\
  backup (state_of (save_state d self)) = Some c.
Proof.
  pose proof (backup_file_ne self) as Hne.
  intros Hb Hw Hr Hp. rewrite save_state_spec.
  unfold res_of, state_of, primary, backup, saved_files, save_spec, save_attempt in *.
  cbn [fst snd files state_file set_files].
  change (backup_file (set_files _ self)) with (backup_file self).
  rewrite Hb, Hr, Hp.
  assert (Hne' : backup_file self <> state_file self) by congruence.
  destruct (write d) as [|e0|e0]; [congruence| |]; cbn [fst snd].
  - rewrite lookup_insert_eq. cbn [fst snd].
    split; [reflexivity|]. split; [|apply lookup_insert_eq].
    rewrite lookup_insert_ne by exact Hne'. apply lookup_delete_eq.
  - rewrite (lookup_insert_ne _ (state_file self)) by exact Hne.
    rewrite lookup_insert_eq. cbn [fst snd].
    split; [reflexivity|]. split; [apply lookup_insert_eq|].
    rewrite lookup_insert_ne by exact Hne. apply lookup_insert_eq.
Qed.

(** [PersistentState(state_file)] created anew on the disk that [self]
    leaves, as after a restart of the service. *)
Definition restart (r : read_outcome) (self : store) : store :=
  state_of (init (state_file self) (files self) r).

Lemma restart_state (r : read_outcome) (self : store) :
  state (restart r self) = state_after_load r self.
Proof.
  unfold restart, init.
  destruct (load_state_unfold r (mk (state_file self) ∅ (files self)))
    as (out & -> & _).
  reflexivity.
Qed.

Lemma restart_after_write (d : save_outcome) (s1 : store) :
  backup_rename d = RenameOk -> write d = WriteOk ->
  state (restart ReadOk (state_of (save_state d s1))) = state s1.
Proof.
  intros Hb Hw. rewrite (save_state_written d s1 Hb Hw).
  rewrite restart_state. unfold state_after_load, primary, state_of.
  cbn [fst snd files state_file set_files].
  now destruct (files_after_save_ok s1) as [-> _].
Qed.

Lemma restart_after_failure (d : save_outcome) (s1 : store) (m : gmap string Value) :
  backup_rename d = RenameOk -> restore_rename d = RenameOk ->
  write d <> WriteOk -> primary s1 = Some (Json m) ->
  res_of (save_state d s1) = Ok tt /\
  state (restart ReadOk (state_of (save_state d s1))) = m.
Proof.
  intros Hb Hr Hw Hp. rewrite (save_spec_both d Hb Hr), save_state_run.
  split; [reflexivity|].
  rewrite restart_state. unfold state_after_load, primary, state_of.
  cbn [fst snd files state_file set_files].
  now destruct (files_after_save_restored (write d) s1 (Json m) Hw (or_introl Hp))
    as [-> _].
Qed.

Lemma restart_after_refused (d : save_outcome) (s1 : store)
    (c : file_content Value) (e : exn) :
  backup_rename d = RenameOk -> write d <> WriteOk ->
  restore_rename d = RenameFails e -> primary s1 = Some c ->
  state (restart ReadOk (state_of (save_state d s1))) = ∅.
Proof.
  intros Hb Hw Hr Hp.
  destruct (save_state_refused d s1 c e Hb Hw Hr Hp) as (_ & Hprimary & _).
  rewrite restart_state. unfold state_after_load. rewrite Hprimary.
  now destruct (write d).
Qed.

(** Every operation that saves leaves, when the state file is renamed and
    written, a file from which a new [PersistentState] recovers exactly the
    map held in memory: [save_state] itself, [set], [clear], and [delete]
    of a key that is held. When the write fails over an existing
    well-formed file, memory and disk part. The map in memory has the
    change in every case. If the backup is renamed back, [set] returns and
    a restart finds the content that the file had before. If that rename
    is refused, [set] raises, the backup file still holds the prior content,
    and a restart finds nothing: it starts from the empty map. *)
Theorem saved_state_survives_restart
    (key : string) (value : Value) (d : save_outcome) (self : store) :
  let restarted_after (run : result unit * store * list log_record) :=
    state (restart ReadOk (state_of run)) in
  (backup_rename d = RenameOk -> write d = WriteOk ->
   restarted_after (save_state d self) = state self /\
   restarted_after (set key value d self) = <[key := value]> (state self) /\
   restarted_after (clear d self) = ∅ /\
   (is_Some (state self !! key) ->
    restarted_after (delete key d self) = base.delete key (state self))) /\
  (forall m, backup_rename d = RenameOk -> write d <> WriteOk ->
     primary self = Some (Json m) ->
     state (state_of (set key value d self)) = <[key := value]> (state self) /\
     match restore_rename d with
     | RenameOk =>
         res_of (set key value d self) = Ok tt /\
         restarted_after (set key value d self) = m
     | RenameFails e =>
         res_of (set key value d self) = Raise e /\
         restarted_after (set key value d self) = ∅ /\
         backup (state_of (set key value d self)) = Some (Json m)
     end).
Proof.
  intros restarted_after. unfold restarted_after. split.
  - intros Hb Hw. rewrite set_as_save, clear_as_save.
    split; [now apply restart_after_write|].
    split; [now apply (restart_after_write d (set_state _ self))|].
    split; [now apply (restart_after_write d (set_state _ self))|].
    intros Hk. rewrite (delete_as_save key d self Hk).
    now apply (restart_after_write d (set_state _ self)).
  - intros m Hb Hw Hp. rewrite set_as_save.
    set (s1 := set_state (<[key := value]> (state self)) self).
    assert (Hp1 : primary s1 = Some (Json m)) by exact Hp.
    split.
    { rewrite save_state_spec. reflexivity. }
    destruct (restore_rename d) as [|e] eqn:Hr.
    + now apply restart_after_failure.
    + destruct (save_state_refused d s1 (Json m) e Hb Hw Hr Hp1) as (Hres & _ & Hbk).
      split; [exact Hres|]. split; [|exact Hbk].
      now apply (restart_after_refused d s1 (Json m) e).
Qed.

Lemma delete_not_held (key : string) (d : save_outcome) (self : store) :
  state self !! key = None -> delete key d self = (Ok tt, self, []).
Proof.
  intros Hk. unfold delete, mbind, M_bind, bind, get_state.
  rewrite bool_decide_eq_false_2; [reflexivity|].
  rewrite Hk. intros [v Hv]. discriminate.
Qed.

Lemma then_get (m : M store unit) (key : string) (default : Value) (self : store) :
  res_of (m self) = Ok tt ->
  res_of ((m;; get key default) self)
  = res_of (get key default (state_of (m self))).
Proof.
  unfold mbind, M_bind, bind, res_of, state_of.
  destruct (m self) as [[r s1] out1]. cbn [fst snd]. intros ->.
  now destruct (get key default s1) as [[r2 s2] out2].
Qed.

(** Reads come from memory alone. [get] changes nothing and logs nothing,
    and returns the default for a key that is not held. On the store as
    [set] of a key leaves it, the other keys read as before; as [delete] of
    a key leaves it, that key reads as the default; as [clear] leaves it,
    every key does; and all of this however the operating system answered
    the save, and whether the operation returned or raised. An operation
    that returns and the [get] that follows it give, in sequence, the same
    as that [get]; the three operations return whenever the restoring
    rename is performed. *)
Theorem get_reads_memory
    (key other : string) (value default : Value) (d : save_outcome) (self : store) :
  get other default self
  = (Ok (match state self !! other with Some v => v | None => default end),
     self, []) /\
  (key <> other ->
   res_of (get other default (state_of (set key value d self)))
   = res_of (get other default self)) /\
  res_of (get key default (state_of (delete key d self))) = Ok default /\
  res_of (get other default (state_of (clear d self))) = Ok default /\
  (forall m : M store unit,
     res_of (m self) = Ok tt ->
     res_of ((m;; get other default) self)
     = res_of (get other default (state_of (m self)))) /\
  (restore_rename d = RenameOk ->
   res_of (set key value d self) = Ok tt /\
   res_of (delete key d self) = Ok tt /\
   res_of (clear d self) = Ok tt).
Proof.
  split; [reflexivity|]. split; [|split; [|split; [|split]]].
  - intros Hne. rewrite set_as_save, save_state_spec.
    unfold res_of, state_of, get, mbind, M_bind, bind, get_state.
    cbn [fst snd state set_files set_state].
    now rewrite lookup_insert_ne by exact Hne.
  - destruct (state self !! key) as [v|] eqn:Hk.
    + rewrite delete_as_save by (rewrite Hk; eauto). rewrite save_state_spec.
      unfold res_of, state_of, get, mbind, M_bind, bind, get_state.
      cbn [fst snd state set_files set_state].
      now rewrite lookup_delete_eq.
    + rewrite delete_not_held by exact Hk.
      unfold res_of, state_of, get, mbind, M_bind, bind, get_state.
      cbn [fst snd]. now rewrite Hk.
  - rewrite clear_as_save, save_state_spec.
    unfold res_of, state_of, get, mbind, M_bind, bind, get_state.
    cbn [fst snd state set_files set_state].
    now rewrite lookup_empty.
  - intros m. apply then_get.
  - intros Hr. rewrite set_as_save, clear_as_save.
    assert (Hsave : forall s1 : store, res_of (save_state d s1) = Ok tt).
    { intros s1. rewrite save_state_spec. now apply save_spec_returns. }
    split; [apply Hsave|]. split; [|apply Hsave].
    destruct (state self !! key) as [v|] eqn:Hk.
    + rewrite delete_as_save by (rewrite Hk; eauto). apply Hsave.
    + now rewrite delete_not_held by exact Hk.
Qed.

End PersistentStateRestart.

(** ** The cleanup handler and the health check of the persistent state *)

Section StateFileFacts.

Import PersistentState StateFile.

Context {Value : Type}.
Variable str_value : string -> Value.

Abbreviation store := (PersistentState.t Value).

(** The record with which [cleanup_resources] ends. *)
Definition cleanup_record (r : result unit) : log_record :=
  match r with
  | Ok _ => (INFO, "Resources cleaned up")
  | Raise e => (ERROR, "Error cleaning up resources: " +:+ exn_str e)
  end.

Lemma cleanup_resources_run (d : save_outcome) (self : store) :
  cleanup_resources d self
  = (Ok tt, state_of (save_state d self),
     logs_of (save_state d self) ++ [cleanup_record (res_of (save_state d self))]).
Proof.
  unfold cleanup_resources, try_except, mbind, M_bind, bind, log,
    res_of, state_of, logs_of, cleanup_record.
  destruct (save_state d self) as [[[[]|e] s1] out]; cbn; reflexivity.
Qed.

(** [cleanup_resources] never raises and leaves the store as [save_state]
    leaves it. When [save_state] returns, which it does whenever the
    restoring rename is performed, the last record says that the resources
    were cleaned up, also after a write that failed. When [save_state]
    raises, as it does when the write fails over an existing state file and
    the restoring rename is refused, the last record is the error. *)
Theorem cleanup_resources_never_raises (d : save_outcome) (self : store) :
  let saved := save_state d self in
  cleanup_resources d self
  = (Ok tt, state_of saved, logs_of saved ++ [cleanup_record (res_of saved)]) /\
  (restore_rename d = RenameOk \/
   write d = WriteOk /\ backup_rename d = RenameOk ->
   cleanup_record (res_of saved) = (INFO, "Resources cleaned up")) /\
  (forall c e,
     primary self = Some c -> backup_rename d = RenameOk ->
     write d <> WriteOk -> restore_rename d = RenameFails e ->
     cleanup_record (res_of saved)
     = (ERROR, "Error cleaning up resources: " +:+ exn_str e)).
Proof.
  intros saved. split; [apply cleanup_resources_run|]. split.
  - intros [Hr | [Hw Hb]]; unfold saved.
    + rewrite save_state_spec. unfold res_of at 1. cbn [fst].
      now rewrite save_spec_returns.
    + now rewrite (save_state_written d self Hb Hw).
  - intros c e Hp Hb Hw Hr. unfold saved.
    destruct (save_state_refused d self c e Hb Hw Hr Hp) as (-> & _).
    reflexivity.
Qed.

Lemma check_state_file_accessible_run
    (now : string) (d1 d2 : save_outcome) (self : store) :
  let probed := set_state (<["_health_check" := str_value now]> (state self)) self in
  let first := save_state d1 probed in
  let cleared :=
    set_state (base.delete "_health_check" (state self)) (state_of first) in
  let second := save_state d2 cleared in
  check_state_file_accessible str_value now d1 d2 self
  = match res_of first with
    | Ok _ =>
        (Ok (match res_of second with Ok _ => true | Raise _ => false end),
         state_of second, logs_of first ++ logs_of second)
    | Raise _ => (Ok false, state_of first, logs_of first)
    end.
Proof.
  intros probed first cleared second.
  assert (Hfirst : first = (res_of (save_spec d1 probed),
                            set_files (saved_files d1 probed) probed,
                            logs_of (save_spec d1 probed)))
    by apply save_state_spec.
  assert (Hk : is_Some (state (state_of first) !! "_health_check")).
  { rewrite Hfirst. unfold state_of, probed. cbn [fst snd state set_files set_state].
    rewrite lookup_insert_eq. eauto. }
  assert (Hcleared : set_state (base.delete "_health_check" (state (state_of first)))
                       (state_of first) = cleared).
  { unfold cleared. f_equal. rewrite Hfirst. unfold state_of, probed.
    cbn [fst snd state set_files set_state]. apply delete_insert_eq. }
  unfold check_state_file_accessible, try_except. cbv zeta.
  unfold mbind, M_bind, bind at 1.
  rewrite set_as_save. fold probed. fold first.
  pose proof (delete_as_save "_health_check" d2 (state_of first) Hk) as Hdelete.
  rewrite Hcleared in Hdelete. fold second in Hdelete.
  unfold res_of, state_of, logs_of in *.
  destruct first as [[[[]|e1] s1] out1]; cbn [fst snd] in *;
    [|unfold mret, M_ret, ret; cbn; now rewrite app_nil_r].
  unfold bind. rewrite Hdelete.
  destruct second as [[[[]|e2] s2] out2]; cbn [fst snd]; unfold mret, M_ret, ret;
    cbn; rewrite ?app_nil_r; reflexivity.
Qed.

Lemma check_state_file_accessible_passes
    (now : string) (d1 d2 : save_outcome) (self : store) :
  restore_rename d1 = RenameOk -> restore_rename d2 = RenameOk ->
  res_of (check_state_file_accessible str_value now d1 d2 self) = Ok true.
Proof.
  intros H1 H2. rewrite check_state_file_accessible_run.
  rewrite !save_state_spec. unfold res_of at 2. cbn [fst].
  rewrite (save_spec_returns d1 _ H1).
  unfold res_of at 2. cbn [fst].
  now rewrite (save_spec_returns d2 _ H2).
Qed.

(** [check_state_file_accessible] never raises. It returns [True] exactly
    when both saves return, and so whenever the restoring renames are
    performed: a write that fails is logged by [save_state] and does not
    reach the check. It returns [False] when a save raises, as it does when
    a write fails over an existing file and the rename that restores the
    backup is refused. When the first save returns, the probe key is gone
    from the map afterwards, together with any value that was stored under
    that key before; when the first save raises, the probe key stays in the
    map. When both saves rename and write, the state file holds the map
    without the probe key and the backup file holds the map with it. *)
Theorem check_state_file_accessible_outcome
    (now : string) (d1 d2 : save_outcome) (self : store) :
  let probed := set_state (<["_health_check" := str_value now]> (state self)) self in
  let first := save_state d1 probed in
  let cleared :=
    set_state (base.delete "_health_check" (state self)) (state_of first) in
  let second := save_state d2 cleared in
  let run := check_state_file_accessible str_value now d1 d2 self in
  res_of run
  = Ok (match res_of first, res_of second with
        | Ok _, Ok _ => true
        | _, _ => false
        end) /\
  state (state_of run)
  = match res_of first with
    | Ok _ => base.delete "_health_check" (state self)
    | Raise _ => <["_health_check" := str_value now]> (state self)
    end /\
  state_file (state_of run) = state_file self /\
  (restore_rename d1 = RenameOk -> restore_rename d2 = RenameOk ->
   res_of run = Ok true) /\
  (forall c e,
     primary self = Some c -> backup_rename d1 = RenameOk ->
     write d1 <> WriteOk -> restore_rename d1 = RenameFails e ->
     res_of run = Ok false) /\
  (backup_rename d1 = RenameOk -> write d1 = WriteOk ->
   backup_rename d2 = RenameOk -> write d2 = WriteOk ->
   res_of run = Ok true /\
   primary (state_of run)
   = Some (Json (base.delete "_health_check" (state self))) /\
   backup (state_of run)
   = Some (Json (<["_health_check" := str_value now]> (state self)))).
Proof.
  intros probed first cleared second run.
  assert (Hrun : run = match res_of first with
                       | Ok _ =>
                           (Ok (match res_of second with
                                | Ok _ => true
                                | Raise _ => false
                                end),
                            state_of second, logs_of first ++ logs_of second)
                       | Raise _ => (Ok false, state_of first, logs_of first)
                       end)
    by apply check_state_file_accessible_run.
  assert (Hfirst : state (state_of first) = state probed /\
                   state_file (state_of first) = state_file self).
  { unfold first. rewrite save_state_spec. split; reflexivity. }
  assert (Hsecond : state (state_of second) = state cleared /\
                    state_file (state_of second) = state_file self).
  { unfold second. rewrite save_state_spec.
    change (state_of (?r, ?st, ?l)) with st.
    cbn [state state_file set_files]. split; [reflexivity|].
    unfold cleared. cbn [state_file set_state]. apply Hfirst. }
  split; [|split; [|split; [|split; [|split]]]].
  - rewrite Hrun. now destruct (res_of first), (res_of second).
  - rewrite Hrun. destruct (res_of first); unfold state_of at 1; cbn [fst snd].
    + apply Hsecond.
    + apply Hfirst.
  - rewrite Hrun. destruct (res_of first); unfold state_of at 1; cbn [fst snd].
    + apply Hsecond.
    + apply Hfirst.
  - apply check_state_file_accessible_passes.
  - intros c e Hp Hb Hw Hr. rewrite Hrun. unfold first.
    destruct (save_state_refused d1 probed c e Hb Hw Hr Hp) as (-> & _).
    reflexivity.
  - intros Hb1 Hw1 Hb2 Hw2.
    assert (H1 : first = (Ok tt, set_files (files_after_save WriteOk probed) probed,
                          save_records WriteOk))
      by now apply save_state_written.
    assert (H2 : second = (Ok tt, set_files (files_after_save WriteOk cleared) cleared,
                           save_records WriteOk))
      by now apply save_state_written.
    rewrite Hrun, H1. unfold res_of at 1. cbn [fst]. rewrite H2.
    unfold res_of, state_of. cbn [fst snd].
    split; [reflexivity|].
    unfold primary, backup. cbn [files state_file set_files].
    change (backup_file (set_files (files_after_save WriteOk cleared) cleared))
      with (backup_file cleared).
    destruct (files_after_save_ok cleared) as [-> ->].
    split; [reflexivity|].
    assert (Hprimary : primary cleared = Some (Json (state probed))).
    { unfold cleared, primary. rewrite H1. unfold state_of.
      cbn [fst snd files state_file set_files set_state].
      now destruct (files_after_save_ok probed) as [-> _]. }
    now rewrite Hprimary.
Qed.

End StateFileFacts.

(** In a directory that cannot be written, with a state file on disk: the
    first save of the check fails to rename and then to restore, so the
    check returns [False], the probe key stays in the map, and
    [cleanup_resources] ends on its error record. *)
Example check_state_file_accessible_refused :
  let refused :=
    PersistentState.mk_save_outcome
      (PersistentState.RenameFails (Exception "Permission denied"))
      (PersistentState.OpenFails (Exception "Permission denied"))
      (PersistentState.RenameFails (Exception "Permission denied")) in
  let store :=
    PersistentState.mk "persistent_state.json" {["k" := "v"]}
      {["persistent_state.json" := PersistentState.Json {["k" := "v"]};
        "persistent_state.json.backup" := PersistentState.Json ∅]} in
  let checked :=
    StateFile.check_state_file_accessible (fun s => s) "2024-01-02T09:30:00"
      refused refused store in
  res_of checked = Ok false /\
  PersistentState.state (state_of checked)
  = {["_health_check" := "2024-01-02T09:30:00"; "k" := "v"]} /\
  PersistentState.files (state_of checked) = PersistentState.files store /\
  logs_of (StateFile.cleanup_resources refused store)
  = [(ERROR, "Failed to save persistent state: Permission denied");
     (ERROR, "Error cleaning up resources: Permission denied")].
Proof. repeat split. Qed.

(** ** The scheduler manager *)

Section SchedulerFacts.

Import SchedulerManager.

Context {Sched JobSpec Job : Type}.
Variable BackgroundScheduler : result Sched.
Variable scheduler_start : M Sched unit.
Variable scheduler_shutdown : M Sched unit.
Variable scheduler_add_job : JobSpec -> M Sched Job.

Abbreviation manager := (SchedulerManager.t Sched).
Abbreviation start := (SchedulerManager.start BackgroundScheduler scheduler_start).
Abbreviation stop := (SchedulerManager.stop scheduler_shutdown).
Abbreviation add_job := (SchedulerManager.add_job scheduler_add_job).

(** A call of one of the three methods. *)
Inductive call : Type :=
| Start
| Stop
| AddJob (spec : JobSpec).

Definition perform (c : call) : M manager unit :=
  match c with
  | Start => start
  | Stop => stop
  | AddJob spec => _ ← add_job spec; mret tt
  end.

(** The manager after a series of calls, each made on the state left by
    the one before, whether that one returned or raised. *)
Definition after (cs : list call) (self : manager) : manager :=
  fold_left (fun s c => state_of (perform c s)) cs self.

(** The flag is set only on a manager that holds a scheduler. *)
Definition consistent (self : manager) : Prop :=
  match scheduler self with
  | None => is_running self = false
  | Some _ => True
  end.

Ltac scheduler_cases :=
  unfold SchedulerManager.start, SchedulerManager.stop, SchedulerManager.add_job,
    on_scheduler, mbind, M_bind, bind, get_state, modify, raise, log, mret,
    M_ret, ret, state_of, res_of;
  cbn;
  repeat (case_match; simplify_eq/=);
  cbn in *; simplify_eq/=.

Ltac finish :=
  solve [ reflexivity | congruence | eauto
        | match goal with
          | H : negb ?b = _ |- _ => destruct b; cbn in *; congruence
          end ].

Lemma perform_consistent (c : call) (self : manager) :
  consistent self -> consistent (state_of (perform c self)).
Proof.
  unfold consistent, perform. destruct c; scheduler_cases; auto.
Qed.

Lemma perform_keeps_scheduler (c : call) (self : manager) :
  is_Some (scheduler self) -> is_Some (scheduler (state_of (perform c self))).
Proof.
  unfold perform. intros [s Hs].
  destruct c; scheduler_cases; eauto.
Qed.

Lemma after_app (cs ds : list call) (self : manager) :
  after (cs ++ ds) self = after ds (after cs self).
Proof. apply fold_left_app. Qed.

Lemma after_consistent (cs : list call) :
  forall self, consistent self -> consistent (after cs self).
Proof.
  induction cs as [|c cs IH]; intros s Hs; [exact Hs|].
  unfold after in *. cbn [fold_left]. apply IH. now apply perform_consistent.
Qed.

(** Whatever series of calls is made on a new manager, and whichever of
    them fail, the running flag is never set on a manager without a
    scheduler; and a scheduler, once created, is kept for good: neither
    [stop] nor a failure removes it. On a new manager [stop] does nothing,
    and [add_job] returns [None], leaves the manager as it is and logs an
    error. *)
Theorem scheduler_manager_lifecycle (cs ds : list call) (spec : JobSpec) :
  consistent (after cs init) /\
  (is_Some (scheduler (after cs init)) ->
   is_Some (scheduler (after (cs ++ ds) init))) /\
  stop init = (Ok tt, init, []) /\
  add_job spec init = (Ok None, init, [(ERROR, "Scheduler not initialized")]).
Proof.
  split; [|split; [|split; reflexivity]].
  - apply after_consistent. reflexivity.
  - rewrite after_app. generalize (after cs init).
    induction ds as [|d ds IH]; intros s Hs; [exact Hs|].
    unfold after in *. cbn [fold_left]. apply IH.
    now apply perform_keeps_scheduler.
Qed.

(** A second [start] right after one that returned does nothing: it leaves
    the manager as it is, with the flag set and the scheduler held, and
    does not call the scheduler again. The same holds for a second [stop].
    A [start] that fails leaves the flag as it was. Both calls return
    whenever the calls of the library that they make return. *)
Theorem scheduler_start_stop_twice (self : manager) :
  (forall s1 out, start self = (Ok tt, s1, out) ->
     start s1 = (Ok tt, s1, []) /\ is_running s1 = true /\
     is_Some (scheduler s1)) /\
  (forall s1 out, stop self = (Ok tt, s1, out) -> stop s1 = (Ok tt, s1, [])) /\
  (forall e s1 out, start self = (Raise e, s1, out) ->
     is_running s1 = is_running self) /\
  (forall s, BackgroundScheduler = Ok s ->
     (forall s0, res_of (scheduler_start s0) = Ok tt) ->
     res_of (start self) = Ok tt) /\
  ((forall s0, res_of (scheduler_shutdown s0) = Ok tt) ->
   res_of (stop self) = Ok tt).
Proof.
  split; [|split; [|split; [|split]]].
  - intros s1 out H. split; [|split].
    + revert H. scheduler_cases; intros; simplify_eq/=; scheduler_cases; finish.
    + revert H. scheduler_cases; intros; simplify_eq/=; finish.
    + revert H. scheduler_cases; intros; simplify_eq/=; finish.
  - intros s1 out H.
    revert H. scheduler_cases; intros; simplify_eq/=; scheduler_cases; finish.
  - intros e s1 out H.
    revert H. scheduler_cases; intros; simplify_eq/=; finish.
  - intros s Hs Hstart. rewrite Hs.
    scheduler_cases; try reflexivity;
      match goal with
      | H : scheduler_start ?s0 = _ |- _ =>
          specialize (Hstart s0); rewrite H in Hstart; discriminate
      end.
  - intros Hstop.
    scheduler_cases; try reflexivity;
      match goal with
      | H : scheduler_shutdown ?s0 = _ |- _ =>
          specialize (Hstop s0); rewrite H in Hstop; discriminate
      end.
Qed.

End SchedulerFacts.

(** Two calls of [start] and two of [stop] on a scheduler that counts its
    starts and shutdowns: each is performed once. *)
Example scheduler_started_once :
  let start := SchedulerManager.start (Ok (0%nat, 0%nat))
                 (modify (fun c : nat * nat => (S (fst c), snd c))) in
  let stop := SchedulerManager.stop
                (modify (fun c : nat * nat => (fst c, S (snd c)))) in
  state_of ((start;; start;; stop;; stop) SchedulerManager.init)
  = SchedulerManager.mk (Some (1%nat, 1%nat)) false.
Proof. reflexivity. Qed.

(** ** Rate-limited endpoints *)

Section EndpointFacts.

Import RateLimiter RateLimitedEndpoint.

Context {App A : Type}.
Variable fromtimestamp_isoformat : Z -> string.
Variable func : Middleware.Request -> M App A.

Abbreviation endpoint := (RateLimitedEndpoint.t App).
Abbreviation wrapper := (RateLimitedEndpoint.wrapper fromtimestamp_isoformat func).

(** The identifier under which a decorated endpoint counts a request. *)
Definition client_identifier (request : Middleware.Request) : string :=
  match Middleware.client_host request with
  | Some host => host
  | None => "unknown"
  end.

(** The outcome of the endpoint function, as the wrapper passes it on. *)
Definition passed_on (r : result A) : result (HTTPException + A) :=
  match r with
  | Ok a => Ok (inr a)
  | Raise e => Raise e
  end.

Lemma wrapper_run (request : Middleware.Request) (now : Q) (self : endpoint) :
  let identifier := client_identifier request in
  let kept :=
    evict (now - inject_Z (window_seconds (limiter self)))
          (deque_of (limiter self) identifier) in
  let allowed := Z.of_nat (length kept) <? max_requests (limiter self) in
  let checked := is_allowed fromtimestamp_isoformat identifier now (limiter self) in
  let called := func request (app self) in
  exists info,
    checked = (Ok (allowed, info), state_of checked, logs_of checked) /\
    limit info = max_requests (limiter self) /\
    remaining info
    = Z.max 0 (max_requests (limiter self) - Z.of_nat (length kept)
               - (if allowed then 1 else 0)) /\
    reset info = match (if allowed then kept ++ [now] else kept) with
                 | [] => py_int now
                 | _ :: _ =>
                     py_int (now + inject_Z (window_seconds (limiter self)))
                 end /\
    wrapper request now self
    = if allowed then
        (passed_on (res_of called), mk (state_of checked) (state_of called),
         logs_of checked ++ logs_of called)
      else
        (Ok (inl {| exc_status_code := 429;
                    exc_detail := "Rate limit exceeded";
                    exc_headers :=
                      {[ "X-RateLimit-Limit" := str_int (limit info);
                         "X-RateLimit-Remaining" := str_int (remaining info);
                         "X-RateLimit-Reset" := str_int (reset info) ]} |}),
         mk (state_of checked) (app self), logs_of checked).
Proof.
  intros identifier kept allowed checked called.
  destruct (is_allowed_unfold fromtimestamp_isoformat identifier now (limiter self))
    as (info & out & Hcheck & Hlimit & Hremaining & Hreset).
  fold kept allowed in Hcheck, Hremaining, Hreset.
  exists info. fold checked in Hcheck.
  split; [now rewrite Hcheck|]. split; [exact Hlimit|].
  split; [exact Hremaining|]. split; [exact Hreset|].
  unfold RateLimitedEndpoint.wrapper, mbind, M_bind, bind, zoom.
  fold (client_identifier request). fold identifier. fold checked.
  rewrite Hcheck. unfold state_of, logs_of, res_of. cbn [fst snd].
  destruct allowed; cbn [negb].
  - subst called. unfold set_limiter, set_app. cbn [limiter app].
    destruct (func request (app self)) as [[[a|e] app'] outf]; cbn;
      rewrite ?app_nil_r; reflexivity.
  - cbn. rewrite app_nil_r. reflexivity.
Qed.

(** A decorated endpoint counts a request under the host of the client, or
    under ["unknown"] when the request has no client: headers play no part.
    When the limiter admits the request, the endpoint function is called and
    its value or its exception is passed on; the request has been counted
    either way. When the limiter rejects it, the function is not called and
    the application is untouched: the wrapper raises an [HTTPException] with
    status 429 and exactly three headers, the limit, a remaining count of 0
    and the reset instant; there is no [Retry-After] header. *)
Theorem wrapper_admits_or_rejects
    (request : Middleware.Request) (now : Q) (self : endpoint) :
  let identifier := client_identifier request in
  let kept :=
    evict (now - inject_Z (window_seconds (limiter self)))
          (deque_of (limiter self) identifier) in
  let checked := is_allowed fromtimestamp_isoformat identifier now (limiter self) in
  let called := func request (app self) in
  let run := wrapper request now self in
  limiter (state_of run) = state_of checked /\
  if Z.of_nat (length kept) <? max_requests (limiter self) then
    res_of run = passed_on (res_of called) /\
    app (state_of run) = state_of called /\
    deque_of (limiter (state_of run)) identifier = kept ++ [now]
  else
    app (state_of run) = app self /\
    deque_of (limiter (state_of run)) identifier = kept /\
    exists e,
      res_of run = Ok (inl e) /\
      exc_status_code e = 429 /\
      exc_headers e
      = {[ "X-RateLimit-Limit" := str_int (max_requests (limiter self));
           "X-RateLimit-Remaining" := "0";
           "X-RateLimit-Reset" :=
             str_int (match kept with
                      | [] => py_int now
                      | _ :: _ =>
                          py_int (now + inject_Z (window_seconds (limiter self)))
                      end) ]} /\
      exc_headers e !! "Retry-After" = None.
Proof.
  intros identifier kept checked called run.
  destruct (wrapper_run request now self)
    as (info & Hcheck & Hlimit & Hremaining & Hreset & Hrun).
  fold identifier kept checked called run in Hcheck, Hremaining, Hreset, Hrun.
  assert (Hdeque : deque_of (state_of checked) identifier
                   = if Z.of_nat (length kept) <? max_requests (limiter self)
                     then kept ++ [now] else kept).
  { destruct (is_allowed_unfold fromtimestamp_isoformat identifier now (limiter self))
      as (info' & out & Hc & _).
    fold kept checked in Hc. rewrite Hc. unfold state_of, deque_of.
    cbn [fst snd requests]. now rewrite lookup_insert_eq. }
  destruct (Z.ltb_spec (Z.of_nat (length kept)) (max_requests (limiter self)))
    as [Hlt|Hge]; rewrite Hrun; unfold res_of, state_of at 1; cbn [fst snd limiter app].
  - split; [reflexivity|]. split; [reflexivity|]. split; [reflexivity|].
    exact Hdeque.
  - split; [reflexivity|]. split; [reflexivity|]. split; [exact Hdeque|].
    eexists. split; [reflexivity|]. cbn [exc_status_code exc_headers].
    split; [reflexivity|].
    rewrite Hlimit, Hremaining, Hreset.
    replace (Z.max 0 (max_requests (limiter self) - Z.of_nat (length kept) - 0))
      with 0 by lia.
    split; reflexivity.
Qed.

(** The calls that a decorated endpoint receives one after the other, with
    the instant of each: the outcomes are returned in order. A call that
    raises does not stop the calls after it. *)
Fixpoint serve (calls : list (Middleware.Request * Q)) (self : endpoint)
    : list (result (HTTPException + A)) * endpoint :=
  match calls with
  | [] => ([], self)
  | (request, now) :: rest =>
      let '(r, self1, _) := wrapper request now self in
      let '(rs, self2) := serve rest self1 in
      (r :: rs, self2)
  end.

(** The endpoint function was called. *)
Definition admitted (r : result (HTTPException + A)) : bool :=
  match r with
  | Ok (inl _) => false
  | _ => true
  end.

Lemma serve_check_all (identifier : string) (calls : list (Middleware.Request * Q)) :
  forall self : endpoint,
    Forall (fun c => client_identifier (fst c) = identifier) calls ->
    map admitted (fst (serve calls self))
    = fst (check_all fromtimestamp_isoformat identifier (map snd calls)
             (limiter self)).
Proof.
  induction calls as [|[request now] calls IH]; intros self Hall; [reflexivity|].
  apply Forall_cons in Hall as [Hid Hall']. cbn [fst] in Hid.
  cbn [serve map snd check_all].
  destruct (wrapper_run request now self) as (info & Hcheck & _ & _ & _ & Hrun).
  rewrite Hid in Hcheck, Hrun. rewrite Hcheck. cbv beta iota zeta.
  rewrite Hrun.
  set (allowed := Z.of_nat (length _) <? _).
  destruct allowed.
  - cbv beta iota zeta.
    specialize (IH (mk (state_of (is_allowed fromtimestamp_isoformat identifier now
                                    (limiter self)))
                       (state_of (func request (app self)))) Hall').
    cbn [limiter] in IH.
    destruct (serve calls _) as [rs s2].
    destruct (check_all _ _ _ _) as [ds l2].
    cbn [fst map] in *. f_equal; [|exact IH].
    unfold passed_on, admitted. now destruct (res_of _).
  - cbv beta iota zeta.
    specialize (IH (mk (state_of (is_allowed fromtimestamp_isoformat identifier now
                                    (limiter self)))
                       (app self)) Hall').
    cbn [limiter] in IH.
    destruct (serve calls _) as [rs s2].
    destruct (check_all _ _ _ _) as [ds l2].
    cbn [fst map] in *. f_equal. exact IH.
Qed.

(** A newly decorated endpoint calls its function for the first
    [max_requests] requests of a client and raises 429 for the requests after
    them, as long as the first of the requests has not left the window; a
    request for which the function raised counts like any other. *)
Theorem decorated_endpoint_quota
    (max_requests window_seconds : Z) (a : App) (identifier : string)
    (calls : list (Middleware.Request * Q)) :
  Forall (fun c => client_identifier (fst c) = identifier) calls ->
  (forall first, head (map snd calls) = Some first ->
     Forall (fun now => (now - inject_Z window_seconds < first)%Q) (map snd calls)) ->
  map admitted (fst (serve calls (decorator max_requests window_seconds a)))
  = map (fun i => Z.of_nat i <? max_requests) (seq 0 (length calls)).
Proof.
  intros Hid Hwindow.
  rewrite (serve_check_all identifier calls _ Hid).
  unfold decorator. cbn [limiter].
  rewrite decisions_from_empty.
  - now rewrite length_map.
  - reflexivity.
  - exact Hwindow.
Qed.

End EndpointFacts.

(** Three requests of one client to an endpoint limited to two per minute,
    whose function raises every time: the third is rejected. *)
Lemma decorated_endpoint_quota_witness :
  map admitted
    (fst (serve (fun _ => "") (fun _ => raise (Exception "boom") : M unit unit)
            [(Middleware.mk_request "/quote" ∅ (Some "10.0.0.1"), 0%Q);
             (Middleware.mk_request "/quote" ∅ (Some "10.0.0.1"), 1%Q);
             (Middleware.mk_request "/quote" ∅ (Some "10.0.0.1"), 2%Q)]
            (RateLimitedEndpoint.decorator 2 60 tt)))
  = [true; true; false].
Proof.
  apply (decorated_endpoint_quota (fun _ => "")
           (fun _ => raise (Exception "boom") : M unit unit) 2 60 tt "10.0.0.1"
           [(Middleware.mk_request "/quote" ∅ (Some "10.0.0.1"), 0%Q);
            (Middleware.mk_request "/quote" ∅ (Some "10.0.0.1"), 1%Q);
            (Middleware.mk_request "/quote" ∅ (Some "10.0.0.1"), 2%Q)]).
  - repeat constructor.
  - intros first [= <-]. repeat constructor.
Defined.

(** ** The monitor of the system load *)

Section SystemLoadFacts.

Import AdaptiveRateLimiter SystemLoad.

Variable format_float : nat -> Q -> string.

Abbreviation update_system_load := (AdaptiveRateLimiter.update_system_load format_float).
Abbreviation updates := (AdaptiveRateLimiter.updates format_float).
Abbreviation monitor_iteration := (SystemLoad.monitor_iteration format_float).
Abbreviation monitor_system_load := (SystemLoad.monitor_system_load format_float).

(** The pause that follows an iteration. *)
Definition pause_after (observation : psutil * Q) : Z :=
  match fst observation with
  | Fails _ => 60
  | _ => 30
  end.

(** The load reports that reach the adaptive limiter. *)
Fixpoint readings (observations : list (psutil * Q)) : list (Q * Q * Q) :=
  match observations with
  | [] => []
  | (Reads cpu memory, now) :: rest => (cpu, memory, now) :: readings rest
  | (NotInstalled, now) :: rest => (50%Q, 50%Q, now) :: readings rest
  | (Fails _, _) :: rest => readings rest
  end.

Lemma update_system_load_returns (cpu mem now : Q) (self : t) :
  update_system_load cpu mem now self
  = (Ok tt, state_of (update_system_load cpu mem now self),
     logs_of (update_system_load cpu mem now self)).
Proof.
  destruct (update_system_load_unfold format_float cpu mem now self) as (out & ->).
  reflexivity.
Qed.

Lemma monitor_iteration_run (p : psutil) (now : Q) (self : t) :
  monitor_iteration p now self
  = match p with
    | Reads cpu memory =>
        (Ok 30, state_of (update_system_load cpu memory now self),
         logs_of (update_system_load cpu memory now self))
    | NotInstalled =>
        (Ok 30, state_of (update_system_load 50 50 now self),
         (WARNING, "psutil not available, using dummy metrics")
         :: logs_of (update_system_load 50 50 now self))
    | Fails e =>
        (Ok 60, self, [(ERROR, "Error monitoring system load: " +:+ exn_str e)])
    end.
Proof.
  unfold SystemLoad.monitor_iteration, get_system_metrics, try_except, mbind,
    M_bind, bind, log, raise, mret, M_ret, ret.
  destruct p as [|cpu memory|e]; [| |reflexivity].
  - rewrite update_system_load_returns. cbn. now rewrite app_nil_r.
  - rewrite update_system_load_returns. cbn. now rewrite app_nil_r.
Qed.

Lemma updates_cons (cpu mem now : Q) (rest : list (Q * Q * Q)) (self : t) :
  state_of (updates ((cpu, mem, now) :: rest) self)
  = state_of (updates rest (state_of (update_system_load cpu mem now self))).
Proof.
  unfold AdaptiveRateLimiter.updates. cbn [for_each]. unfold bind.
  rewrite update_system_load_returns.
  now destruct (for_each rest _ _) as [[r s2] l2].
Qed.

Lemma monitor_system_load_steps
    (observations : list (psutil * Q)) (self : t) :
  let run := monitor_system_load observations self in
  res_of run = Ok (map pause_after observations) /\
  state_of run = state_of (updates (readings observations) self).
Proof.
  revert self. induction observations as [|[p now] rest IH]; intros self.
  - split; reflexivity.
  - cbn zeta in *. cbn [SystemLoad.monitor_system_load].
    unfold mbind, M_bind, bind. rewrite monitor_iteration_run.
    destruct p as [|cpu memory|e]; cbn [readings map];
      rewrite ?updates_cons;
      match goal with
      | |- context [monitor_system_load rest ?s] =>
          destruct (IH s) as (IHr & IHs);
          destruct (monitor_system_load rest s) as [[r s2] l2]
      end;
      unfold res_of, state_of in *; cbn [fst snd] in *;
      rewrite <- IHs; subst r; split; reflexivity.
Qed.

(** The loop of [monitor_system_load] never stops on an exception: an
    iteration whose readings fail logs the error, leaves the adaptive
    limiter as it is and is followed by a pause of 60 seconds; any other
    is followed by a pause of 30 seconds. The limiter receives the readings
    that were obtained, and a load of 50 and 50 for every iteration in which
    [psutil] was missing. *)
Theorem monitor_system_load_never_stops
    (observations : list (psutil * Q)) (self : t) :
  let run := monitor_system_load observations self in
  res_of run = Ok (map pause_after observations) /\
  state_of run = state_of (updates (readings observations) self).
Proof. apply monitor_system_load_steps. Qed.

(** *** Without [psutil] *)

Lemma fold_left_Qplus_constant (c : Q) (xs : list Q) :
  Forall (fun x => (x == c)%Q) xs ->
  forall acc : Q,
    (fold_left Qplus xs acc == acc + c * inject_Z (Z.of_nat (length xs)))%Q.
Proof.
  induction 1 as [|x xs Hx _ IH]; intros acc.
  - cbn. ring.
  - cbn [fold_left length]. rewrite IH, Hx.
    rewrite Nat2Z.inj_succ. unfold Z.succ. rewrite inject_Z_plus. ring.
Qed.

Lemma mean_constant (c : Q) (xs : list Q) :
  xs <> [] -> Forall (fun x => (x == c)%Q) xs -> (mean xs == c)%Q.
Proof.
  intros Hne Hall. unfold mean, py_sum.
  rewrite (fold_left_Qplus_constant c xs Hall).
  assert (Hn : ~ (inject_Z (Z.of_nat (length xs)) == 0)%Q).
  { destruct xs as [|x xs]; [congruence|].
    unfold Qeq. cbn [length Qnum Qden inject_Z]. lia. }
  field. exact Hn.
Qed.

Lemma deque_append_Forall (P : Q -> Prop) (d : list Q) (x : Q) :
  Forall P d -> P x -> Forall P (deque_append d x).
Proof.
  intros Hd Hx. unfold deque_append.
  destruct (length d <? maxlen)%nat.
  - apply Forall_app. split; [exact Hd | now constructor].
  - apply Forall_app. split; [|now constructor].
    destruct Hd; [constructor | assumption].
Qed.

Lemma adjusted_multiplier_moderate (avg_load multiplier : Q) :
  (40 <= avg_load)%Q -> (avg_load <= 80)%Q ->
  adjusted_multiplier avg_load multiplier = multiplier.
Proof.
  intros Hlow Hhigh. unfold adjusted_multiplier.
  rewrite (proj2 (Qlt_bool_false_iff 80 avg_load) Hhigh).
  now rewrite (proj2 (Qlt_bool_false_iff avg_load 40) Hlow).
Qed.

(** A limiter that has only seen the load 50 and never adapted. *)
Definition idle (self : t) : Prop :=
  current_multiplier self = 1%Q /\
  RateLimiter.max_requests (rate_limiter self) = base_limit self /\
  Forall (fun x => (x == 50)%Q) (load_samples self).

Lemma update_system_load_idle (now : Q) (self : t) :
  idle self ->
  idle (state_of (update_system_load 50 50 now self)) /\
  base_limit (state_of (update_system_load 50 50 now self)) = base_limit self.
Proof.
  intros (Hm & Hmax & Hsamples).
  destruct (update_system_load_unfold format_float 50 50 now self) as (out & ->).
  unfold state_of. cbn [fst snd].
  assert (Hs : Forall (fun x => (x == 50)%Q)
                 (deque_append (load_samples self) ((50 + 50) / 2)%Q)).
  { apply deque_append_Forall; [exact Hsamples | reflexivity]. }
  assert (Hmean : (mean (deque_append (load_samples self) ((50 + 50) / 2)%Q) == 50)%Q).
  { apply mean_constant; [apply deque_append_nonempty | exact Hs]. }
  rewrite adjusted_multiplier_moderate
    by (rewrite Hmean; unfold Qle; cbn; lia).
  destruct (Qlt_bool 30 (now - last_adjustment self)); unfold idle;
    cbn [current_multiplier rate_limiter load_samples base_limit
         RateLimiter.max_requests].
  - split; [|reflexivity]. split; [exact Hm|]. split; [|exact Hs].
    rewrite Hm. rewrite <- (py_int_inject_Z (base_limit self)) at 2.
    apply py_int_comp. ring.
  - split; [|reflexivity]. split; [exact Hm|]. split; [exact Hmax | exact Hs].
Qed.

(** When [psutil] is missing, the monitor feeds the adaptive limiter the
    load 50 at every iteration, which is neither high nor low: however
    long it runs and whatever the instants, the multiplier of a new adaptive
    limiter stays 1 and its limit stays the base limit. *)
Theorem monitor_without_psutil_never_adapts
    (base_limit window_seconds : Z) (start : Q) (nows : list Q) :
  let run :=
    monitor_system_load (map (fun now => (NotInstalled, now)) nows)
      (init base_limit window_seconds start) in
  res_of run = Ok (map (fun _ => 30) nows) /\
  current_multiplier (state_of run) = 1%Q /\
  RateLimiter.max_requests (rate_limiter (state_of run)) = base_limit.
Proof.
  intros run.
  destruct (monitor_system_load_steps (map (fun now => (NotInstalled, now)) nows)
              (init base_limit window_seconds start)) as (Hres & Hstate).
  fold run in Hres, Hstate. split.
  { rewrite Hres, map_map. reflexivity. }
  rewrite Hstate.
  assert (H : forall self, idle self ->
            idle (state_of (updates
                    (readings (map (fun now => (NotInstalled, now)) nows)) self)) /\
            AdaptiveRateLimiter.base_limit
              (state_of (updates
                    (readings (map (fun now => (NotInstalled, now)) nows)) self))
            = AdaptiveRateLimiter.base_limit self).
  { clear. induction nows as [|now nows IH]; intros self Hidle.
    - split; [exact Hidle | reflexivity].
    - cbn [map readings]. rewrite updates_cons.
      destruct (update_system_load_idle now self Hidle) as (H1 & Hb1).
      destruct (IH _ H1) as (H2 & Hb2). split; [exact H2 | congruence]. }
  destruct (H (init base_limit window_seconds start)) as ((Hm & Hmax & _) & Hb).
  { repeat split. constructor. }
  split; [exact Hm|]. rewrite Hmax, Hb. reflexivity.
Qed.

End SystemLoadFacts.

(** ** The registry of health checks and the [/health] endpoint *)

Section HealthEndpointFacts.

Import HealthChecker HealthEndpoint.

Context {W : Type}.
Variable now_isoformat : W -> string.
Variable TWILIO_AUTH_TOKEN WEBHOOK_URL TARGET_PHONE_NUMBER : option string.
Variable json_dumps : body -> string.

Abbreviation checker := (HealthChecker.t W).
Abbreviation health_check :=
  (HealthEndpoint.health_check now_isoformat TWILIO_AUTH_TOKEN WEBHOOK_URL
     TARGET_PHONE_NUMBER json_dumps).

Lemma dict_set_new (name : string) (f : check W) (d : list (string * check W)) :
  name ∉ d.*1 -> dict_set name f d = d ++ [(name, f)].
Proof.
  induction d as [|[k g] d IH]; intros Hnotin; [reflexivity|].
  cbn [dict_set]. cbn [fmap list_fmap fst] in Hnotin.
  apply not_elem_of_cons in Hnotin as [Hne Hrest].
  destruct (String.eqb_spec k name) as [->|_]; [congruence|].
  cbn [app]. f_equal. now apply IH.
Qed.

Lemma dict_set_present (name : string) (f g : check W)
    (pre post : list (string * check W)) :
  name ∉ pre.*1 ->
  dict_set name f (pre ++ (name, g) :: post) = pre ++ (name, f) :: post.
Proof.
  induction pre as [|[k h] pre IH]; intros Hnotin.
  - cbn. now rewrite String.eqb_refl.
  - cbn [app dict_set]. cbn [fmap list_fmap fst] in Hnotin.
    apply not_elem_of_cons in Hnotin as [Hne Hrest].
    destruct (String.eqb_spec k name) as [->|_]; [congruence|].
    f_equal. now apply IH.
Qed.

(** Registering a check under a new name puts it last. Registering under a
    name that is already held replaces the check held under that name, at
    the same place: the registry never holds a name twice, and the check
    that was replaced is no longer run. The world and the status are
    untouched. *)
Theorem register_health_check_replaces
    (name : string) (check_func : check W) (self : checker) :
  let run := register_health_check name check_func self in
  res_of run = Ok tt /\
  world (state_of run) = world self /\
  health_status (state_of run) = health_status self /\
  (name ∉ (health_checks self).*1 ->
   health_checks (state_of run) = health_checks self ++ [(name, check_func)]) /\
  (forall pre old post,
     health_checks self = pre ++ (name, old) :: post -> name ∉ pre.*1 ->
     health_checks (state_of run) = pre ++ (name, check_func) :: post) /\
  (NoDup (health_checks self).*1 -> NoDup (health_checks (state_of run)).*1).
Proof.
  intros run.
  assert (Hrun : run
                 = (Ok tt,
                    mk (dict_set name check_func (health_checks self))
                       (last_health_check self) (health_status self) (world self),
                    [(DEBUG, "Registered health check: " +:+ name)]))
    by reflexivity.
  rewrite Hrun. unfold res_of, state_of.
  cbn [fst snd health_checks world health_status].
  split; [reflexivity|]. split; [reflexivity|]. split; [reflexivity|].
  split; [apply dict_set_new|]. split.
  - intros pre old post Heq Hpre. rewrite Heq. now apply dict_set_present.
  - apply dict_set_NoDup.
Qed.

(** The [/health] endpoint answers 200 when every registered check, called
    in its turn, returned a truthy value, and 503 otherwise; with no check
    registered it answers 200. Since [run_health_checks] does not raise,
    the error report is never sent: the body is always the report of the
    checks merged with the service information. The checker is left as
    [run_health_checks] leaves it. *)
Theorem health_check_status (self : checker) :
  let healthy := all_pass (health_checks self) (world self) in
  let checked := run_health_checks now_isoformat self in
  let run := health_check self in
  exists report,
    res_of checked = Ok report /\
    overall_status report = (if healthy then "healthy" else "unhealthy") /\
    res_of run
    = Ok {| content :=
              json_dumps
                (Health report "stock-tracker" "1.0.0"
                   {| twilio_configured := truthy TWILIO_AUTH_TOKEN;
                      webhook_configured := truthy WEBHOOK_URL;
                      target_phone_configured := truthy TARGET_PHONE_NUMBER |});
            media_type := "application/json";
            status_code := if healthy then 200 else 503 |} /\
    state_of run = state_of checked /\
    logs_of run = logs_of checked /\
    (health_checks self = [] -> healthy = true).
Proof.
  intros healthy checked run.
  destruct (run_health_checks_unfold now_isoformat self) as (out & Hchecked).
  cbv zeta in Hchecked. fold healthy checked in Hchecked.
  eexists. rewrite Hchecked. unfold res_of at 1. cbn [fst snd].
  split; [reflexivity|]. cbn [overall_status]. split; [reflexivity|].
  eassert (Hrun : run = (Ok _, state_of checked, out)).
  { unfold run, HealthEndpoint.health_check. eapply run_try_Ok.
    unfold mbind, M_bind, bind, mret, M_ret, ret.
    change (run_health_checks now_isoformat self) with checked.
    rewrite Hchecked. unfold state_of. cbn [fst snd]. rewrite app_nil_r.
    reflexivity. }
  rewrite Hchecked in Hrun. rewrite Hrun.
  unfold res_of, state_of, logs_of. cbn [fst snd overall_status].
  split; [|split; [reflexivity|split; [reflexivity|]]].
  - destruct healthy; reflexivity.
  - intros Hnone. unfold healthy. now rewrite Hnone.
Qed.

End HealthEndpointFacts.

(** ** The budget of a limiter across requests *)

Section MiddlewareBudget.

Import RateLimiter Middleware.

Context {App : Type}.
Variable fromtimestamp_isoformat : Z -> string.
Variable call_next : Request -> M App Response.

Abbreviation rate_limit_middleware :=
  (Middleware.rate_limit_middleware fromtimestamp_isoformat call_next).

(** The requests that the middleware receives one after the other, with the
    instant of each: the outcomes are returned in order. *)
Fixpoint handle_all (calls : list (Request * Q)) (g : globals App)
    : list (result Response) * globals App :=
  match calls with
  | [] => ([], g)
  | (request, now) :: rest =>
      let '(r, g1, _) := rate_limit_middleware request now g in
      let '(rs, g2) := handle_all rest g1 in
      (r :: rs, g2)
  end.

(** The response that the middleware builds for a rejected request. *)
Definition turned_away (r : result Response) : Prop :=
  exists response,
    r = Ok response /\ status_code response = 429 /\
    content response = "Rate limit exceeded" /\
    is_Some (headers response !! "Retry-After").

Lemma limiter_of_set_app_set_limiter
    (name : limiter_name) (l : RateLimiter.t) (a : App) (g : globals App) :
  limiter_of name (set_app a (set_limiter name l g)) = l.
Proof. destruct name; reflexivity. Qed.

Lemma rate_limit_middleware_step
    (name : limiter_name) (identifier : string)
    (request : Request) (now : Q) (g : globals App) :
  select request = (name, identifier) ->
  let checked := is_allowed fromtimestamp_isoformat identifier now (limiter_of name g) in
  let run := rate_limit_middleware request now g in
  exists allowed info,
    checked = (Ok (allowed, info), state_of checked, logs_of checked) /\
    limiter_of name (state_of run) = state_of checked /\
    (allowed = false -> turned_away (res_of run) /\ app (state_of run) = app g).
Proof.
  intros Hsel checked run.
  destruct (is_allowed_unfold fromtimestamp_isoformat identifier now
              (limiter_of name g)) as (info & out & Hcheck & _).
  fold checked in Hcheck.
  eexists _, info. split; [now rewrite Hcheck|].
  unfold run, Middleware.rate_limit_middleware, try_except.
  rewrite Hsel. unfold mbind, M_bind, bind, zoom.
  fold checked. rewrite Hcheck. unfold state_of, res_of. cbn [fst snd].
  destruct (_ <? _); cbn [negb].
  - split; [|discriminate].
    rewrite app_set_limiter.
    destruct (call_next request (app g)) as [[[r|e] a1] o1]; cbn.
    + apply limiter_of_set_app_set_limiter.
    + destruct (call_next request a1) as [[r2 a2] o2]. cbn.
      apply limiter_of_set_app_set_limiter.
  - cbn. split; [apply limiter_of_set_limiter|].
    intros _. split.
    + eexists. split; [reflexivity|]. cbn [status_code content headers].
      split; [reflexivity|]. split; [reflexivity|].
      rewrite lookup_insert_eq. eauto.
    + destruct name, g; reflexivity.
Qed.

Lemma handle_all_check_all (name : limiter_name) (identifier : string)
    (calls : list (Request * Q)) :
  forall g : globals App,
    Forall (fun c => select (fst c) = (name, identifier)) calls ->
    Forall2 (fun (admitted : bool) r => admitted = false -> turned_away r)
      (fst (check_all fromtimestamp_isoformat identifier (map snd calls)
              (limiter_of name g)))
      (fst (handle_all calls g)).
Proof.
  induction calls as [|[request now] calls IH]; intros g Hall; [constructor|].
  apply Forall_cons in Hall as [Hsel Hall']. cbn [fst] in Hsel.
  cbn [handle_all map snd check_all].
  destruct (rate_limit_middleware_step name identifier request now g Hsel)
    as (allowed & info & Hcheck & Hlimiter & Hrejected).
  rewrite Hcheck. cbv beta iota zeta.
  destruct (rate_limit_middleware request now g) as [[r g1] out1] eqn:Hrun.
  unfold state_of, res_of in Hlimiter, Hrejected. cbn [fst snd] in Hlimiter, Hrejected.
  specialize (IH g1 Hall'). rewrite Hlimiter in IH.
  destruct (handle_all calls g1) as [rs g2].
  destruct (check_all _ _ _ _) as [ds l2].
  cbn [fst] in *. constructor; [|exact IH].
  intros ->. now apply Hrejected.
Qed.

(** The budget of a limiter is shared by all requests that the middleware
    counts under one identifier: of the requests that reach a limiter with
    no instant recorded for the identifier, those from number [max_requests]
    on (counting from 0) are answered 429 by the middleware itself, as long
    as the first of them has not left the window. All requests to
    [/receive-message] are counted under ["twilio_webhook"] by the limiter of
    the webhook, whatever their client and their headers; with the limiters
    of the module this leaves 30 requests per minute for all senders
    together. *)
Theorem rate_limit_budget_shared
    (name : limiter_name) (identifier : string)
    (calls : list (Request * Q)) (g : globals App) :
  Forall (fun c => select (fst c) = (name, identifier)) calls ->
  deque_of (limiter_of name g) identifier = [] ->
  (forall first, head (map snd calls) = Some first ->
     Forall (fun now =>
               (now - inject_Z (window_seconds (limiter_of name g)) < first)%Q)
            (map snd calls)) ->
  (forall i r,
     fst (handle_all calls g) !! i = Some r ->
     max_requests (limiter_of name g) <= Z.of_nat i ->
     turned_away r) /\
  (forall request,
     url_path request = "/receive-message" ->
     select request = (twilio, "twilio_webhook")) /\
  max_requests (limiter_of twilio (initial_globals (app g))) = 30 /\
  window_seconds (limiter_of twilio (initial_globals (app g))) = 60.
Proof.
  intros Hsel Hempty Hwindow. split; [|split; [|split; reflexivity]].
  - pose proof (handle_all_check_all name identifier calls g Hsel) as H2.
    rewrite (decisions_from_empty fromtimestamp_isoformat identifier
               (map snd calls) (limiter_of name g) Hempty Hwindow) in H2.
    intros i r Hi Hmax.
    destruct (Forall2_lookup_r _ _ _ _ _ H2 Hi) as (d & Hd & Himp).
    apply Himp. apply list_lookup_fmap_Some in Hd as (j & -> & Hj).
    apply lookup_seq in Hj as [-> _]. apply Z.ltb_ge. cbn. lia.
  - intros request Hpath. unfold select. now rewrite Hpath.
Qed.

End MiddlewareBudget.

(** Thirty-one webhook requests within half a minute, sent in turn by two
    clients: the last one is turned away. *)
Definition webhook_calls : list (Middleware.Request * Q) :=
  map (fun i : nat =>
         (Middleware.mk_request "/receive-message" ∅
            (Some (if Nat.even i then "10.0.0.1" else "10.0.0.2")),
          inject_Z (Z.of_nat i)))
      (seq 0 31).

Lemma rate_limit_budget_shared_witness :
  exists r,
    fst (handle_all (fun _ => "")
           (fun _ => ret (Middleware.mk_response 200 "OK" ∅) : M unit _)
           webhook_calls (Middleware.initial_globals tt)) !! 30%nat = Some r /\
    turned_away r.
Proof.
  eexists. split; [vm_compute; reflexivity|].
  refine (proj1 (rate_limit_budget_shared (fun _ => "")
                   (fun _ => ret (Middleware.mk_response 200 "OK" ∅) : M unit _)
                   Middleware.twilio "twilio_webhook" webhook_calls
                   (Middleware.initial_globals tt) _ _ _) 30%nat _ _ _).
  - unfold webhook_calls. simpl. repeat constructor.
  - reflexivity.
  - intros first [= <-]. unfold webhook_calls. simpl. repeat constructor.
  - vm_compute. reflexivity.
  - vm_compute. discriminate.
Defined.

(** ** The lifespan of the application *)

Section LifespanFacts.

Import Lifespan.

Context {Value Sched OS : Type}.
Variable BackgroundScheduler : result Sched.
Variable scheduler_start : M Sched unit.
Variable scheduler_shutdown : M Sched unit.
Variable str_value : string -> Value.
Variable clock : OS -> string.
Variable getpid : Z.
Variable write_file : string -> ServiceManager.state_data -> M OS unit.
Variable os_name : string.
Variable install : ServiceManager.signal_name -> M OS unit.
Variable next_write : OS -> PersistentState.save_outcome * OS.

Abbreviation globals := (Lifespan.globals Value Sched OS).
Abbreviation manager := (Lifespan.manager Value Sched OS).
Abbreviation process := (Lifespan.process Value Sched OS).
Abbreviation service_start :=
  (Lifespan.service_start (Value:=Value) (Sched:=Sched) clock getpid write_file
     os_name install).
Abbreviation service_shutdown :=
  (Lifespan.service_shutdown (Value:=Value) (Sched:=Sched) clock getpid write_file).
Abbreviation cleanup_scheduler :=
  (Lifespan.cleanup_scheduler (Value:=Value) (OS:=OS) scheduler_shutdown).
Abbreviation cleanup_resources :=
  (Lifespan.cleanup_resources (Value:=Value) (Sched:=Sched) next_write).
Abbreviation scheduler_check :=
  (@Lifespan.scheduler_check Value Sched OS).
Abbreviation state_file_check :=
  (Lifespan.state_file_check (Sched:=Sched) str_value clock next_write).
Abbreviation lifespan_enter :=
  (Lifespan.lifespan_enter BackgroundScheduler scheduler_start scheduler_shutdown
     str_value clock getpid write_file os_name install next_write).
Abbreviation lifespan_exit :=
  (Lifespan.lifespan_exit (Value:=Value) (Sched:=Sched) clock getpid write_file).
Abbreviation run_health_checks :=
  (HealthChecker.run_health_checks
     (fun sm : manager => clock (os (ServiceManager.world sm)))).

(** A process in which nothing has been registered. *)
Definition fresh (g : globals) : process :=
  HealthChecker.init (ServiceManager.init g).

(** The overall status that [run_health_checks] reports. *)
Definition reported (p : process) : option string :=
  match res_of (run_health_checks p) with
  | Ok report => Some (HealthChecker.overall_status report)
  | Raise _ => None
  end.

Lemma zoom_run {S T A} (get : S -> T) (set : T -> S -> S) (m : M T A) (s : S) :
  zoom get set m s
  = (res_of (m (get s)), set (state_of (m (get s))) s, logs_of (m (get s))).
Proof. unfold zoom. now destruct (m (get s)) as [[r t'] out]. Qed.

(** Only the operating system differs. *)
Definition os_changed (sm sm' : manager) : Prop :=
  exists o, sm' = ServiceManager.set_world (set_os o (ServiceManager.world sm)) sm.

Lemma os_changed_refl (sm : manager) : os_changed sm sm.
Proof. exists (os (ServiceManager.world sm)). now destruct sm as [? ? ? ? ? ? []]. Qed.

Lemma os_changed_trans (a b c : manager) :
  os_changed a b -> os_changed b c -> os_changed a c.
Proof. intros [o1 ->] [o2 ->]. exists o2. reflexivity. Qed.

Lemma save_run (state : string) (sm : manager) :
  exists sm' out,
    ServiceManager._save_service_state (Lifespan.now_isoformat clock) getpid
      (fun path data => on_os (write_file path data)) state sm
    = (Ok tt, sm', out) /\ os_changed sm sm'.
Proof.
  unfold ServiceManager._save_service_state, try_except, mbind, M_bind, bind,
    get_state, log.
  rewrite zoom_run. unfold on_os. rewrite zoom_run.
  unfold res_of, state_of, logs_of.
  destruct (write_file _ _ _) as [[[[]|e] o'] out]; cbn [fst snd];
    eexists _, _; (split; [reflexivity|]); exists o'; reflexivity.
Qed.

Section Returning.

Hypothesis install_returns : forall sig o, res_of (install sig o) = Ok tt.

Lemma install_run (sig : ServiceManager.signal_name) (g : globals) :
  on_os (install sig) g
  = (Ok tt, set_os (state_of (install sig (os g))) g, logs_of (install sig (os g))).
Proof. unfold on_os. rewrite zoom_run. now rewrite install_returns. Qed.

Lemma setup_run (sm : manager) :
  exists sm' out,
    ServiceManager._setup_signal_handlers os_name
      (fun sig => on_os (install sig)) sm
    = (Ok tt, sm', out) /\ os_changed sm sm'.
Proof.
  unfold ServiceManager._setup_signal_handlers. rewrite zoom_run.
  destruct (negb (os_name =? "nt")%string).
  - eassert (H : (on_os (install ServiceManager.SIGTERM);;
                  on_os (install ServiceManager.SIGINT);;
                  on_os (install ServiceManager.SIGHUP))
                   (ServiceManager.world sm) = (Ok tt, set_os _ _, _)).
    { run_ok; [apply install_run|]. run_ok; [apply install_run|].
      rewrite install_run. reflexivity. }
    rewrite H. eexists _, _. split; [reflexivity|].
    eexists. unfold state_of. cbn [fst snd]. reflexivity.
  - eassert (H : (on_os (install ServiceManager.SIGINT);;
                  on_os (install ServiceManager.SIGTERM))
                   (ServiceManager.world sm) = (Ok tt, set_os _ _, _)).
    { run_ok; [apply install_run|]. rewrite install_run. reflexivity. }
    rewrite H. eexists _, _. split; [reflexivity|].
    eexists. unfold state_of. cbn [fst snd]. reflexivity.
Qed.

Lemma start_run (sm : manager) :
  exists sm' out,
    service_start sm = (Ok tt, sm', out) /\
    os_changed
      (ServiceManager.set_startup_time
         (Some (clock (os (ServiceManager.world sm)))) sm) sm'.
Proof.
  set (sm1 := ServiceManager.set_startup_time _ sm).
  destruct (setup_run sm1) as (sm2 & out2 & H2 & C2).
  destruct (save_run "starting" sm2) as (sm3 & out3 & H3 & C3).
  destruct (save_run "running" sm3) as (sm4 & out4 & H4 & C4).
  eexists sm4, _. split.
  - unfold Lifespan.service_start, ServiceManager.start.
    run_ok; [reflexivity|]. run_ok; [reflexivity|].
    run_ok; [exact H2|]. run_ok; [exact H3|].
    run_ok; [reflexivity|]. run_ok; [reflexivity|]. exact H4.
  - eapply os_changed_trans; [exact C2|].
    eapply os_changed_trans; [exact C3 | exact C4].
Qed.

Variable s0 : Sched.
Hypothesis scheduler_created : BackgroundScheduler = Ok s0.
Hypothesis start_returns : forall s, res_of (scheduler_start s) = Ok tt.
Hypothesis shutdown_returns : forall s, res_of (scheduler_shutdown s) = Ok tt.

Lemma scheduler_start_run :
  SchedulerManager.start BackgroundScheduler scheduler_start SchedulerManager.init
  = (Ok tt, SchedulerManager.mk (Some (state_of (scheduler_start s0))) true,
     logs_of (scheduler_start s0) ++ [(INFO, "Background scheduler started")]).
Proof.
  unfold SchedulerManager.start, SchedulerManager.on_scheduler, mbind, M_bind,
    bind, get_state, modify, log.
  cbn. rewrite scheduler_created. cbn.
  pose proof (start_returns s0) as H. unfold res_of, state_of, logs_of in *.
  destruct (scheduler_start s0) as [[r s1] out]. cbn [fst snd] in *. subst r.
  cbn. rewrite ?app_nil_r. reflexivity.
Qed.

Lemma scheduler_stop_run (s : Sched) :
  SchedulerManager.stop scheduler_shutdown (SchedulerManager.mk (Some s) true)
  = (Ok tt, SchedulerManager.mk (Some (state_of (scheduler_shutdown s))) false,
     logs_of (scheduler_shutdown s) ++ [(INFO, "Background scheduler stopped")]).
Proof.
  unfold SchedulerManager.stop, SchedulerManager.on_scheduler, mbind, M_bind,
    bind, get_state, modify, log.
  cbn.
  pose proof (shutdown_returns s) as H. unfold res_of, state_of, logs_of in *.
  destruct (scheduler_shutdown s) as [[r s1] out]. cbn [fst snd] in *. subst r.
  cbn. rewrite ?app_nil_r. reflexivity.
Qed.

(** The process after [lifespan] has reached its [yield]. *)
Definition served (g0 : globals) (o : OS) (s : Sched) : process :=
  HealthChecker.mk
    [("scheduler", scheduler_check); ("state_file", state_file_check)]
    None "unknown"
    (ServiceManager.mk false [cleanup_scheduler; cleanup_resources] [] false
       (Some (clock (os g0))) "service_state.json"
       (mk_globals (persistent_state g0) (SchedulerManager.mk (Some s) true) o)).

(** The scheduler manager as [lifespan] may find it: new, or started
    already, as when the entry point of the program has started it before
    the server. *)
Definition startable (m : SchedulerManager.t Sched) : Prop :=
  m = SchedulerManager.init \/ exists s, m = SchedulerManager.mk (Some s) true.

Lemma scheduler_start_startable (m : SchedulerManager.t Sched) :
  startable m ->
  exists s out,
    SchedulerManager.start BackgroundScheduler scheduler_start m
    = (Ok tt, SchedulerManager.mk (Some s) true, out).
Proof.
  intros [-> | [s ->]].
  - eexists _, _. apply scheduler_start_run.
  - exists s, []. reflexivity.
Qed.

Lemma lifespan_enter_run (g0 : globals) :
  startable (scheduler_manager g0) ->
  exists o s out, lifespan_enter (fresh g0) = (Ok tt, served g0 o s, out).
Proof.
  intros Hsched.
  destruct (start_run (ServiceManager.init g0)) as (sm1 & out1 & H1 & [o1 ->]).
  destruct (scheduler_start_startable _ Hsched) as (s1 & outs & Hstart).
  exists o1, s1. eexists.
  unfold Lifespan.lifespan_enter.
  run_ok; [reflexivity|].
  run_ok.
  { unfold on_service_manager. rewrite zoom_run.
    change (HealthChecker.world (fresh g0)) with (ServiceManager.init g0).
    rewrite H1. reflexivity. }
  run_ok; [reflexivity|]. run_ok; [reflexivity|].
  run_ok.
  { unfold on_service_manager, on_globals, on_scheduler_manager.
    rewrite !zoom_run.
    cbn [state_of fst snd HealthChecker.world HealthChecker.set_world
         ServiceManager.world ServiceManager.set_world
         ServiceManager.set_startup_time ServiceManager.set_cleanup_handlers
         ServiceManager.init scheduler_manager set_os fresh HealthChecker.init].
    rewrite Hstart. reflexivity. }
  run_ok; [reflexivity|].
  unfold served. reflexivity.
Qed.

Lemma scheduler_check_run (sm : manager) :
  HealthChecker.check_call scheduler_check sm
  = (Ok (SchedulerManager.is_running (scheduler_manager (ServiceManager.world sm))),
     sm, []).
Proof.
  unfold Lifespan.scheduler_check, HealthChecker.check_call, on_globals.
  rewrite zoom_run. cbn. now destruct sm.
Qed.

Lemma state_file_check_passes (sm : manager) :
  (forall o, PersistentState.restore_rename (fst (next_write o))
             = PersistentState.RenameOk) ->
  res_of (HealthChecker.check_call state_file_check sm) = Ok true.
Proof.
  intros Hrestore.
  unfold Lifespan.state_file_check, HealthChecker.check_call, on_globals.
  rewrite zoom_run. unfold res_of at 1. cbn [fst].
  unfold mbind, M_bind, bind, get_state, draw. cbv beta iota zeta.
  pose proof (Hrestore (os (ServiceManager.world sm))) as H1.
  destruct (next_write _) as [o1 os1]. cbv beta iota zeta. cbn [os set_os].
  pose proof (Hrestore os1) as H2.
  destruct (next_write _) as [o2 os2]. cbv beta iota zeta.
  cbn [fst] in H1, H2.
  unfold on_persistent_state. rewrite zoom_run.
  rewrite (check_state_file_accessible_passes str_value _ o1 o2 _ H1 H2).
  reflexivity.
Qed.

Lemma reported_status (p : process) :
  reported p
  = Some (if all_pass (HealthChecker.health_checks p) (HealthChecker.world p)
          then "healthy" else "unhealthy").
Proof.
  unfold reported.
  destruct (run_health_checks_unfold
              (fun sm : manager => clock (os (ServiceManager.world sm))) p)
    as (out & ->).
  reflexivity.
Qed.

Lemma served_healthy (g0 : globals) (o : OS) (s : Sched) :
  (forall o, PersistentState.restore_rename (fst (next_write o))
             = PersistentState.RenameOk) ->
  reported (served g0 o s) = Some "healthy".
Proof.
  intros Hrestore. rewrite reported_status. unfold served.
  cbn [HealthChecker.health_checks HealthChecker.world all_pass].
  unfold passes. rewrite scheduler_check_run. unfold res_of at 1, state_of.
  cbn [fst snd ServiceManager.world scheduler_manager SchedulerManager.is_running].
  rewrite state_file_check_passes by exact Hrestore. reflexivity.
Qed.

(** The process after [lifespan] has run to its end; [w] is the answer of
    the operating system to the save made by [cleanup_resources]. *)
Definition stopped (g0 : globals) (w : PersistentState.save_outcome) (o : OS)
    (s : Sched) : process :=
  HealthChecker.mk
    [("scheduler", scheduler_check); ("state_file", state_file_check)]
    None "unknown"
    (ServiceManager.mk true [cleanup_scheduler; cleanup_resources] [] true
       (Some (clock (os g0))) "service_state.json"
       (mk_globals
          (PersistentState.set_files
             (saved_files w (persistent_state g0)) (persistent_state g0))
          (SchedulerManager.mk (Some s) false) o)).

Lemma stopped_unhealthy (g0 : globals) (w : PersistentState.save_outcome)
    (o : OS) (s : Sched) :
  reported (stopped g0 w o s) = Some "unhealthy".
Proof.
  rewrite reported_status. unfold stopped.
  cbn [HealthChecker.health_checks HealthChecker.world all_pass].
  unfold passes. rewrite scheduler_check_run. reflexivity.
Qed.

Lemma cleanup_scheduler_run (g : globals) (s : Sched) :
  scheduler_manager g = SchedulerManager.mk (Some s) true ->
  ServiceManager.handler_call cleanup_scheduler g
  = (Ok tt,
     set_scheduler_manager
       (SchedulerManager.mk (Some (state_of (scheduler_shutdown s))) false) g,
     logs_of (scheduler_shutdown s) ++ [(INFO, "Background scheduler stopped")]).
Proof.
  intros Hs. unfold Lifespan.cleanup_scheduler, ServiceManager.handler_call,
    on_scheduler_manager, SchedulerManager.cleanup_scheduler.
  rewrite zoom_run, Hs, scheduler_stop_run. reflexivity.
Qed.

Lemma cleanup_resources_handler_run (g : globals) :
  exists out,
    ServiceManager.handler_call cleanup_resources g
    = (Ok tt,
       set_persistent_state
         (PersistentState.set_files
            (saved_files (fst (next_write (os g))) (persistent_state g))
            (persistent_state g))
         (set_os (snd (next_write (os g))) g),
       out).
Proof.
  unfold Lifespan.cleanup_resources, ServiceManager.handler_call,
    on_persistent_state, mbind, M_bind, bind, draw.
  destruct (next_write (os g)) as [w o']. cbv beta iota zeta.
  rewrite zoom_run, cleanup_resources_run, save_state_spec.
  eexists. reflexivity.
Qed.

Lemma lifespan_exit_run (g0 : globals) (o : OS) (s : Sched) :
  exists ox o' out,
    lifespan_exit (served g0 o s)
    = (Ok tt,
       stopped g0 (fst (next_write ox)) o' (state_of (scheduler_shutdown s)),
       out).
Proof.
  set (sm0 := HealthChecker.world (served g0 o s)).
  set (sm1 := ServiceManager.set_is_shutting_down true sm0).
  destruct (save_run "shutting_down" sm1) as (sm2 & out2 & H2 & [o2 ->]).
  set (sm2 := ServiceManager.set_world _ sm1) in *.
  set (sm3 := ServiceManager.set_shutdown_event true sm2).
  set (g4 := state_of (ServiceManager.handler_call cleanup_scheduler
                         (ServiceManager.world sm3))).
  set (g5 := state_of (ServiceManager.handler_call cleanup_resources g4)).
  set (sm5 := ServiceManager.set_world g5 sm3).
  destruct (save_run "stopped" sm5) as (sm6 & out6 & H6 & [o6 ->]).
  exists o2, o6. eexists.
  unfold Lifespan.lifespan_exit.
  run_ok; [reflexivity|].
  unfold on_service_manager. rewrite zoom_run. fold sm0.
  eassert (H : service_shutdown sm0 = (Ok tt, _, _)).
  { unfold Lifespan.service_shutdown, ServiceManager.shutdown.
    run_ok; [reflexivity|]. cbn [ServiceManager.is_shutting_down sm0 served
                                  HealthChecker.world].
    run_ok; [reflexivity|]. run_ok; [reflexivity|].
    run_ok; [exact H2|]. run_ok; [reflexivity|].
    run_ok; [reflexivity|].
    run_ok.
    { unfold ServiceManager._run_cleanup_handlers.
      run_ok; [reflexivity|]. run_ok; [reflexivity|].
      cbn [ServiceManager.cleanup_handlers ServiceManager.set_shutdown_event
           ServiceManager.set_world sm2 sm1 sm0 served HealthChecker.world
           ServiceManager.set_is_shutting_down for_each].
      run_ok; [apply run_handler_unfold|].
      run_ok; [apply run_handler_unfold|]. reflexivity. }
    run_ok; [exact H6|]. reflexivity. }
  rewrite H. unfold res_of, state_of at 1, logs_of. cbn [fst snd].
  f_equal. f_equal.
  unfold stopped, served. unfold HealthChecker.set_world.
  cbn [HealthChecker.health_checks HealthChecker.last_health_check
       HealthChecker.health_status].
  f_equal.
  subst sm5 g5 g4 sm3 sm2 sm1 sm0. unfold served.
  cbn [HealthChecker.world ServiceManager.world ServiceManager.set_world
       ServiceManager.set_shutdown_event ServiceManager.set_is_shutting_down
       set_os].
  rewrite (cleanup_scheduler_run _ s) by reflexivity.
  unfold state_of at 2. cbn [fst snd].
  match goal with
  | |- context [ServiceManager.handler_call cleanup_resources ?g] =>
      destruct (cleanup_resources_handler_run g) as (outr & ->)
  end.
  unfold state_of. cbn [fst snd]. reflexivity.
Qed.

(** The whole lifespan on a process in which nothing has been registered
    and the scheduler manager is new or already started, when the calls of
    the scheduler library and the installation of the signal handlers
    return. Up to the [yield], [lifespan] returns, having registered the
    two cleanup handlers and the two health checks in the order of the
    source, recorded the startup time and started the scheduler; the
    persistent state is untouched. The health checks then report
    "healthy" whenever the operating system performs the renames that
    restore a backup, also when the writes of the state-file check fail.
    After the [yield], [lifespan] returns as well, however the save of
    [cleanup_resources] goes: the service is no longer running,
    [cleanup_scheduler] has stopped the scheduler, [cleanup_resources] has
    run [save_state] on the persistent state, whose map in memory is
    unchanged and whose file holds that map when the state file is renamed
    and written, and the health checks report "unhealthy", since the
    scheduler is stopped. *)
Theorem lifespan_lifecycle (g0 : globals) :
  startable (scheduler_manager g0) ->
  let entered := lifespan_enter (fresh g0) in
  let up := state_of entered in
  let exited := lifespan_exit up in
  let down := state_of exited in
  let service p := HealthChecker.world p in
  let world p := ServiceManager.world (HealthChecker.world p) in
  res_of entered = Ok tt /\
  map ServiceManager.handler_name (ServiceManager.cleanup_handlers (service up))
  = ["cleanup_scheduler"; "cleanup_resources"] /\
  (HealthChecker.health_checks up).*1 = ["scheduler"; "state_file"] /\
  ServiceManager.startup_time (service up) = Some (clock (os g0)) /\
  ServiceManager.is_running (service up) = true /\
  SchedulerManager.is_running (scheduler_manager (world up)) = true /\
  persistent_state (world up) = persistent_state g0 /\
  ((forall o, PersistentState.restore_rename (fst (next_write o))
              = PersistentState.RenameOk) ->
   reported up = Some "healthy") /\
  res_of exited = Ok tt /\
  ServiceManager.is_running (service down) = false /\
  SchedulerManager.is_running (scheduler_manager (world down)) = false /\
  PersistentState.state (persistent_state (world down))
  = PersistentState.state (persistent_state g0) /\
  ((forall o, PersistentState.backup_rename (fst (next_write o))
              = PersistentState.RenameOk /\
              PersistentState.write (fst (next_write o)) = PersistentState.WriteOk) ->
   primary (persistent_state (world down))
   = Some (PersistentState.Json (PersistentState.state (persistent_state g0)))) /\
  reported down = Some "unhealthy".
Proof.
  intros Hsched entered up exited down service world.
  destruct (lifespan_enter_run g0 Hsched) as (o & s & out & Henter).
  assert (Hup : up = served g0 o s) by (unfold up, entered; now rewrite Henter).
  destruct (lifespan_exit_run g0 o s) as (ox & o' & out' & Hexit).
  assert (Hdown : down = stopped g0 (fst (next_write ox)) o'
                           (state_of (scheduler_shutdown s)))
    by (unfold down, exited; now rewrite Hup, Hexit).
  unfold service, world. rewrite Hdown, Hup.
  unfold exited. rewrite Hup, Hexit. unfold entered. rewrite Henter.
  rewrite stopped_unhealthy.
  unfold res_of. cbn [fst snd].
  repeat match goal with |- _ /\ _ => split end; try reflexivity.
  - apply served_healthy.
  - intros Hwrite. unfold stopped.
    cbn [HealthChecker.world ServiceManager.world persistent_state].
    destruct (Hwrite ox) as [Hb Hw].
    unfold saved_files.
    rewrite (save_spec_written _ _ Hb Hw), save_spec_renames_ok.
    unfold primary. cbn [fst snd PersistentState.files
      PersistentState.state_file PersistentState.set_files].
    now destruct (files_after_save_ok (persistent_state g0)) as [-> _].
Qed.

End Returning.

End LifespanFacts.

(** A process whose operating system keeps a journal of the states written
    to the service-state file, newest first, and whose scheduler counts its
    starts and shutdowns. *)
Definition journal_globals : Lifespan.globals string nat (list string) :=
  Lifespan.mk_globals
    (PersistentState.mk "persistent_state.json" {["watchlist" := "AAPL"]} ∅)
    SchedulerManager.init [].

Definition journal_clock (journal : list string) : string := "2024-01-02T09:30:00".

Definition journal_enter
    : M (Lifespan.process string nat (list string)) unit :=
  Lifespan.lifespan_enter (Ok 0%nat) (modify S) (modify S) (fun s => s)
    journal_clock 4242
    (fun _ data => modify (cons (ServiceManager.sd_state data)))
    "posix" (fun _ => ret tt)
    (fun journal => (PersistentState.renames_ok PersistentState.WriteOk, journal)).

Definition journal_exit
    : M (Lifespan.process string nat (list string)) unit :=
  Lifespan.lifespan_exit journal_clock 4242
    (fun _ data => modify (cons (ServiceManager.sd_state data))).

Lemma lifespan_lifecycle_witness :
  reported journal_clock (state_of (journal_enter (fresh journal_globals)))
  = Some "healthy" /\
  reported journal_clock
    (state_of (journal_exit (state_of (journal_enter (fresh journal_globals)))))
  = Some "unhealthy".
Proof.
  pose proof (lifespan_lifecycle (Ok 0%nat) (modify S) (modify S) (fun s => s)
                journal_clock 4242
                (fun _ data => modify (cons (ServiceManager.sd_state data)))
                "posix" (fun _ => ret tt)
                (fun journal =>
                   (PersistentState.renames_ok PersistentState.WriteOk, journal))
                (fun _ _ => eq_refl) 0%nat eq_refl (fun _ => eq_refl)
                (fun _ => eq_refl) journal_globals (or_introl eq_refl)) as H.
  cbv zeta in H.
  destruct H as (_ & _ & _ & _ & _ & _ & _ & Hup & _ & _ & _ & _ & _ & Hdown).
  split; [apply Hup; reflexivity | exact Hdown].
Defined.

(** Over the lifespan the service-state file is written four times, and
    the scheduler is started once and shut down once. *)
Example lifespan_journal :
  let down := state_of (journal_exit (state_of (journal_enter (fresh journal_globals)))) in
  Lifespan.os (ServiceManager.world (HealthChecker.world down))
  = ["stopped"; "shutting_down"; "running"; "starting"] /\
  SchedulerManager.scheduler
    (Lifespan.scheduler_manager (ServiceManager.world (HealthChecker.world down)))
  = Some 2%nat.
Proof. split; reflexivity. Qed.

(** ** The start of the service *)

Section StartFacts.

Import ServiceManager.

Context {W : Type}.
Variable now_isoformat : W -> string.
Variable getpid : Z.
Variable write_state_file : string -> state_data -> M W unit.
Variable os_name : string.
Variable signal_signal : signal_name -> M W unit.

Abbreviation manager := (ServiceManager.t W).
Abbreviation start :=
  (ServiceManager.start now_isoformat getpid write_state_file os_name signal_signal).
Abbreviation _setup_signal_handlers :=
  (ServiceManager._setup_signal_handlers os_name signal_signal).

(** [start] records the reading of the clock at its entry as the startup
    time and, apart from the world, changes nothing else: the flags, the
    handlers and the tasks are as before. It raises exactly when the
    installation of a signal handler raises, with that exception; the
    startup time is then already recorded, and nothing has been written to
    the state file: the world is as the installation left it. When the
    handlers are installed, [start] returns, however the two writes of the
    state file go. *)
Theorem start_records_startup_time (self : manager) :
  let entered := set_startup_time (Some (now_isoformat (world self))) self in
  let setup := _setup_signal_handlers entered in
  exists w out,
    start self = (res_of setup, set_world w entered, out) /\
    (forall e, res_of setup = Raise e ->
       w = world (state_of setup) /\ out = logs_of setup).
Proof.
  intros entered setup.
  unfold ServiceManager.start, mbind, M_bind, bind, get_state, modify.
  cbv beta iota zeta. fold entered.
  change (ServiceManager._setup_signal_handlers os_name signal_signal entered)
    with setup.
  assert (Hsetup : exists w, state_of setup = set_world w entered).
  { unfold setup, ServiceManager._setup_signal_handlers, zoom, state_of.
    destruct (if negb (os_name =? "nt")%string then _ else _) as [[r w] out].
    exists w. reflexivity. }
  destruct Hsetup as (w1 & Hw1).
  destruct setup as [[[[]|e] sm1] out1] eqn:Esetup;
    unfold state_of in Hw1; cbn [fst snd] in Hw1; subst sm1.
  - destruct (quiet_save now_isoformat getpid write_state_file "starting"
                (set_world w1 entered)) as (w2 & out2 & ->).
    cbv beta iota zeta. unfold log at 1. cbv beta iota zeta.
    destruct (quiet_save now_isoformat getpid write_state_file "running"
                (set_world w2 (set_world w1 entered))) as (w3 & out3 & ->).
    exists w3. eexists. split; [reflexivity|]. discriminate.
  - exists w1, out1. split; [reflexivity|].
    intros e' _. unfold state_of, logs_of. cbn [fst snd].
    split; reflexivity.
Qed.

End StartFacts.

(** ** The monitor of the service health *)

Section MonitorFacts.

Import HealthChecker HealthMonitor.

Context {W : Type}.
Variable now_isoformat : ServiceManager.t W -> string.

Abbreviation process := (HealthMonitor.process W).
Abbreviation run_health_checks := (HealthChecker.run_health_checks now_isoformat).
Abbreviation monitor_iteration := (HealthMonitor.monitor_iteration now_isoformat).
Abbreviation monitor_service_health :=
  (HealthMonitor.monitor_service_health now_isoformat).

(** What an iteration logs after the records of the checks. *)
Definition health_warning (p : process) : list log_record :=
  if all_pass (health_checks p) (world p) then []
  else [(WARNING, "Service health check failed")].

Lemma health_iteration_run (pause : process -> option process) (p : process) :
  let checked := run_health_checks p in
  monitor_iteration pause p
  = match pause (state_of checked) with
    | Some p' => (Ok false, p', logs_of checked ++ health_warning p)
    | None => (Ok true, state_of checked, logs_of checked ++ health_warning p)
    end.
Proof.
  intros checked.
  destruct (run_health_checks_unfold now_isoformat p) as (out & Hchecked).
  cbv zeta in Hchecked. fold checked in Hchecked.
  unfold HealthMonitor.monitor_iteration, try_except, mbind, M_bind, bind,
    asyncio_sleep, log, mret, M_ret, ret.
  fold checked. rewrite Hchecked. unfold state_of, logs_of, health_warning.
  cbn [fst snd overall_status].
  destruct (all_pass (health_checks p) (world p)); cbn;
    match goal with
    | |- context [pause ?q] => destruct (pause q)
    end; cbn; rewrite ?app_nil_r; reflexivity.
Qed.

Lemma monitor_service_health_returns (pauses : list (process -> option process)) :
  forall p, exists e, res_of (monitor_service_health pauses p) = Ok e.
Proof.
  induction pauses as [|pause rest IH]; intros p.
  - cbn. unfold mbind, M_bind, bind, get_state. cbv beta iota zeta.
    destruct (ServiceManager.is_running (world p)); eexists; reflexivity.
  - cbn [HealthMonitor.monitor_service_health].
    unfold mbind, M_bind, bind, get_state. cbv beta iota zeta.
    destruct (ServiceManager.is_running (world p)); [|eexists; reflexivity].
    rewrite health_iteration_run.
    destruct (pause _) as [p'|]; [|eexists; reflexivity].
    destruct (IH p') as (e & He). exists e.
    unfold res_of in *.
    destruct (HealthMonitor.monitor_service_health now_isoformat rest p')
      as [[r s2] l2].
    cbn [fst] in *. subst r. reflexivity.
Qed.

(** The task never ends on an exception. When the service is found not
    running, it leaves its loop at once, without running a check. When
    the service is running, an iteration runs the health checks once, logs
    a warning exactly when one of them did not pass, and pauses: if the task
    is cancelled during the pause it ends there; otherwise it goes on from
    the process as the other coroutines left it, and leaves its loop without
    a further check when a shutdown has begun in the meantime. *)
Theorem monitor_follows_service
    (pauses : list (process -> option process)) (p : process) :
  let run := monitor_service_health pauses p in
  (exists e, res_of run = Ok e) /\
  (ServiceManager.is_running (world p) = false -> run = (Ok Exited, p, [])) /\
  (forall pause rest,
     pauses = pause :: rest ->
     ServiceManager.is_running (world p) = true ->
     let checked := run_health_checks p in
     ((WARNING, "Service health check failed") ∈ health_warning p
      <-> all_pass (health_checks p) (world p) = false) /\
     match pause (state_of checked) with
     | None =>
         run = (Ok Cancelled, state_of checked, logs_of checked ++ health_warning p)
     | Some p' =>
         let next := monitor_service_health rest p' in
         run = (res_of next, state_of next,
                logs_of checked ++ health_warning p ++ logs_of next) /\
         (ServiceManager.is_running (world p') = false ->
          next = (Ok Exited, p', []))
     end).
Proof.
  intros run.
  assert (Hstopped : forall ps q,
             ServiceManager.is_running (world q) = false ->
             monitor_service_health ps q = (Ok Exited, q, [])).
  { intros ps q Hq. destruct ps; cbn;
      unfold mbind, M_bind, bind, get_state; cbv beta iota zeta;
      now rewrite Hq. }
  split; [apply monitor_service_health_returns|].
  split; [apply Hstopped|].
  intros pause rest -> Hrunning checked. split.
  - unfold health_warning.
    destruct (all_pass (health_checks p) (world p)).
    + split; [intros H; now apply elem_of_nil in H | discriminate].
    + split; [reflexivity | intros _; apply list_elem_of_here].
  - unfold run. cbn [HealthMonitor.monitor_service_health].
    unfold mbind, M_bind, bind, get_state. cbv beta iota zeta.
    rewrite Hrunning, health_iteration_run. fold checked.
    destruct (pause (state_of checked)) as [p'|].
    + cbv zeta. split; [|apply Hstopped].
      destruct (HealthMonitor.monitor_service_health now_isoformat rest p')
        as [[r s2] l2].
      unfold res_of, state_of, logs_of. cbn [fst snd].
      now rewrite <- app_assoc.
    + cbn. now rewrite app_nil_r.
Qed.

End MonitorFacts.
